(** * Ensemble metrics: the accumulation and aggregation engine

    A shallow embedding of [protocols::ensemble_metrics::EnsembleMetric]
    (EnsembleMetric.cc) and of its one concrete subclass
    [metrics::CentralTendencyEnsembleMetric] (CentralTendencyEnsembleMetric.cc,
    with the MPI overrides of the [USEMPI] build), followed by the properties
    of the specification that were checked against it.

    Conventions of the embedding:
    - [core::Real] is [double]: the kernel's binary64 floats ([PrimFloat]),
      so every arithmetic step rounds exactly as the C++ does and every
      function below runs under [vm_compute];
    - [core::Size] is [unsigned long]: [N] with the reduction modulo [2^64]
      written where the C++ increments or adds;
    - [utility::vector1] is a list indexed from 1;
    - [runtime_assert*] and [utility_exit_with_message] throw: the model
      returns [Throw] and keeps the state reached at the throw, since the
      object outlives the exception;
    - undefined behaviour (null dereference, out-of-range indexing) and calls
      that never return are [Crash];
    - [debug_assert] is compiled out (release build);
    - the pose, the simple metric, the movers, the thread manager and MPI are
      external collaborators and appear only through what the code asks of
      them. *)

From Stdlib Require Import String.
From Stdlib Require Import ZArith NArith List Bool Lia Floats.
From Stdlib Require Import Permutation Sorted ZifyNat ZifyN.
Import ListNotations.

Set Implicit Arguments.

(* ================================================================== *)
(** * Part I: the model *)
(* ================================================================== *)

(** ** [core::Size] *)

Module Size.

Definition modulus : N := 2 ^ 64.

(** Reduction of a mathematical natural number to an [unsigned long]. *)
Definition wrap (n : N) : N := (n mod modulus)%N.

(** [++n]. *)
Definition incr (n : N) : N := wrap (n + 1).

(** [a += b]. *)
Definition add (a b : N) : N := wrap (a + b).

End Size.

(** ** [core::Real] *)

Module Real.

(** [static_cast< core::Real >( n )] for a [core::Size] [n]: the nearest
    double, ties to even. *)
Definition of_Size (n : N) : float :=
  SF2Prim (binary_normalize prec emax (Z.of_N n) 0%Z false).

(** [std::pow( x, 2 )]: the correctly rounded square. *)
Definition pow2 (x : float) : float := (x * x)%float.

(** Equivalence of keys under [std::less<double>], the relation by which
    [std::map] groups: neither is less than the other. *)
Definition equiv (a b : float) : bool :=
  (negb (a <? b) && negb (b <? a))%float.

(** [std::accumulate( first, last, init )]. *)
Definition accumulate (l : list float) (init : float) : float :=
  fold_left PrimFloat.add l init.

End Real.

(** ** [utility::vector1] *)

(** [v.size()], as the [core::Size] the code compares and divides.  A vector
    in memory has fewer than [2^64] elements, so the reduction is the identity
    on every list the program can hold. *)
Definition vsize A (v : list A) : N := Size.wrap (N.of_nat (length v)).

(** [v[i]], 1-based.  [None] is an access outside [1 .. size()]. *)
Definition at1 A (v : list A) (i : N) : option A :=
  if (i =? 0)%N then None else nth_error v (N.to_nat (i - 1)).

(** [v.resize( v.size() + n )] for doubles: [n] value-initialised elements
    are appended. *)
Definition resize_by (v : list float) (n : nat) : list float :=
  v ++ repeat 0%float n.

(** ** [std::sort] on doubles *)

(** [std::sort( first, last )] orders by [operator<].  The standard fixes the
    result only up to the order of equivalent elements; insertion from the
    right is one conforming implementation. *)
Fixpoint insert_sorted (x : float) (l : list float) : list float :=
  match l with
  | [] => [x]
  | y :: l' => if (x <? y)%float then x :: l else y :: insert_sorted x l'
  end.

Definition std_sort (l : list float) : list float :=
  fold_right insert_sorted [] l.

(** ** [std::map< core::Real, core::Size >] *)

(** The map as the list of its entries in iteration order (ascending keys). *)
Definition std_map := list (float * N).

(** [m.count( k )]. *)
Fixpoint map_count (k : float) (m : std_map) : N :=
  match m with
  | [] => 0%N
  | (k', _) :: m' => if Real.equiv k k' then 1%N else map_count k m'
  end.

(** [m[k] = f( m[k] )]: [operator[]] finds the entry equivalent to [k] or
    inserts one holding 0 at its place in the order, and [f] is applied to the
    referenced count. *)
Fixpoint map_update (k : float) (f : N -> N) (m : std_map) : std_map :=
  match m with
  | [] => [(k, f 0%N)]
  | (k', c) :: m' =>
      if (k <? k')%float then (k, f 0%N) :: m
      else if (k' <? k)%float then (k', c) :: map_update k f m'
      else (k', f c) :: m'
  end.

(** A [for ( core::Size i(first), ...; ++i )] loop of [n] iterations whose
    body may access out of range. *)
Fixpoint for_loop St (n : nat) (i : N) (body : N -> St -> option St) (s : St)
  : option St :=
  match n with
  | O => Some s
  | S n' =>
      match body i s with
      | Some s' => for_loop n' (Size.incr i) body s'
      | None => None
      end
  end.

(** ** Collaborators and data *)

(** [EnsembleMetricOutputMode] (EnsembleMetric.hh). *)
Inductive EnsembleMetricOutputMode :=
| UNKNOWN_MODE
| TRACER
| TRACER_AND_FILE
| FILE.

(** [protocols::moves::MoverStatus]: the code only asks whether the status is
    [MS_SUCCESS]. *)
Inductive MoverStatus :=
| MS_SUCCESS
| MS_FAILURE.

(** What [runtime_assert], [runtime_assert_string_msg] and
    [utility_exit_with_message] throw, by the place that throws. *)
Inductive Error :=
| AlreadyFinalizedError      (* apply(): finalized_ == false *)
| NoSimpleMetricError        (* add_pose_to_ensemble(): simple_metric_ != nullptr *)
| EmptyEnsembleError         (* finalize_values(): poses_in_ensemble() > 0 *)
| InvalidOutputModeError     (* produce_final_report(): default case, and the
                                mode assertions of the two report writers *)
| NoOutputFileError          (* produce_final_report_to_file(): !output_file.empty() *)
| NotFinalizedError          (* get_real_metric_value_by_name(), mean(), ... *)
| UnknownMetricNameError     (* get_real_metric_value_by_name(): has_value *)
| ZeroRepeatsError           (* set_ensemble_generating_protocol_repeats() *)
| TooManyThreadsError        (* set_n_threads(), single-threaded build *)
| MPIAssertionError.         (* the runtime_asserts of send/recv_mpi_summary() *)

(** Ways of not returning. *)
Inductive Crash_reason :=
| NullDereference            (* operator* or operator-> on a null owning pointer *)
| OutOfBounds                (* vector1 index outside 1 .. size() *)
| MPITruncate                (* message longer than the receive buffer: MPI aborts *)
| MPITypeMismatch            (* message received under another datatype *)
| MPIBlocked                 (* MPI_Recv with no matching message: never returns *)
| Terminate (e : Error).     (* exception leaving a destructor: std::terminate *)

Inductive Outcome (A : Type) :=
| Ok (a : A)
| Throw (e : Error)
| Crash (c : Crash_reason).

Arguments Ok {A} a.
Arguments Throw {A} e.
Arguments Crash {A} c.

(** The eight statistics in report order, as [produce_final_report_string()]
    writes them under the metric's name (text formatting is not modelled). *)
Record Report := {
  report_metric : string;
  report_lines : list (string * float)
}.

(** What reaches the two sinks. *)
Inductive Event :=
| TracerHeader (name : string) (poses : N)
    (* "Report from <name>:" ... "poses_in_ensemble: <n>", streamed before
       the report string is computed *)
| TracerReport (r : Report)
| FileReport (file : string) (poses : N) (r : Report).

(** MPI messages (tag 0, [MPI_COMM_WORLD]). *)
Inductive MPI_payload :=
| MPI_INT (n : Z)
| MPI_DOUBLE (vs : list float).

Section Model.

(** The pose: opaque, owned elsewhere. *)
Variable Pose : Type.

(** [core::simple_metrics::RealMetric]: a name and a measurement. *)
Record RealMetric := {
  metric_name : string;
  calculate : Pose -> float
}.

(** [protocols::moves::Mover]: [apply] rewrites the pose and leaves a status;
    [get_additional_output()] hands out the mover's further poses one at a
    time and then [nullptr]. *)
Record Mover := {
  mover_apply : Pose -> Pose * MoverStatus;
  additional_output : list Pose
}.

(** [m->clone()]. *)
Definition clone (m : Mover) : Mover := m.

(** [m->get_additional_output()]: the next pose, or [None] for [nullptr], and
    the mover afterwards. *)
Definition get_additional_output (m : Mover) : option Pose * Mover :=
  match additional_output m with
  | [] => (None, m)
  | p :: rest =>
      (Some p, {| mover_apply := mover_apply m; additional_output := rest |})
  end.

(** The data members of the base class (EnsembleMetric.hh), with their
    in-class initialisers as [EnsembleMetric_default]. *)
Record EnsembleMetric := {
  finalized_ : bool;
  use_additional_output_from_last_mover_ : bool;
  output_mode_ : EnsembleMetricOutputMode;
  output_filename_ : string;
  label_prefix_ : string;
  label_suffix_ : string;
  last_mover_ : option Mover;
  ensemble_generating_protocol_ : option Mover;
  ensemble_generating_protocol_repeats_ : N;
  poses_in_ensemble_ : N;
  n_threads_ : N
}.

Definition EnsembleMetric_default : EnsembleMetric := {|
  finalized_ := false;
  use_additional_output_from_last_mover_ := false;
  output_mode_ := TRACER;
  output_filename_ := EmptyString;
  label_prefix_ := EmptyString;
  label_suffix_ := EmptyString;
  last_mover_ := None;
  ensemble_generating_protocol_ := None;
  ensemble_generating_protocol_repeats_ := 1;
  poses_in_ensemble_ := 0;
  n_threads_ := 1
|}.

(** The object: the base subobject and the data members of
    [CentralTendencyEnsembleMetric] (CentralTendencyEnsembleMetric.hh). *)
Record CentralTendencyEnsembleMetric := {
  base : EnsembleMetric;
  simple_metric_ : option RealMetric;
  values_ : list float;
  mean_ : float;
  median_ : float;
  mode_ : float;
  stderr_ : float;
  stddev_ : float;
  min_ : float;
  max_ : float;
  range_ : float;
  derived_finalized_ : bool
}.

(** Default constructor. *)
Definition CentralTendencyEnsembleMetric_default
  : CentralTendencyEnsembleMetric := {|
  base := EnsembleMetric_default;
  simple_metric_ := None;
  values_ := [];
  mean_ := 0; median_ := 0; mode_ := 0;
  stderr_ := 0; stddev_ := 0;
  min_ := 0; max_ := 0; range_ := 0;
  derived_finalized_ := false
|}.

(** Inline getters. *)
Definition finalized (m : CentralTendencyEnsembleMetric) : bool :=
  finalized_ (base m).

Definition poses_in_ensemble (m : CentralTendencyEnsembleMetric) : N :=
  poses_in_ensemble_ (base m).

(** *** Assignments to single members *)

Definition set_finalized_ (b : bool) (e : EnsembleMetric) : EnsembleMetric := {|
  finalized_ := b;
  use_additional_output_from_last_mover_ := use_additional_output_from_last_mover_ e;
  output_mode_ := output_mode_ e;
  output_filename_ := output_filename_ e;
  label_prefix_ := label_prefix_ e;
  label_suffix_ := label_suffix_ e;
  last_mover_ := last_mover_ e;
  ensemble_generating_protocol_ := ensemble_generating_protocol_ e;
  ensemble_generating_protocol_repeats_ := ensemble_generating_protocol_repeats_ e;
  poses_in_ensemble_ := poses_in_ensemble_ e;
  n_threads_ := n_threads_ e
|}.

Definition set_poses_in_ensemble_ (n : N) (e : EnsembleMetric) : EnsembleMetric := {|
  finalized_ := finalized_ e;
  use_additional_output_from_last_mover_ := use_additional_output_from_last_mover_ e;
  output_mode_ := output_mode_ e;
  output_filename_ := output_filename_ e;
  label_prefix_ := label_prefix_ e;
  label_suffix_ := label_suffix_ e;
  last_mover_ := last_mover_ e;
  ensemble_generating_protocol_ := ensemble_generating_protocol_ e;
  ensemble_generating_protocol_repeats_ := ensemble_generating_protocol_repeats_ e;
  poses_in_ensemble_ := n;
  n_threads_ := n_threads_ e
|}.

Definition set_base (f : EnsembleMetric -> EnsembleMetric)
  (m : CentralTendencyEnsembleMetric) : CentralTendencyEnsembleMetric := {|
  base := f (base m);
  simple_metric_ := simple_metric_ m;
  values_ := values_ m;
  mean_ := mean_ m; median_ := median_ m; mode_ := mode_ m;
  stderr_ := stderr_ m; stddev_ := stddev_ m;
  min_ := min_ m; max_ := max_ m; range_ := range_ m;
  derived_finalized_ := derived_finalized_ m
|}.

Definition set_values_ (v : list float)
  (m : CentralTendencyEnsembleMetric) : CentralTendencyEnsembleMetric := {|
  base := base m;
  simple_metric_ := simple_metric_ m;
  values_ := v;
  mean_ := mean_ m; median_ := median_ m; mode_ := mode_ m;
  stderr_ := stderr_ m; stddev_ := stddev_ m;
  min_ := min_ m; max_ := max_ m; range_ := range_ m;
  derived_finalized_ := derived_finalized_ m
|}.

Definition set_derived_finalized_ (b : bool)
  (m : CentralTendencyEnsembleMetric) : CentralTendencyEnsembleMetric := {|
  base := base m;
  simple_metric_ := simple_metric_ m;
  values_ := values_ m;
  mean_ := mean_ m; median_ := median_ m; mode_ := mode_ m;
  stderr_ := stderr_ m; stddev_ := stddev_ m;
  min_ := min_ m; max_ := max_ m; range_ := range_ m;
  derived_finalized_ := b
|}.

(** The eight statistics, for assigning them together. *)
Record Statistics := {
  s_mean : float;
  s_median : float;
  s_mode : float;
  s_stddev : float;
  s_stderr : float;
  s_min : float;
  s_max : float;
  s_range : float
}.

Definition set_statistics (st : Statistics)
  (m : CentralTendencyEnsembleMetric) : CentralTendencyEnsembleMetric := {|
  base := base m;
  simple_metric_ := simple_metric_ m;
  values_ := values_ m;
  mean_ := s_mean st; median_ := s_median st; mode_ := s_mode st;
  stderr_ := s_stderr st; stddev_ := s_stddev st;
  min_ := s_min st; max_ := s_max st; range_ := s_range st;
  derived_finalized_ := derived_finalized_ m
|}.

Definition statistics_of (m : CentralTendencyEnsembleMetric) : Statistics := {|
  s_mean := mean_ m; s_median := median_ m; s_mode := mode_ m;
  s_stddev := stddev_ m; s_stderr := stderr_ m;
  s_min := min_ m; s_max := max_ m; s_range := range_ m
|}.

(** *** The process as the code sees it *)

(** The object, what has been written to the sinks (oldest first), the MPI
    messages addressed to this process and not yet received (in arrival
    order, each with its source rank), and the messages this process has sent
    (each with its destination rank). *)
Record World := {
  self : CentralTendencyEnsembleMetric;
  output : list Event;
  inbox : list (Z * MPI_payload);
  sent : list (Z * MPI_payload)
}.

(** Member functions: the state threaded through, an exception or a crash
    cutting the rest short. *)
Definition M (A : Type) : Type := World -> Outcome A * World.

Definition ret {A} (a : A) : M A := fun w => (Ok a, w).

Definition bind {A B} (m : M A) (k : A -> M B) : M B :=
  fun w =>
    match m w with
    | (Ok a, w') => k a w'
    | (Throw e, w') => (Throw e, w')
    | (Crash c, w') => (Crash c, w')
    end.

Definition throw {A} (e : Error) : M A := fun w => (Throw e, w).

Definition crash {A} (c : Crash_reason) : M A := fun w => (Crash c, w).

Definition runtime_assert (b : bool) (e : Error) : M unit :=
  if b then ret tt else throw e.

Definition get_self : M CentralTendencyEnsembleMetric :=
  fun w => (Ok (self w), w).

Definition modify (f : CentralTendencyEnsembleMetric -> CentralTendencyEnsembleMetric)
  : M unit :=
  fun w =>
    (Ok tt, {| self := f (self w); output := output w;
               inbox := inbox w; sent := sent w |}).

Definition emit (ev : Event) : M unit :=
  fun w =>
    (Ok tt, {| self := self w; output := output w ++ [ev];
               inbox := inbox w; sent := sent w |}).

(** A call made where no exception may pass (a destructor). *)
Definition noexcept {A} (m : M A) : M A :=
  fun w =>
    match m w with
    | (Throw e, w') => (Crash (Terminate e), w')
    | r => r
    end.

Notation "x <- m ;; k" := (bind m (fun x => k))
  (at level 61, m at next level, right associativity).
Notation "m ;; k" := (bind m (fun _ => k))
  (at level 61, right associativity).

(** ** CentralTendencyEnsembleMetric.cc *)

(** [metric_names_for_class], returned by [real_valued_metric_names()]. *)
Definition real_valued_metric_names : list string :=
  ["mean"; "median"; "mode"; "stddev"; "stderr"; "min"; "max"; "range"]%string.

(** [name()]. *)
Definition name : string := "CentralTendency"%string.

(** [add_pose_to_ensemble( pose )]. *)
Definition add_pose_to_ensemble (pose : Pose) : M unit :=
  m <- get_self ;;
  match simple_metric_ m with
  | None => throw NoSimpleMetricError
  | Some metric =>
      modify (fun m => set_values_ (values_ m ++ [calculate metric pose]) m)
  end.

(** [derived_reset()]. *)
Definition derived_reset (m : CentralTendencyEnsembleMetric)
  : CentralTendencyEnsembleMetric :=
  set_derived_finalized_ false
    (set_values_ []
       (set_statistics
          {| s_mean := 0; s_median := 0; s_mode := 0;
             s_stddev := 0; s_stderr := 0;
             s_min := 0; s_max := 0; s_range := 0 |} m)).

(** *** [finalize_values()] *)

(** The median of the sorted copy (lines 317-322), indexed from 1. *)
Definition median_of_sorted (values_sorted : list float) : option float :=
  let n := vsize values_sorted in
  if (n mod 2 =? 0)%N then
    let pos := (n / 2)%N in
    match at1 values_sorted pos, at1 values_sorted (Size.add pos 1) with
    | Some a, Some b => Some ((a + b) / 2)%float
    | _, _ => None
    end
  else at1 values_sorted (Size.add (n / 2) 1).

(** Lines 333-337: one more occurrence of [curval] in the table. *)
Definition count_occurrence (curval : float) (counts : std_map) : std_map :=
  if (map_count curval counts =? 0)%N
  then map_update curval (fun _ => 1%N) counts
  else map_update curval Size.incr counts.

(** The body of the loop of lines 330-338 on index [i]: the running sum of
    squared deviations and the table of occurrence counts. *)
Definition deviations_and_counts (values : list float) (mean : float)
  (i : N) (st : float * std_map) : option (float * std_map) :=
  match at1 values i with
  | None => None
  | Some curval =>
      Some ((fst st + Real.pow2 (curval - mean))%float,
            count_occurrence curval (snd st))
  end.

(** The body of the loop of lines 345-354 on one map entry; the state is
    [(accumulator2, maxsize, maxsize_counter)]. *)
Definition mode_step (st : float * N * N) (it : float * N) : float * N * N :=
  let '(accumulator2, maxsize, maxsize_counter) := st in
  if (maxsize <? snd it)%N then (fst it, snd it, 1%N)
  else if (snd it =? maxsize)%N
       then ((accumulator2 + fst it)%float, maxsize, Size.incr maxsize_counter)
       else st.

(** Lines 311-355: the eight statistics from the count and the values.
    [None] when an index leaves its vector. *)
Definition compute_statistics (poses : N) (values : list float)
  : option Statistics :=
  let mean := (Real.accumulate values 0 / Real.of_Size poses)%float in
  let values_sorted := std_sort values in
  match median_of_sorted values_sorted,
        at1 values_sorted 1,
        at1 values_sorted (vsize values_sorted),
        for_loop (N.to_nat (vsize values)) 1
          (deviations_and_counts values mean) (0%float, [])
  with
  | Some median, Some min, Some max, Some (accumulator, counts) =>
      let accumulator := (accumulator / Real.of_Size (vsize values))%float in
      let stddev := PrimFloat.sqrt accumulator in
      let stderr :=
        (stddev / PrimFloat.sqrt (Real.of_Size (vsize values)))%float in
      let '(accumulator2, _, maxsize_counter) :=
        fold_left mode_step counts (0%float, 0%N, 0%N) in
      Some {| s_mean := mean;
              s_median := median;
              s_mode := (accumulator2 / Real.of_Size maxsize_counter)%float;
              s_stddev := stddev;
              s_stderr := stderr;
              s_min := min;
              s_max := max;
              s_range := (max - min)%float |}
  | _, _, _, _ => None
  end.

Definition finalize_values : M unit :=
  m <- get_self ;;
  if derived_finalized_ m then ret tt
  else
    modify (set_derived_finalized_ true) ;;
    runtime_assert (0 <? poses_in_ensemble m)%N EmptyEnsembleError ;;
    match compute_statistics (poses_in_ensemble m) (values_ m) with
    | None => crash OutOfBounds
    | Some st => modify (set_statistics st)
    end.

(** The text of [produce_final_report_string()] as data. *)
Definition report_of (metric : RealMetric)
  (m : CentralTendencyEnsembleMetric) : Report :=
  {| report_metric := metric_name metric;
     report_lines :=
       [("mean", mean_ m); ("median", median_ m); ("mode", mode_ m);
        ("stddev", stddev_ m); ("stderr", stderr_ m);
        ("min", min_ m); ("max", max_ m); ("range", range_ m)]%string |}.

(** [produce_final_report_string()]. *)
Definition produce_final_report_string : M Report :=
  finalize_values ;;
  m <- get_self ;;
  match simple_metric_ m with
  | None => crash NullDereference
  | Some metric => ret (report_of metric m)
  end.

(** [derived_get_metric_by_name( metric_name )]. *)
Definition derived_get_metric_by_name (metric_name : string) : M float :=
  m <- get_self ;;
  if String.eqb metric_name "mean" then ret (mean_ m)
  else if String.eqb metric_name "median" then ret (median_ m)
  else if String.eqb metric_name "mode" then ret (mode_ m)
  else if String.eqb metric_name "stddev" then ret (stddev_ m)
  else if String.eqb metric_name "stderr" then ret (stderr_ m)
  else if String.eqb metric_name "min" then ret (min_ m)
  else if String.eqb metric_name "max" then ret (max_ m)
  else if String.eqb metric_name "range" then ret (range_ m)
  else throw UnknownMetricNameError.

(** [set_real_metric( metric_in )]. *)
Definition set_real_metric (metric_in : option RealMetric)
  (m : CentralTendencyEnsembleMetric) : CentralTendencyEnsembleMetric := {|
  base := base m;
  simple_metric_ := metric_in;
  values_ := values_ m;
  mean_ := mean_ m; median_ := median_ m; mode_ := mode_ m;
  stderr_ := stderr_ m; stddev_ := stddev_ m;
  min_ := min_ m; max_ := max_ m; range_ := range_ m;
  derived_finalized_ := derived_finalized_ m
|}.

(** ** EnsembleMetric.cc *)

(** [produce_final_report_to_tracer( tracer )]. *)
Definition produce_final_report_to_tracer : M unit :=
  m <- get_self ;;
  runtime_assert
    (match output_mode_ (base m) with
     | TRACER | TRACER_AND_FILE => true
     | _ => false
     end) InvalidOutputModeError ;;
  emit (TracerHeader name (poses_in_ensemble m)) ;;
  r <- produce_final_report_string ;;
  emit (TracerReport r).

(** [produce_final_report_to_file( output_file )].  The decoration of the file
    name (prefix, job, process, suffix) is left to the sink. *)
Definition produce_final_report_to_file (output_file : string) : M unit :=
  m <- get_self ;;
  runtime_assert
    (match output_mode_ (base m) with
     | FILE | TRACER_AND_FILE => true
     | _ => false
     end) InvalidOutputModeError ;;
  runtime_assert (negb (String.eqb output_file EmptyString)) NoOutputFileError ;;
  r <- produce_final_report_string ;;
  emit (FileReport output_file (poses_in_ensemble m) r).

(** [produce_final_report()]. *)
Definition produce_final_report : M unit :=
  m <- get_self ;;
  match output_mode_ (base m) with
  | TRACER => produce_final_report_to_tracer
  | TRACER_AND_FILE =>
      produce_final_report_to_tracer ;;
      produce_final_report_to_file (output_filename_ (base m))
  | FILE => produce_final_report_to_file (output_filename_ (base m))
  | UNKNOWN_MODE => throw InvalidOutputModeError
  end ;;
  modify (set_base (set_finalized_ true)).

(** [++poses_in_ensemble_]. *)
Definition increment_count : M unit :=
  modify (set_base (fun e => set_poses_in_ensemble_ (Size.incr (poses_in_ensemble_ e)) e)).

(** [increment_poses_in_ensemble( n_additional_poses )]. *)
Definition increment_poses_in_ensemble (n_additional_poses : N) : M unit :=
  modify (set_base (fun e =>
    set_poses_in_ensemble_ (Size.add (poses_in_ensemble_ e) n_additional_poses) e)).

(** The loop of lines 213-218 of [apply()], on the additional poses the
    copied mover still holds. *)
Fixpoint drain_additional_output (outputs : list Pose) : M unit :=
  match outputs with
  | [] => ret tt                       (* curpose == nullptr: break *)
  | curpose :: rest =>
      increment_count ;;
      add_pose_to_ensemble curpose ;;
      drain_additional_output rest
  end.

(** Lines 814-833 of [generate_one_ensemble_entry()]: apply the protocol to
    the current pose and, on success, count and measure the result.  A
    failed attempt is only logged; without a [last_mover_copy] the function
    then returns (line 818), which is also where the [break] of line 846
    would take it. *)
Definition apply_and_measure (my_protocol : Mover) (my_pose : Pose) : M unit :=
  match snd (mover_apply my_protocol my_pose) with
  | MS_SUCCESS =>
      increment_count ;;
      add_pose_to_ensemble (fst (mover_apply my_protocol my_pose))
  | MS_FAILURE => ret tt
  end.

(** The do-while of lines 811-848 when [last_mover_copy] is not null and
    still holds the additional poses [outputs]: after each measurement the
    result of [get_additional_output()] is dereferenced (line 841) whether or
    not it is null; the tests of lines 842 and 848 look at [my_pose], which
    is never null. *)
Fixpoint measure_additional_outputs (my_protocol : Mover)
  (outputs : list Pose) (my_pose : Pose) : M unit :=
  apply_and_measure my_protocol my_pose ;;
  match outputs with
  | [] => crash NullDereference
  | next :: rest => measure_additional_outputs my_protocol rest next
  end.

(** [generate_one_ensemble_entry( attempt_index, master_pose,
    master_protocol, last_mover_copy )]. *)
Definition generate_one_ensemble_entry (attempt_index : N)
  (master_pose : Pose) (master_protocol : Mover)
  (last_mover_copy : option Mover) : M unit :=
  let my_pose := master_pose in
  let my_protocol := clone master_protocol in
  match last_mover_copy with
  | None => apply_and_measure my_protocol my_pose
  | Some lm =>
      measure_additional_outputs my_protocol (additional_output lm) my_pose
  end.

(** [RosettaThreadManager::do_work_vector_in_threads]: every work item is
    run once.  The single-threaded build runs them in order; with threads the
    accumulation is serialised by [ensemble_metric_mutex_] and only the order
    of the appended values differs. *)
Fixpoint do_work_vector_in_threads (workvec : list (M unit)) : M unit :=
  match workvec with
  | [] => ret tt
  | work :: rest => work ;; do_work_vector_in_threads rest
  end.

(** [generate_ensemble_and_apply_to_poses( pose )]. *)
Definition generate_ensemble_and_apply_to_poses (pose : Pose) : M unit :=
  m <- get_self ;;
  match ensemble_generating_protocol_ (base m) with
  | None => crash NullDereference
  | Some protocol =>
      let last_mover_copy :=
        match last_mover_ (base m) with
        | Some lm =>
            if use_additional_output_from_last_mover_ (base m)
            then Some (clone lm) else None
        | None => None
        end in
      do_work_vector_in_threads
        (map (fun i => generate_one_ensemble_entry (N.of_nat i) pose protocol
                         last_mover_copy)
             (seq 1 (N.to_nat (ensemble_generating_protocol_repeats_ (base m)))))
  end.

(** [apply( pose )].  The [USEMPI] check of lines 196-205 always passes here:
    [CentralTendencyEnsembleMetric::supports_mpi()] returns [true]. *)
Definition apply (pose : Pose) : M unit :=
  m <- get_self ;;
  runtime_assert (negb (finalized m)) AlreadyFinalizedError ;;
  match ensemble_generating_protocol_ (base m) with
  | None =>
      increment_count ;;
      add_pose_to_ensemble pose ;;
      match last_mover_ (base m) with
      | Some lm =>
          if use_additional_output_from_last_mover_ (base m) then
            let mover_copy := clone lm in
            drain_additional_output (additional_output mover_copy) ;;
            produce_final_report
          else ret tt
      | None => ret tt
      end
  | Some _ =>
      generate_ensemble_and_apply_to_poses pose ;;
      produce_final_report
  end.

(** [reset()]. *)
Definition reset (m : CentralTendencyEnsembleMetric)
  : CentralTendencyEnsembleMetric :=
  derived_reset
    (set_base (fun e => set_finalized_ false (set_poses_in_ensemble_ 0 e)) m).

(** [get_real_metric_value_by_name( metric_name )] ([get_metric_by_name] in
    the header and the tests). *)
Definition get_real_metric_value_by_name (metric_name : string) : M float :=
  m <- get_self ;;
  runtime_assert (finalized m) NotFinalizedError ;;
  runtime_assert
    (existsb (String.eqb metric_name) real_valued_metric_names)
    UnknownMetricNameError ;;
  derived_get_metric_by_name metric_name.

(** [~CentralTendencyEnsembleMetric()]. *)
Definition destructor : M unit :=
  m <- get_self ;;
  if negb (finalized m) && (0 <? poses_in_ensemble m)%N
  then noexcept produce_final_report
  else ret tt.

(** ** The MPI overrides ([USEMPI] build) *)

(** [static_cast< int >( n )] and [static_cast< core::Size >( z )]. *)
Definition int_of_Size (n : N) : Z :=
  let r := (Z.of_N n mod 2 ^ 32)%Z in
  if (r <? 2 ^ 31)%Z then r else (r - 2 ^ 32)%Z.

Definition Size_of_int (z : Z) : N := Z.to_N (z mod 2 ^ 64).

(** The first element satisfying [p], and the list without it. *)
Fixpoint take_first A (p : A -> bool) (l : list A) : option (A * list A) :=
  match l with
  | [] => None
  | x :: l' =>
      if p x then Some (x, l')
      else match take_first p l' with
           | Some (y, rest) => Some (y, x :: rest)
           | None => None
           end
  end.

Definition set_inbox (i : list (Z * MPI_payload)) (w : World) : World :=
  {| self := self w; output := output w; inbox := i; sent := sent w |}.

(** [MPI_Recv( buf, 1, MPI_INT, source, 0, MPI_COMM_WORLD, &status )] with
    [source = None] for [MPI_ANY_SOURCE]: the value and [status.MPI_SOURCE]. *)
Definition MPI_Recv_int (source : option Z) : M (Z * Z) :=
  fun w =>
    match take_first
            (fun msg => match source with
                        | None => true
                        | Some s => (fst msg =? s)%Z
                        end) (inbox w) with
    | None => (Crash MPIBlocked, w)
    | Some ((src, MPI_INT n), rest) => (Ok (n, src), set_inbox rest w)
    | Some ((_, MPI_DOUBLE _), _) => (Crash MPITypeMismatch, w)
    end.

(** [MPI_Recv( buf, count, MPI_DOUBLE, source, 0, MPI_COMM_WORLD, &status )]:
    the doubles received (at most [count]) and [status.MPI_SOURCE]. *)
Definition MPI_Recv_double (count : nat) (source : Z) : M (list float * Z) :=
  fun w =>
    match take_first (fun msg => (fst msg =? source)%Z) (inbox w) with
    | None => (Crash MPIBlocked, w)
    | Some ((src, MPI_DOUBLE vs), rest) =>
        if (length vs <=? count)%nat then (Ok (vs, src), set_inbox rest w)
        else (Crash MPITruncate, w)
    | Some ((_, MPI_INT _), _) => (Crash MPITypeMismatch, w)
    end.

(** [MPI_Send( buf, count, datatype, dest, 0, MPI_COMM_WORLD )]. *)
Definition MPI_Send (dest : Z) (payload : MPI_payload) : M unit :=
  fun w =>
    (Ok tt, {| self := self w; output := output w; inbox := inbox w;
               sent := sent w ++ [(dest, payload)] |}).

(** [supports_mpi()]. *)
Definition supports_mpi : bool := true.

(** [send_mpi_summary( receiving_node_index )]. *)
Definition send_mpi_summary (receiving_node_index : N) : M unit :=
  m <- get_self ;;
  let n_poses_seen := int_of_Size (poses_in_ensemble m) in
  runtime_assert (Size_of_int n_poses_seen =? vsize (values_ m))%N
    MPIAssertionError ;;
  MPI_Send (int_of_Size receiving_node_index) (MPI_INT n_poses_seen) ;;
  if (0 <? n_poses_seen)%Z
  then MPI_Send (int_of_Size receiving_node_index)
         (MPI_DOUBLE (firstn (Z.to_nat n_poses_seen) (values_ m)))
  else ret tt.

(** [recv_mpi_summary()]: the rank of the originating process.  The received
    doubles overwrite the front of the freshly appended storage. *)
Definition recv_mpi_summary : M N :=
  r <- MPI_Recv_int None ;;
  let n_additional_poses := fst r in
  runtime_assert (0 <=? n_additional_poses)%Z MPIAssertionError ;;
  let originating_proc := snd r in
  runtime_assert (0 <=? originating_proc)%Z MPIAssertionError ;;
  if (n_additional_poses =? 0)%Z then ret (Size_of_int originating_proc)
  else
    m <- get_self ;;
    let oldvalues := values_ m in
    modify (set_values_ (resize_by oldvalues (Z.to_nat n_additional_poses))) ;;
    d <- MPI_Recv_double (Z.to_nat n_additional_poses) originating_proc ;;
    modify (set_values_
              (oldvalues ++ fst d ++
               repeat 0%float (Z.to_nat n_additional_poses - length (fst d)))) ;;
    runtime_assert (snd d =? originating_proc)%Z MPIAssertionError ;;
    increment_poses_in_ensemble (Size_of_int n_additional_poses) ;;
    ret (Size_of_int originating_proc).

(** ** Sequences of operations *)

(** The calls a client makes between which the object is observed. *)
Inductive Operation :=
| Op_apply (pose : Pose)
| Op_produce_final_report
| Op_reset
| Op_recv_mpi_summary.

Definition perform (op : Operation) : M unit :=
  match op with
  | Op_apply pose => apply pose
  | Op_produce_final_report => produce_final_report
  | Op_reset => modify reset
  | Op_recv_mpi_summary => recv_mpi_summary ;; ret tt
  end.

(** The world after each operation of [ops] in turn.  A caller that catches
    an exception goes on with the object as the throw left it; after a crash
    there is no later point ([None]). *)
Fixpoint run (ops : list Operation) (w : World) : option World :=
  match ops with
  | [] => Some w
  | op :: rest =>
      match perform op w with
      | (Ok _, w') | (Throw _, w') => run rest w'
      | (Crash _, _) => None
      end
  end.

(** [poses_in_ensemble() == values_.size()], the comparison asserted in
    [finalize_values()] and [send_mpi_summary()]. *)
Definition count_matches (m : CentralTendencyEnsembleMetric) : Prop :=
  poses_in_ensemble m = vsize (values_ m).

(** A freshly started process around an object. *)
Definition world_of (m : CentralTendencyEnsembleMetric) : World :=
  {| self := m; output := []; inbox := []; sent := [] |}.

End Model.

Arguments get_self {Pose}.
Arguments increment_count {Pose}.
Arguments finalize_values {Pose}.
Arguments produce_final_report_string {Pose}.
Arguments produce_final_report_to_tracer {Pose}.
Arguments produce_final_report {Pose}.
Arguments recv_mpi_summary {Pose}.
Arguments destructor {Pose}.

Notation "x <- m ;; k" := (bind m (fun x => k))
  (at level 61, m at next level, right associativity).
Notation "m ;; k" := (bind m (fun _ => k))
  (at level 61, right associativity).

(** ** EnsembleMetric.cc: the names of the output modes *)

(** The enumerators as the integers they stand for (EnsembleMetric.hh:
    [UNKNOWN_MODE = 0], then [TRACER], [TRACER_AND_FILE], [FILE]). *)
Definition Size_of_EnsembleMetricOutputMode (mode : EnsembleMetricOutputMode)
  : N :=
  match mode with
  | UNKNOWN_MODE => 0
  | TRACER => 1
  | TRACER_AND_FILE => 2
  | FILE => 3
  end.

(** [N_OUTPUT_MODES = FILE]. *)
Definition N_OUTPUT_MODES : EnsembleMetricOutputMode := FILE.

(** [static_cast< EnsembleMetricOutputMode >( i )].  An integer that names no
    enumerator is treated by every [switch] as [UNKNOWN_MODE] is (the
    [default] branch). *)
Definition EnsembleMetricOutputMode_of_Size (i : N) : EnsembleMetricOutputMode :=
  match i with
  | 1 => TRACER
  | 2 => TRACER_AND_FILE
  | 3 => FILE
  | _ => UNKNOWN_MODE
  end%N.

(** [output_mode_name_from_enum( mode_enum )]: the [default] branch exits
    with an error. *)
Definition output_mode_name_from_enum (mode_enum : EnsembleMetricOutputMode)
  : Outcome string :=
  match mode_enum with
  | TRACER => Ok "tracer"%string
  | TRACER_AND_FILE => Ok "tracer_and_file"%string
  | FILE => Ok "file"%string
  | UNKNOWN_MODE => Throw InvalidOutputModeError
  end.

(** The loop of [output_mode_enum_from_name()] from index [i] on, [n]
    iterations left. *)
Fixpoint output_mode_search (n : nat) (i : N) (mode_name : string)
  : Outcome EnsembleMetricOutputMode :=
  match n with
  | O => Ok UNKNOWN_MODE
  | S n' =>
      match output_mode_name_from_enum (EnsembleMetricOutputMode_of_Size i) with
      | Ok candidate =>
          if String.eqb mode_name candidate
          then Ok (EnsembleMetricOutputMode_of_Size i)
          else output_mode_search n' (Size.incr i) mode_name
      | Throw e => Throw e
      | Crash c => Crash c
      end
  end.

(** [output_mode_enum_from_name( mode_name )]. *)
Definition output_mode_enum_from_name (mode_name : string)
  : Outcome EnsembleMetricOutputMode :=
  output_mode_search
    (N.to_nat (Size_of_EnsembleMetricOutputMode N_OUTPUT_MODES)) 1 mode_name.

Section Configuration.

Variable Pose : Type.

(** *** Assignments to the remaining members of the base class *)

Definition set_use_additional_output_from_last_mover_ (b : bool)
  (e : EnsembleMetric Pose) : EnsembleMetric Pose := {|
  finalized_ := finalized_ e;
  use_additional_output_from_last_mover_ := b;
  output_mode_ := output_mode_ e;
  output_filename_ := output_filename_ e;
  label_prefix_ := label_prefix_ e;
  label_suffix_ := label_suffix_ e;
  last_mover_ := last_mover_ e;
  ensemble_generating_protocol_ := ensemble_generating_protocol_ e;
  ensemble_generating_protocol_repeats_ := ensemble_generating_protocol_repeats_ e;
  poses_in_ensemble_ := poses_in_ensemble_ e;
  n_threads_ := n_threads_ e
|}.

Definition set_output_mode_ (mode : EnsembleMetricOutputMode)
  (e : EnsembleMetric Pose) : EnsembleMetric Pose := {|
  finalized_ := finalized_ e;
  use_additional_output_from_last_mover_ := use_additional_output_from_last_mover_ e;
  output_mode_ := mode;
  output_filename_ := output_filename_ e;
  label_prefix_ := label_prefix_ e;
  label_suffix_ := label_suffix_ e;
  last_mover_ := last_mover_ e;
  ensemble_generating_protocol_ := ensemble_generating_protocol_ e;
  ensemble_generating_protocol_repeats_ := ensemble_generating_protocol_repeats_ e;
  poses_in_ensemble_ := poses_in_ensemble_ e;
  n_threads_ := n_threads_ e
|}.

Definition set_output_filename_ (s : string)
  (e : EnsembleMetric Pose) : EnsembleMetric Pose := {|
  finalized_ := finalized_ e;
  use_additional_output_from_last_mover_ := use_additional_output_from_last_mover_ e;
  output_mode_ := output_mode_ e;
  output_filename_ := s;
  label_prefix_ := label_prefix_ e;
  label_suffix_ := label_suffix_ e;
  last_mover_ := last_mover_ e;
  ensemble_generating_protocol_ := ensemble_generating_protocol_ e;
  ensemble_generating_protocol_repeats_ := ensemble_generating_protocol_repeats_ e;
  poses_in_ensemble_ := poses_in_ensemble_ e;
  n_threads_ := n_threads_ e
|}.

Definition set_label_prefix_ (s : string)
  (e : EnsembleMetric Pose) : EnsembleMetric Pose := {|
  finalized_ := finalized_ e;
  use_additional_output_from_last_mover_ := use_additional_output_from_last_mover_ e;
  output_mode_ := output_mode_ e;
  output_filename_ := output_filename_ e;
  label_prefix_ := s;
  label_suffix_ := label_suffix_ e;
  last_mover_ := last_mover_ e;
  ensemble_generating_protocol_ := ensemble_generating_protocol_ e;
  ensemble_generating_protocol_repeats_ := ensemble_generating_protocol_repeats_ e;
  poses_in_ensemble_ := poses_in_ensemble_ e;
  n_threads_ := n_threads_ e
|}.

Definition set_label_suffix_ (s : string)
  (e : EnsembleMetric Pose) : EnsembleMetric Pose := {|
  finalized_ := finalized_ e;
  use_additional_output_from_last_mover_ := use_additional_output_from_last_mover_ e;
  output_mode_ := output_mode_ e;
  output_filename_ := output_filename_ e;
  label_prefix_ := label_prefix_ e;
  label_suffix_ := s;
  last_mover_ := last_mover_ e;
  ensemble_generating_protocol_ := ensemble_generating_protocol_ e;
  ensemble_generating_protocol_repeats_ := ensemble_generating_protocol_repeats_ e;
  poses_in_ensemble_ := poses_in_ensemble_ e;
  n_threads_ := n_threads_ e
|}.

Definition set_last_mover_ (mover : option (Mover Pose))
  (e : EnsembleMetric Pose) : EnsembleMetric Pose := {|
  finalized_ := finalized_ e;
  use_additional_output_from_last_mover_ := use_additional_output_from_last_mover_ e;
  output_mode_ := output_mode_ e;
  output_filename_ := output_filename_ e;
  label_prefix_ := label_prefix_ e;
  label_suffix_ := label_suffix_ e;
  last_mover_ := mover;
  ensemble_generating_protocol_ := ensemble_generating_protocol_ e;
  ensemble_generating_protocol_repeats_ := ensemble_generating_protocol_repeats_ e;
  poses_in_ensemble_ := poses_in_ensemble_ e;
  n_threads_ := n_threads_ e
|}.

Definition set_ensemble_generating_protocol_ (protocol : option (Mover Pose))
  (e : EnsembleMetric Pose) : EnsembleMetric Pose := {|
  finalized_ := finalized_ e;
  use_additional_output_from_last_mover_ := use_additional_output_from_last_mover_ e;
  output_mode_ := output_mode_ e;
  output_filename_ := output_filename_ e;
  label_prefix_ := label_prefix_ e;
  label_suffix_ := label_suffix_ e;
  last_mover_ := last_mover_ e;
  ensemble_generating_protocol_ := protocol;
  ensemble_generating_protocol_repeats_ := ensemble_generating_protocol_repeats_ e;
  poses_in_ensemble_ := poses_in_ensemble_ e;
  n_threads_ := n_threads_ e
|}.

Definition set_ensemble_generating_protocol_repeats_ (n : N)
  (e : EnsembleMetric Pose) : EnsembleMetric Pose := {|
  finalized_ := finalized_ e;
  use_additional_output_from_last_mover_ := use_additional_output_from_last_mover_ e;
  output_mode_ := output_mode_ e;
  output_filename_ := output_filename_ e;
  label_prefix_ := label_prefix_ e;
  label_suffix_ := label_suffix_ e;
  last_mover_ := last_mover_ e;
  ensemble_generating_protocol_ := ensemble_generating_protocol_ e;
  ensemble_generating_protocol_repeats_ := n;
  poses_in_ensemble_ := poses_in_ensemble_ e;
  n_threads_ := n_threads_ e
|}.

Definition set_n_threads_ (n : N)
  (e : EnsembleMetric Pose) : EnsembleMetric Pose := {|
  finalized_ := finalized_ e;
  use_additional_output_from_last_mover_ := use_additional_output_from_last_mover_ e;
  output_mode_ := output_mode_ e;
  output_filename_ := output_filename_ e;
  label_prefix_ := label_prefix_ e;
  label_suffix_ := label_suffix_ e;
  last_mover_ := last_mover_ e;
  ensemble_generating_protocol_ := ensemble_generating_protocol_ e;
  ensemble_generating_protocol_repeats_ := ensemble_generating_protocol_repeats_ e;
  poses_in_ensemble_ := poses_in_ensemble_ e;
  n_threads_ := n
|}.

(** A result computed without the object, handed to a member function. *)
Definition lift {A} (r : Outcome A) : M Pose A := fun w => (r, w).

(** ** EnsembleMetric.cc: the public setters *)

(** [set_label_prefix( setting )]. *)
Definition set_label_prefix (setting : string) : M Pose unit :=
  modify (set_base (set_label_prefix_ setting)).

(** [set_label_suffix( setting )]. *)
Definition set_label_suffix (setting : string) : M Pose unit :=
  modify (set_base (set_label_suffix_ setting)).

(** [set_ensemble_generating_protocol( protocol_in )]. *)
Definition set_ensemble_generating_protocol (protocol_in : option (Mover Pose))
  : M Pose unit :=
  modify (set_base (set_ensemble_generating_protocol_ protocol_in)).

(** [set_ensemble_generating_protocol_repeats( setting )]. *)
Definition set_ensemble_generating_protocol_repeats (setting : N)
  : M Pose unit :=
  runtime_assert (0 <? setting)%N ZeroRepeatsError ;;
  modify (set_base (set_ensemble_generating_protocol_repeats_ setting)).

(** [set_output_mode( setting )] on an enumerator. *)
Definition set_output_mode_enum (setting : EnsembleMetricOutputMode)
  : M Pose unit :=
  runtime_assert
    ((Size_of_EnsembleMetricOutputMode UNKNOWN_MODE
      <? Size_of_EnsembleMetricOutputMode setting)%N
     && (Size_of_EnsembleMetricOutputMode setting
         <=? Size_of_EnsembleMetricOutputMode N_OUTPUT_MODES)%N)
    InvalidOutputModeError ;;
  modify (set_base (set_output_mode_ setting)).

(** [set_output_mode( mode_string )]. *)
Definition set_output_mode (mode_string : string) : M Pose unit :=
  mode_enum <- lift (output_mode_enum_from_name mode_string) ;;
  runtime_assert
    (negb (Size_of_EnsembleMetricOutputMode mode_enum
           =? Size_of_EnsembleMetricOutputMode UNKNOWN_MODE)%N)
    InvalidOutputModeError ;;
  set_output_mode_enum mode_enum.

(** [set_output_filename( setting )]. *)
Definition set_output_filename (setting : string) : M Pose unit :=
  modify (set_base (set_output_filename_ setting)).

(** [set_previous_mover( mover_in )]. *)
Definition set_previous_mover (mover_in : option (Mover Pose)) : M Pose unit :=
  modify (set_base (set_last_mover_ mover_in)).

(** [set_use_additional_output_from_last_mover( setting )]. *)
Definition set_use_additional_output_from_last_mover (setting : bool)
  : M Pose unit :=
  modify (set_base (set_use_additional_output_from_last_mover_ setting)).

(** [set_n_threads( setting )] in the single-threaded build: the member is
    assigned, then checked. *)
Definition set_n_threads (setting : N) : M Pose unit :=
  modify (set_base (set_n_threads_ setting)) ;;
  m <- get_self ;;
  runtime_assert (n_threads_ (base m) <? 2)%N TooManyThreadsError.

(** ** EnsembleMetric.cc: the public getters *)

(** [reports_at_end()]. *)
Definition reports_at_end (m : CentralTendencyEnsembleMetric Pose) : bool :=
  match ensemble_generating_protocol_ (base m) with
  | None => negb (use_additional_output_from_last_mover_ (base m))
  | Some _ => false
  end.

(** ** CentralTendencyEnsembleMetric.cc: the typed getters *)

(** [mean()], [median()], [mode()], [stddev()], [stderror()], [min()],
    [max()] and [range()] each assert [finalized()] and return their data
    member. *)
Definition mean : M Pose float :=
  m <- get_self ;; runtime_assert (finalized m) NotFinalizedError ;; ret (mean_ m).

Definition median : M Pose float :=
  m <- get_self ;; runtime_assert (finalized m) NotFinalizedError ;; ret (median_ m).

Definition mode : M Pose float :=
  m <- get_self ;; runtime_assert (finalized m) NotFinalizedError ;; ret (mode_ m).

Definition stddev : M Pose float :=
  m <- get_self ;; runtime_assert (finalized m) NotFinalizedError ;; ret (stddev_ m).

Definition stderror : M Pose float :=
  m <- get_self ;; runtime_assert (finalized m) NotFinalizedError ;; ret (stderr_ m).

Definition min : M Pose float :=
  m <- get_self ;; runtime_assert (finalized m) NotFinalizedError ;; ret (min_ m).

Definition max : M Pose float :=
  m <- get_self ;; runtime_assert (finalized m) NotFinalizedError ;; ret (max_ m).

Definition range : M Pose float :=
  m <- get_self ;; runtime_assert (finalized m) NotFinalizedError ;; ret (range_ m).

(** The typed getter that reads the statistic [metric_name] names. *)
Definition getter_of_name (metric_name : string) : option (M Pose float) :=
  if String.eqb metric_name "mean" then Some mean
  else if String.eqb metric_name "median" then Some median
  else if String.eqb metric_name "mode" then Some mode
  else if String.eqb metric_name "stddev" then Some stddev
  else if String.eqb metric_name "stderr" then Some stderror
  else if String.eqb metric_name "min" then Some min
  else if String.eqb metric_name "max" then Some max
  else if String.eqb metric_name "range" then Some range
  else None.

(** ** The scripting layer: errors of the parsers, the filter and the factory *)

(** What the code outside the metric's own member functions throws, by the
    place that throws. *)
Inductive ScriptError :=
| MetricError (e : Error)        (* thrown by a member function of the metric *)
| OutputFilenameNeedsFileModeError
                                 (* parse_common_ensemble_metric_options():
                                    output_mode_ != TRACER *)
| CollaboratorError              (* thrown by parse_mover() or by
                                    core::simple_metrics::get_metric_from_datamap_and_subtags() *)
| SimpleMetricNotDefinedError    (* parse_my_tag(): metric != nullptr *)
| NotRealValuedError             (* parse_my_tag(): realmetric != nullptr *)
| NoEnsembleMetricError          (* validate_my_configuration(): ensemble_metric_ != nullptr *)
| NoNamedValueError              (* validate_my_configuration(): !named_value_.empty() *)
| NoSuchNamedValueError          (* validate_my_configuration(): has_value( named_value_ ) *)
| AcceptanceModeError            (* acceptance_mode_enum_from_string() *)
| FactoryNameConflictError       (* factory_register() *)
| NoCreatorError.                (* new_ensemble_metric(): iter != creator_map_.end() *)

Inductive Result (A : Type) :=
| Returns (a : A)
| Raises (e : ScriptError)
| Aborts (c : Crash_reason).

Arguments Returns {A} a.
Arguments Raises {A} e.
Arguments Aborts {A} c.

(** Code that works on the metric from outside. *)
Definition Script (A : Type) : Type := World Pose -> Result A * World Pose.

Definition script_ret {A} (a : A) : Script A := fun w => (Returns a, w).

Definition script_bind {A B} (m : Script A) (k : A -> Script B) : Script B :=
  fun w =>
    match m w with
    | (Returns a, w') => k a w'
    | (Raises e, w') => (Raises e, w')
    | (Aborts c, w') => (Aborts c, w')
    end.

Definition raise {A} (e : ScriptError) : Script A := fun w => (Raises e, w).

(** A call of a member function of the metric. *)
Definition call {A} (m : M Pose A) : Script A :=
  fun w =>
    match m w with
    | (Ok a, w') => (Returns a, w')
    | (Throw e, w') => (Raises (MetricError e), w')
    | (Crash c, w') => (Aborts c, w')
    end.

Notation "x <~ m ;;; k" := (script_bind m (fun x => k))
  (at level 61, m at next level, right associativity).
Notation "m ;;; k" := (script_bind m (fun _ => k))
  (at level 61, right associativity).

(** ** RosettaScripts: parsing a tag *)

(** The attributes of an ensemble metric's tag that the parsers read, as they
    are after validation against the schema of
    [complex_type_generator_for_ensemble_metric()]: [None] where
    [tag->hasOption( ... )] is false, else the value [tag->getOption< T >]
    returns. *)
Record Tag := {
  opt_label_prefix : option string;
  opt_label_suffix : option string;
  opt_ensemble_generating_protocol : option string;
  opt_ensemble_generating_protocol_repeats : option N;
  opt_n_threads : option N;
  opt_use_additional_output_from_last_mover : option bool;
  opt_output_mode : option string;
  opt_output_filename : option string;
  opt_real_valued_metric : option string
}.

(** [core::simple_metrics::SimpleMetric]: real-valued or not. *)
Inductive SimpleMetric :=
| Real_valued (metric : RealMetric Pose)
| Other_valued (metric_name : string).

(** An optional attribute's setter. *)
Definition when_given {A} (o : option A) (setter : A -> Script unit)
  : Script unit :=
  match o with
  | Some a => setter a
  | None => script_ret tt
  end.

Section Parsing.

(** [basic::datacache::DataMap] and the two functions that read it. *)
Variable DataMap : Type.

(** [protocols::rosetta_scripts::parse_mover( name, data )]; [None] when it
    throws. *)
Variable parse_mover : string -> DataMap -> option (Mover Pose).

(** [core::simple_metrics::get_metric_from_datamap_and_subtags( tag, data,
    "real_valued_metric" )]: [None] when it throws, [Some None] for a null
    pointer. *)
Variable get_metric_from_datamap_and_subtags :
  Tag -> DataMap -> option (option SimpleMetric).

(** [parse_common_ensemble_metric_options( tag, data )].  The [USEMPI] check
    at its end passes: [supports_mpi()] is [true]. *)
Definition parse_common_ensemble_metric_options (tag : Tag) (data : DataMap)
  : Script unit :=
  when_given (opt_label_prefix tag) (fun s => call (set_label_prefix s)) ;;;
  when_given (opt_label_suffix tag) (fun s => call (set_label_suffix s)) ;;;
  match opt_ensemble_generating_protocol tag with
  | Some protocol_name =>
      match parse_mover protocol_name data with
      | None => raise CollaboratorError
      | Some protocol =>
          call (set_ensemble_generating_protocol (Some protocol)) ;;;
          when_given (opt_ensemble_generating_protocol_repeats tag)
            (fun n => call (set_ensemble_generating_protocol_repeats n))
      end
  | None => script_ret tt          (* a warning, if repeats were given *)
  end ;;;
  when_given (opt_n_threads tag) (fun n => call (set_n_threads n)) ;;;
  when_given (opt_use_additional_output_from_last_mover tag)
    (fun b => call (set_use_additional_output_from_last_mover b)) ;;;
  when_given (opt_output_mode tag) (fun s => call (set_output_mode s)) ;;;
  when_given (opt_output_filename tag)
    (fun s =>
       m <~ call get_self ;;;
       match output_mode_ (base m) with
       | TRACER => raise OutputFilenameNeedsFileModeError
       | _ => call (set_output_filename s)
       end).

(** [CentralTendencyEnsembleMetric::parse_my_tag( tag, data )]. *)
Definition parse_my_tag (tag : Tag) (data : DataMap) : Script unit :=
  parse_common_ensemble_metric_options tag data ;;;
  match opt_real_valued_metric tag with
  | Some _ =>
      match get_metric_from_datamap_and_subtags tag data with
      | None => raise CollaboratorError
      | Some None => raise SimpleMetricNotDefinedError
      | Some (Some (Other_valued _)) => raise NotRealValuedError
      | Some (Some (Real_valued realmetric)) =>
          call (modify (set_real_metric (Some realmetric)))
      end
  | None => script_ret tt
  end.

(** ** EnsembleMetricFactory.cc *)

(** [EnsembleMetricCreator]: a key and the object it creates. *)
Record EnsembleMetricCreator := {
  keyname : string;
  create_ensemble_metric : CentralTendencyEnsembleMetric Pose
}.

(** [CentralTendencyEnsembleMetricCreator]. *)
Definition CentralTendencyEnsembleMetricCreator : EnsembleMetricCreator := {|
  keyname := name;
  create_ensemble_metric := CentralTendencyEnsembleMetric_default Pose
|}.

(** [std::map< std::string, EnsembleMetricCreatorOP >]: the entries in
    ascending order of their keys. *)
Definition EnsembleMetricCreatorMap := list (string * EnsembleMetricCreator).

(** [creator_map_.find( key )]; [None] for [end()]. *)
Fixpoint creator_map_find (key : string) (creator_map_ : EnsembleMetricCreatorMap)
  : option EnsembleMetricCreator :=
  match creator_map_ with
  | [] => None
  | (k, c) :: rest =>
      if String.eqb key k then Some c else creator_map_find key rest
  end.

(** [creator_map_[ key ] = creator]. *)
Fixpoint creator_map_assign (key : string) (creator : EnsembleMetricCreator)
  (creator_map_ : EnsembleMetricCreatorMap) : EnsembleMetricCreatorMap :=
  match creator_map_ with
  | [] => [(key, creator)]
  | (k, c) :: rest =>
      if String.ltb key k then (key, creator) :: creator_map_
      else if String.ltb k key
           then (k, c) :: creator_map_assign key creator rest
           else (k, creator) :: rest
  end.

(** [factory_register( creator )]: the map afterwards. *)
Definition factory_register (creator : EnsembleMetricCreator)
  (creator_map_ : EnsembleMetricCreatorMap) : Result EnsembleMetricCreatorMap :=
  match creator_map_find (keyname creator) creator_map_ with
  | Some _ => Raises FactoryNameConflictError
  | None => Returns (creator_map_assign (keyname creator) creator creator_map_)
  end.

(** [has_type( selector_type )]. *)
Definition has_type (selector_type : string)
  (creator_map_ : EnsembleMetricCreatorMap) : bool :=
  match creator_map_find selector_type creator_map_ with
  | Some _ => true
  | None => false
  end.

(** [new_ensemble_metric( ensemble_metric_name, tag, datamap )]: the new
    object, parsed twice over (the common options once directly and once more
    inside [parse_my_tag]). *)
Definition new_ensemble_metric (ensemble_metric_name : string) (tag : Tag)
  (datamap : DataMap) (creator_map_ : EnsembleMetricCreatorMap)
  : Result (CentralTendencyEnsembleMetric Pose) :=
  match creator_map_find ensemble_metric_name creator_map_ with
  | None => Raises NoCreatorError
  | Some creator =>
      match (parse_common_ensemble_metric_options tag datamap ;;;
             parse_my_tag tag datamap)
              (world_of (create_ensemble_metric creator)) with
      | (Returns _, w) => Returns (self w)
      | (Raises e, _) => Raises e
      | (Aborts c, _) => Aborts c
      end
  end.

End Parsing.

End Configuration.

Arguments Returns {A} a.
Arguments Raises {A} e.
Arguments Aborts {A} c.
Arguments mean {Pose}.
Arguments median {Pose}.
Arguments mode {Pose}.
Arguments stddev {Pose}.
Arguments stderror {Pose}.
Arguments min {Pose}.
Arguments max {Pose}.
Arguments range {Pose}.

Notation "x <~ m ;;; k" := (script_bind m (fun x => k))
  (at level 61, m at next level, right associativity).
Notation "m ;;; k" := (script_bind m (fun _ => k))
  (at level 61, right associativity).

(** ** filters/EnsembleFilter.cc *)

Module filters.

(** [EnsembleFilterAcceptanceMode] (EnsembleFilter.hh). *)
Inductive EnsembleFilterAcceptanceMode :=
| GREATER_THAN
| LESS_THAN
| GREATER_THAN_EQ
| LESS_THAN_EQ
| EQ
| NOT_EQ.

(** [N_MODES = NOT_EQ], as the integer. *)
Definition N_MODES : N := 6.

(** [static_cast< EnsembleFilterAcceptanceMode >( i )]; [None] for an integer
    that names no enumerator. *)
Definition EnsembleFilterAcceptanceMode_of_Size (i : N)
  : option EnsembleFilterAcceptanceMode :=
  match i with
  | 1 => Some GREATER_THAN
  | 2 => Some LESS_THAN
  | 3 => Some GREATER_THAN_EQ
  | 4 => Some LESS_THAN_EQ
  | 5 => Some EQ
  | 6 => Some NOT_EQ
  | _ => None
  end%N.

(** [acceptance_mode_string_from_enum( mode )] on an enumerator (the
    [default] branch is for integers that name none). *)
Definition acceptance_mode_string_from_enum
  (mode : EnsembleFilterAcceptanceMode) : string :=
  match mode with
  | GREATER_THAN => "greater_than"
  | LESS_THAN => "less_than"
  | GREATER_THAN_EQ => "greater_than_or_equal"
  | LESS_THAN_EQ => "less_than_or_equal"
  | EQ => "equal"
  | NOT_EQ => "not_equal"
  end%string.

(** The loop of [acceptance_mode_enum_from_string()] from index [i] on, [n]
    iterations left; after the loop the function exits with an error. *)
Fixpoint acceptance_mode_search (n : nat) (i : N) (mode_name : string)
  : Result EnsembleFilterAcceptanceMode :=
  match n with
  | O => Raises AcceptanceModeError
  | S n' =>
      match EnsembleFilterAcceptanceMode_of_Size i with
      | None => Raises AcceptanceModeError
      | Some mode =>
          if String.eqb mode_name (acceptance_mode_string_from_enum mode)
          then Returns mode
          else acceptance_mode_search n' (Size.incr i) mode_name
      end
  end.

(** [acceptance_mode_enum_from_string( mode_name )]. *)
Definition acceptance_mode_enum_from_string (mode_name : string)
  : Result EnsembleFilterAcceptanceMode :=
  acceptance_mode_search (N.to_nat N_MODES) 1 mode_name.

(** An [EnsembleMetricOP]: null, or the metric object of the world (the one
    ensemble metric the model holds; the pointer shares it, it is not a
    copy). *)
Inductive EnsembleMetricOP :=
| nullptr
| the_metric.

(** The data members of [EnsembleFilter], with their in-class
    initialisers as [EnsembleFilter_default]. *)
Record EnsembleFilter := {
  ensemble_metric_ : EnsembleMetricOP;
  named_value_ : string;
  threshold_ : float;
  acceptance_mode_ : EnsembleFilterAcceptanceMode
}.

Definition EnsembleFilter_default : EnsembleFilter := {|
  ensemble_metric_ := nullptr;
  named_value_ := EmptyString;
  threshold_ := 0;
  acceptance_mode_ := LESS_THAN_EQ
|}.

(** The setters. *)
Definition set_ensemble_metric (metric_in : EnsembleMetricOP)
  (f : EnsembleFilter) : EnsembleFilter := {|
  ensemble_metric_ := metric_in;
  named_value_ := named_value_ f;
  threshold_ := threshold_ f;
  acceptance_mode_ := acceptance_mode_ f
|}.

Definition set_named_value (setting : string)
  (f : EnsembleFilter) : EnsembleFilter := {|
  ensemble_metric_ := ensemble_metric_ f;
  named_value_ := setting;
  threshold_ := threshold_ f;
  acceptance_mode_ := acceptance_mode_ f
|}.

Definition set_threshold (setting : float)
  (f : EnsembleFilter) : EnsembleFilter := {|
  ensemble_metric_ := ensemble_metric_ f;
  named_value_ := named_value_ f;
  threshold_ := setting;
  acceptance_mode_ := acceptance_mode_ f
|}.

Definition set_acceptance_mode_enum (setting : EnsembleFilterAcceptanceMode)
  (f : EnsembleFilter) : EnsembleFilter := {|
  ensemble_metric_ := ensemble_metric_ f;
  named_value_ := named_value_ f;
  threshold_ := threshold_ f;
  acceptance_mode_ := setting
|}.

(** [set_acceptance_mode( setting )] by string. *)
Definition set_acceptance_mode (setting : string) (f : EnsembleFilter)
  : Result EnsembleFilter :=
  match acceptance_mode_enum_from_string setting with
  | Returns mode => Returns (set_acceptance_mode_enum mode f)
  | Raises e => Raises e
  | Aborts c => Aborts c
  end.

(** [value_passes( value )]. *)
Definition value_passes (f : EnsembleFilter) (value : float) : bool :=
  match acceptance_mode_ f with
  | GREATER_THAN => (threshold_ f <? value)%float
  | LESS_THAN => (value <? threshold_ f)%float
  | GREATER_THAN_EQ => (threshold_ f <=? value)%float
  | LESS_THAN_EQ => (value <=? threshold_ f)%float
  | EQ => (value =? threshold_ f)%float
  | NOT_EQ => negb (value =? threshold_ f)%float
  end.

Section Filter.

Variable Pose : Type.

(** [validate_my_configuration()]. *)
Definition validate_my_configuration (f : EnsembleFilter) : Script Pose unit :=
  match ensemble_metric_ f with
  | nullptr => raise NoEnsembleMetricError
  | the_metric =>
      if String.eqb (named_value_ f) EmptyString then raise NoNamedValueError
      else if negb (existsb (String.eqb (named_value_ f)) real_valued_metric_names)
      then raise NoSuchNamedValueError
      else
        m <~ call get_self ;;;
        if finalized m then script_ret tt else call produce_final_report
  end.

(** [apply( pose )]: the pose is not looked at. *)
Definition apply (f : EnsembleFilter) (pose : Pose) : Script Pose bool :=
  validate_my_configuration f ;;;
  val <~ call (get_real_metric_value_by_name (named_value_ f)) ;;;
  script_ret (value_passes f val).

(** [report_sm( pose )]. *)
Definition report_sm (f : EnsembleFilter) (pose : Pose) : Script Pose float :=
  validate_my_configuration f ;;;
  call (get_real_metric_value_by_name (named_value_ f)).

End Filter.

End filters.

(** ** The statistics in the specification's words *)

Module Spec.

(** The number of elements of [V] equal to [x] under floating-point [==]. *)
Definition group_size (V : list float) (x : float) : nat :=
  length (filter (fun y => (x =? y)%float) V).

(** The largest group. *)
Definition max_group_size (V : list float) : nat :=
  list_max (map (group_size V) V).

(** The sum of a non-empty list from its first element on, left to right. *)
Definition sum (l : list float) : float :=
  match l with
  | [] => 0%float
  | x :: rest => Real.accumulate rest x
  end.

(** The arithmetic mean of a list. *)
Definition arithmetic_mean (l : list float) : float :=
  (sum l / Real.of_Size (N.of_nat (length l)))%float.

(** Sum of squared deviations from [mean]. *)
Definition sum_sq_dev (V : list float) (mean : float) : float :=
  Real.accumulate (map (fun x => Real.pow2 (x - mean)) V) 0.

(** The median of an ascending list, indexed from 0: the mean of the two
    middle elements for an even length, the middle element for an odd one. *)
Definition median (sorted : list float) : float :=
  let n := length sorted in
  if Nat.even n
  then ((nth (n / 2 - 1) sorted 0 + nth (n / 2) sorted 0) / 2)%float
  else nth ((n - 1) / 2) sorted 0%float.

(** [x] is a number (not a NaN): the values [operator<] orders. *)
Definition number (x : float) : Prop := is_nan x = false.

(** [x <= y] on doubles. *)
Definition le (x y : float) : Prop := (x <=? y)%float = true.

(** [x < y] on doubles. *)
Definition lt (x y : float) : Prop := (x <? y)%float = true.

(** [x == y] on doubles. *)
Definition eq (x y : float) : Prop := (x =? y)%float = true.

(** The distinct values of [V] whose group is largest: [tied] lists each of
    them once, in ascending order. *)
Definition modal_values (V tied : list float) : Prop :=
  StronglySorted lt tied
  /\ (forall t, In t tied -> In t V)
  /\ (forall x, In x V ->
        (group_size V x = max_group_size V
         <-> exists t, In t tied /\ eq t x)).

End Spec.

(* ================================================================== *)
(** * Part II: the vocabulary of the statements *)
(* ================================================================== *)

Set Warnings "-inexact-float".

(** ** The order of doubles, read off the encoding

    [operator<] on numbers is the lexicographic order of a rank read off the
    IEEE encoding. *)

Module RealOrder.

(** Sign class, then exponent, then mantissa, mirrored for negative values;
    both zeros share one rank. *)
Definition rank (f : spec_float) : Z * Z * Z :=
  match f with
  | S754_zero _ => (0, 0, 0)%Z
  | S754_infinity false => (2, 0, 0)%Z
  | S754_infinity true => (-2, 0, 0)%Z
  | S754_nan => (0, 0, 0)%Z
  | S754_finite false m e => (1, e, Zpos m)%Z
  | S754_finite true m e => (-1, - e, Zneg m)%Z
  end.

(** Lexicographic comparison of ranks. *)
Definition lex (a b : Z * Z * Z) : comparison :=
  let '(a1, a2, a3) := a in
  let '(b1, b2, b3) := b in
  match (a1 ?= b1)%Z with
  | Eq => match (a2 ?= b2)%Z with
          | Eq => (a3 ?= b3)%Z
          | c => c
          end
  | c => c
  end.

(** The rank of a double. *)
Definition key (x : float) : Z * Z * Z := rank (Prim2SF x).

Definition key_lt (a b : Z * Z * Z) : Prop := lex a b = Lt.

End RealOrder.

Import RealOrder.

(** ** The table of counts and the statistics in closed form *)

(** Entries in the order of their keys. *)
Definition entry_lt (e1 e2 : float * N) : Prop :=
  key_lt (key (fst e1)) (key (fst e2)).

(** No key is a NaN. *)
Definition number_keys (m : std_map) : Prop :=
  Forall (fun e => Spec.number (fst e)) m.

(** What the table holds after the values [V] have been counted. *)
Record counts_inv (V : list float) (m : std_map) : Prop := {
  ci_sorted : StronglySorted entry_lt m;
  ci_number : number_keys m;
  ci_sound : forall k c, In (k, c) m ->
             In k V /\ c = N.of_nat (Spec.group_size V k);
  ci_complete : forall y, In y V -> exists e, In e m /\ key (fst e) = key y
}.

(** The table after the loop of lines 330-338. *)
Definition counts_of (V : list float) : std_map :=
  fold_left (fun m x => count_occurrence x m) V [].

(** The largest count in the table. *)
Definition max_count (m : std_map) : N := fold_right N.max 0%N (map snd m).

(** The keys whose count is the largest, in the table's order. *)
Definition modal_keys (m : std_map) : list float :=
  map fst (filter (fun e => (snd e =? max_count m)%N) m).

(** The statistics of a non-empty vector, with every index resolved. *)
Definition statistics_of_values (poses : N) (V : list float) : Statistics :=
  let n := Real.of_Size (N.of_nat (length V)) in
  let sorted := std_sort V in
  let mean := (Real.accumulate V 0 / Real.of_Size poses)%float in
  let stddev := PrimFloat.sqrt (Spec.sum_sq_dev V mean / n) in
  {| s_mean := mean;
     s_median := Spec.median sorted;
     s_mode :=
       (let '(accumulator2, _, maxsize_counter) :=
          fold_left mode_step (counts_of V) (0%float, 0%N, 0%N) in
        accumulator2 / Real.of_Size maxsize_counter)%float;
     s_stddev := stddev;
     s_stderr := (stddev / PrimFloat.sqrt n)%float;
     s_min := nth 0 sorted 0%float;
     s_max := nth (length V - 1) sorted 0%float;
     s_range := (nth (length V - 1) sorted 0 - nth 0 sorted 0)%float |}.

(** ** All the orders in which given values can arrive *)

(** [x] put at each position of [l]. *)
Fixpoint insert_everywhere A (x : A) (l : list A) : list (list A) :=
  match l with
  | [] => [[x]]
  | y :: l' => (x :: l) :: map (cons y) (insert_everywhere x l')
  end.

(** Every rearrangement of [l]. *)
Fixpoint permutations A (l : list A) : list (list A) :=
  match l with
  | [] => [[]]
  | x :: l' => flat_map (insert_everywhere x) (permutations l')
  end.

(** ** The ensembles of the unit test and of the specification *)

(** The measured values of the first ensemble of the unit test. *)
Definition ensemble1 : list float := [1; 1; 2; 1; 0]%float.

(** [|x - y| < tol]. *)
Definition close_to (x y tol : float) : bool := (abs (x - y) <? tol)%float.

(** The statistics expected of [ensemble1]. *)
Definition ensemble1_expected (st : Statistics) : bool :=
  Leibniz.eqb (s_mean st) 1
  && Leibniz.eqb (s_stddev st) (PrimFloat.sqrt 0.4)
  && close_to (s_stddev st) 0.6325 0.0001
  && close_to (s_stderr st) 0.2828 0.0001
  && Leibniz.eqb (s_min st) 0
  && Leibniz.eqb (s_max st) 2
  && Leibniz.eqb (s_range st) 2.

(** The sequences of the specification: odd length, even length, and two
    values tied for the largest group. *)
Definition ensemble_odd : list float := [1; 1; 1; 1; 0]%float.

Definition ensemble_even : list float := [0; 1; 1; 2; 1; 1; 3; 0]%float.

Definition ensemble_tied : list float := [1; 1; 2; 2; 3]%float.

(** ** Reports and consistency *)

(** What [produce_final_report()] writes for an output mode. *)
Definition sink_events (mode : EnsembleMetricOutputMode) (file : string)
  (poses : N) (r : Report) : list Event :=
  match mode with
  | TRACER => [TracerHeader name poses; TracerReport r]
  | TRACER_AND_FILE =>
      [TracerHeader name poses; TracerReport r; FileReport file poses r]
  | FILE => [FileReport file poses r]
  | UNKNOWN_MODE => []
  end.

(** The output mode names its sinks, and a file sink has a file name. *)
Definition sinks_configured (mode : EnsembleMetricOutputMode) (file : string)
  : Prop :=
  match mode with
  | TRACER => True
  | TRACER_AND_FILE | FILE => file <> EmptyString
  | UNKNOWN_MODE => False
  end.

Section Vocabulary.

Variable Pose : Type.

(** The object after [++poses_in_ensemble_; add_pose_to_ensemble( pose )]. *)
Definition added (metric : RealMetric Pose) (pose : Pose)
  (m : CentralTendencyEnsembleMetric Pose) : CentralTendencyEnsembleMetric Pose :=
  set_values_ (values_ m ++ [calculate metric pose])
    (set_base
       (fun e => set_poses_in_ensemble_ (Size.incr (poses_in_ensemble_ e)) e) m).

(** The world with the object replaced. *)
Definition with_self (m : CentralTendencyEnsembleMetric Pose) (w : World Pose)
  : World Pose :=
  {| self := m; output := output w; inbox := inbox w; sent := sent w |}.

(** The count matches the Value Set and a simple metric is configured. *)
Definition consistent (w : World Pose) : Prop :=
  count_matches (self w) /\ simple_metric_ (self w) <> None.

(** A member function that leaves a consistent object consistent whenever it
    returns or throws. *)
Definition keeps_consistent A (c : M Pose A) : Prop :=
  forall w, consistent w ->
    match c w with
    | (Crash _, _) => True
    | (_, w') => consistent w'
    end.

End Vocabulary.

(** ** A concrete metric: a pose is its own measurement *)

Definition value_metric : RealMetric float :=
  {| metric_name := "value"; calculate := fun pose => pose |}.

(** A default-constructed metric after [set_real_metric]. *)
Definition fresh_metric : CentralTendencyEnsembleMetric float :=
  set_real_metric (Some value_metric) (CentralTendencyEnsembleMetric_default float).

(** The world after the calls [ops] on [fresh_metric]. *)
Definition world_after (ops : list (Operation float)) : World float :=
  match run ops (world_of fresh_metric) with
  | Some w => w
  | None => world_of fresh_metric
  end.

(** A coordinator holding one value, with the count of peer 2 first in its
    inbox and a complete message pair of peer 3 ahead of peer 2's values. *)
Definition coordinator : World float :=
  {| self := self (world_after [Op_apply 1%float]);
     output := [];
     inbox := [(2, MPI_INT 2); (3, MPI_INT 1); (3, MPI_DOUBLE [9%float]);
               (2, MPI_DOUBLE [5; 6]%float)]%Z;
     sent := [] |}.

(** ** Vocabulary of the further properties *)

Section Vocabulary_further.

Variable Pose : Type.

(** The object once [finalize_values()] has returned: the statistics are
    computed on the first call and kept afterwards. *)
Definition finalized_values (m : CentralTendencyEnsembleMetric Pose)
  : CentralTendencyEnsembleMetric Pose :=
  if derived_finalized_ m then m
  else match compute_statistics (poses_in_ensemble m) (values_ m) with
       | Some st => set_statistics st (set_derived_finalized_ true m)
       | None => set_derived_finalized_ true m
       end.

(** What configures the metric: every data member but the count, the
    values, the statistics and the two flags. *)
Definition configuration (m : CentralTendencyEnsembleMetric Pose) :=
  (ensemble_generating_protocol_ (base m),
   ensemble_generating_protocol_repeats_ (base m),
   n_threads_ (base m),
   use_additional_output_from_last_mover_ (base m),
   last_mover_ (base m),
   (output_mode_ (base m), output_filename_ (base m),
    label_prefix_ (base m), label_suffix_ (base m)),
   simple_metric_ m).

(** A member function that leaves the configuration as it was, whether it
    returns, throws or crashes. *)
Definition keeps_configuration A (c : M Pose A) : Prop :=
  forall w, configuration (self (snd (c w))) = configuration (self w).

(** The configuration in which [apply()] measures the pose it is given and
    nothing else (case 3 of its documentation). *)
Definition accumulates (m : CentralTendencyEnsembleMetric Pose) : Prop :=
  ensemble_generating_protocol_ (base m) = None
  /\ (use_additional_output_from_last_mover_ (base m) = false
      \/ last_mover_ (base m) = None).

(** [finalize_values()] has memoized statistics, or can compute them: the
    count is positive and no index leaves its vector. *)
Definition can_finalize (m : CentralTendencyEnsembleMetric Pose) : Prop :=
  derived_finalized_ m = true
  \/ ((0 < poses_in_ensemble m)%N
      /\ compute_statistics (poses_in_ensemble m) (values_ m) <> None).

(** The object after each of [poses] has been counted and measured in
    turn. *)
Definition accumulated (metric : RealMetric Pose) (poses : list Pose)
  (m : CentralTendencyEnsembleMetric Pose) : CentralTendencyEnsembleMetric Pose :=
  fold_left (fun m pose => added metric pose m) poses m.

(** The count is the number of values held, which a [core::Size] can
    express. *)
Definition well_counted (m : CentralTendencyEnsembleMetric Pose) : Prop :=
  poses_in_ensemble m = N.of_nat (length (values_ m))
  /\ (N.of_nat (length (values_ m)) < Size.modulus)%N.

(** The object after the values [vs] of a peer have been merged in. *)
Definition received (vs : list float) (m : CentralTendencyEnsembleMetric Pose)
  : CentralTendencyEnsembleMetric Pose :=
  set_base
    (fun e => set_poses_in_ensemble_
                (Size.add (poses_in_ensemble_ e)
                   (Size_of_int (Z.of_nat (length vs)))) e)
    (set_values_ (values_ m ++ vs) m).

(** The world with the events [evs] written after what is there. *)
Definition with_output (evs : list Event) (w : World Pose) : World Pose :=
  {| self := self w; output := output w ++ evs;
     inbox := inbox w; sent := sent w |}.

End Vocabulary_further.

(** ** What a report says *)

(** The report that carries the statistics [st] under the name of a simple
    metric: eight lines, each statistic under its name. *)
Definition report_carrying (simple_metric_name : string) (st : Statistics)
  : Report :=
  {| report_metric := simple_metric_name;
     report_lines :=
       [("mean", s_mean st); ("median", s_median st); ("mode", s_mode st);
        ("stddev", s_stddev st); ("stderr", s_stderr st);
        ("min", s_min st); ("max", s_max st); ("range", s_range st)]%string |}.

(** ** Messages between processes *)

(** What [send_mpi_summary()] sends to [dest] for a count [n] and the values
    [vs]: the count, then the values if there are any. *)
Definition summary_messages (dest n : Z) (vs : list float)
  : list (Z * MPI_payload) :=
  (dest, MPI_INT n) :: (if (0 <? n)%Z then [(dest, MPI_DOUBLE vs)] else []).

(** Messages sent by the process [rank], as their receiver finds them: each
    with its source. *)
Definition arriving_from (rank : Z) (msgs : list (Z * MPI_payload))
  : list (Z * MPI_payload) :=
  map (fun msg => (rank, snd msg)) msgs.

(** The messages in an inbox that come from [rank], in their order. *)
Definition from (rank : Z) (inbox : list (Z * MPI_payload))
  : list (Z * MPI_payload) :=
  filter (fun msg => (fst msg =? rank)%Z) inbox.

(** A peer: its rank and the values it holds. *)
Definition peer_messages (peer : Z * list float) : list (Z * MPI_payload) :=
  arriving_from (fst peer)
    (summary_messages 0 (Z.of_nat (length (snd peer))) (snd peer)).

(** A peer a coordinator can hear from: its rank is a rank, and the number of
    its values fits the [int] that announces it. *)
Definition valid_peer (peer : Z * list float) : Prop :=
  (0 <= fst peer)%Z /\ (Z.of_nat (length (snd peer)) < 2 ^ 31)%Z.

(** ** A metric that agrees with a tag *)

Section Vocabulary_parsing.

Variable Pose : Type.
Variable DataMap : Type.
Variable parse_mover : string -> DataMap -> option (Mover Pose).

(** Every attribute the tag gives is what the object holds, and passed the
    check of its setter. *)
Definition agrees_with (tag : Tag) (data : DataMap)
  (m : CentralTendencyEnsembleMetric Pose) : Prop :=
  (forall s, opt_label_prefix tag = Some s -> label_prefix_ (base m) = s)
  /\ (forall s, opt_label_suffix tag = Some s -> label_suffix_ (base m) = s)
  /\ (forall protocol_name,
        opt_ensemble_generating_protocol tag = Some protocol_name ->
        exists protocol,
          parse_mover protocol_name data = Some protocol
          /\ ensemble_generating_protocol_ (base m) = Some protocol
          /\ forall n, opt_ensemble_generating_protocol_repeats tag = Some n ->
               (0 < n)%N /\ ensemble_generating_protocol_repeats_ (base m) = n)
  /\ (forall n, opt_n_threads tag = Some n ->
        (n < 2)%N /\ n_threads_ (base m) = n)
  /\ (forall b, opt_use_additional_output_from_last_mover tag = Some b ->
        use_additional_output_from_last_mover_ (base m) = b)
  /\ (forall s, opt_output_mode tag = Some s ->
        output_mode_name_from_enum (output_mode_ (base m)) = Ok s)
  /\ (forall s, opt_output_filename tag = Some s ->
        output_mode_ (base m) <> TRACER /\ output_filename_ (base m) = s).

(** The data a metric has collected and computed: what [reset()] clears. *)
Definition collected (m : CentralTendencyEnsembleMetric Pose) :=
  (poses_in_ensemble m, values_ m, statistics_of m,
   finalized m, derived_finalized_ m).

End Vocabulary_parsing.

(** ** Concrete inputs of the further properties *)

(** A previous mover with two additional outputs, and a protocol that
    succeeds. *)
Definition two_more : Mover float :=
  {| mover_apply := fun pose => (pose, MS_SUCCESS);
     additional_output := [2; 3]%float |}.

Definition doubling : Mover float :=
  {| mover_apply := fun pose => ((pose + pose)%float, MS_SUCCESS);
     additional_output := [] |}.

(** [fresh_metric] in the multiple-output configuration. *)
Definition multi_output_metric : CentralTendencyEnsembleMetric float :=
  set_base (set_last_mover_ (Some two_more))
    (set_base (set_use_additional_output_from_last_mover_ true) fresh_metric).

(** [fresh_metric] with a protocol to be run three times. *)
Definition generating_metric : CentralTendencyEnsembleMetric float :=
  set_base (set_ensemble_generating_protocol_repeats_ 3)
    (set_base (set_ensemble_generating_protocol_ (Some doubling)) fresh_metric).

(** The first ensemble collected, to be reported to a file that has no
    name. *)
Definition unnamed_file : World float :=
  let w := world_after (map (@Op_apply float) ensemble1) in
  with_self (set_base (set_output_mode_ FILE) (self w)) w.

(** A data map that holds one mover and one metric. *)
Definition one_mover (protocol_name : string) (_ : unit)
  : option (Mover float) :=
  if String.eqb protocol_name "double" then Some doubling else None.

Definition one_metric (tag : Tag) (_ : unit)
  : option (option (SimpleMetric float)) :=
  match opt_real_valued_metric tag with
  | Some metric_name =>
      if String.eqb metric_name "value" then Some (Some (Real_valued value_metric))
      else None
  | None => None
  end.

(** [<CentralTendency label_prefix="a" ensemble_generating_protocol="double"
    ensemble_generating_protocol_repeats="3" output_mode="file"
    output_filename="report.txt" real_valued_metric="value" />]. *)
Definition a_tag : Tag := {|
  opt_label_prefix := Some "a"%string;
  opt_label_suffix := None;
  opt_ensemble_generating_protocol := Some "double"%string;
  opt_ensemble_generating_protocol_repeats := Some 3%N;
  opt_n_threads := None;
  opt_use_additional_output_from_last_mover := None;
  opt_output_mode := Some "file"%string;
  opt_output_filename := Some "report.txt"%string;
  opt_real_valued_metric := Some "value"%string
|}.

(** The factory once [CentralTendencyEnsembleMetricCreator] is registered. *)
Definition registered_creators : EnsembleMetricCreatorMap float :=
  [(name, CentralTendencyEnsembleMetricCreator float)].

(** A filter on the mean of the world's metric. *)
Definition mean_above_half : filters.EnsembleFilter := {|
  filters.ensemble_metric_ := filters.the_metric;
  filters.named_value_ := "mean";
  filters.threshold_ := 0.5;
  filters.acceptance_mode_ := filters.GREATER_THAN
|}.

(* ================================================================== *)
(** * Part III: facts about the model and the claims *)
(* ================================================================== *)

(** ** The order of doubles

    [operator<] on numbers is the lexicographic order of a rank read off the
    IEEE encoding; everything the sorting and grouping arguments need follows
    from that. *)

Module RealOrderFacts.

Lemma SFcompare_lex f1 f2 :
  f1 <> S754_nan -> f2 <> S754_nan ->
  SFcompare f1 f2 = Some (lex (rank f1) (rank f2)).
Proof.
  intros H1 H2.
  destruct f1 as [s1|s1| |s1 m1 e1], f2 as [s2|s2| |s2 m2 e2];
    try congruence; try destruct s1; try destruct s2; try reflexivity.
  cbn [SFcompare rank lex]. rewrite Z.compare_opp.
  change (Z.neg m1 ?= Z.neg m2)%Z with (CompOpp (m1 ?= m2)%positive).
  rewrite (Z.compare_antisym e1 e2).
  destruct (e1 ?= e2)%Z; reflexivity.
Qed.

Lemma lex_Lt a b :
  lex a b = Lt <->
  let '(a1, a2, a3) := a in
  let '(b1, b2, b3) := b in
  (a1 < b1 \/ (a1 = b1 /\ (a2 < b2 \/ (a2 = b2 /\ a3 < b3))))%Z.
Proof.
  destruct a as [[a1 a2] a3], b as [[b1 b2] b3]. unfold lex.
  destruct (Z.compare_spec a1 b1); [destruct (Z.compare_spec a2 b2);
    [destruct (Z.compare_spec a3 b3)| |] | |];
    split; intros; try discriminate; try reflexivity; lia.
Qed.

Lemma lex_Eq a b : lex a b = Eq <-> a = b.
Proof.
  destruct a as [[a1 a2] a3], b as [[b1 b2] b3]. unfold lex.
  destruct (Z.compare_spec a1 b1); [destruct (Z.compare_spec a2 b2);
    [destruct (Z.compare_spec a3 b3)| |] | |];
    split; intros E; try discriminate; try reflexivity;
    try (inversion E; lia); subst; reflexivity.
Qed.

Lemma lex_Gt a b : lex a b = Gt <-> lex b a = Lt.
Proof.
  destruct a as [[a1 a2] a3], b as [[b1 b2] b3]. unfold lex.
  rewrite (Z.compare_antisym a1 b1), (Z.compare_antisym a2 b2),
    (Z.compare_antisym a3 b3).
  destruct (a1 ?= b1)%Z, (a2 ?= b2)%Z, (a3 ?= b3)%Z; simpl;
    split; intros; try discriminate; reflexivity.
Qed.

Lemma number_Prim2SF x : Spec.number x <-> Prim2SF x <> S754_nan.
Proof.
  unfold Spec.number, is_nan. rewrite eqb_spec. unfold SFeqb.
  destruct (Prim2SF x) as [s|s| |s m e] eqn:E.
  - simpl. split; [congruence|reflexivity].
  - destruct s; simpl; (split; [congruence|reflexivity]).
  - simpl. split; [discriminate|congruence].
  - rewrite SFcompare_lex by congruence.
    assert (lex (rank (S754_finite s m e)) (rank (S754_finite s m e)) = Eq)
      as -> by (apply lex_Eq; reflexivity).
    simpl. split; [congruence|reflexivity].
Qed.

Lemma ltb_key x y : Spec.number x -> Spec.number y ->
  (x <? y)%float = true <-> key_lt (key x) (key y).
Proof.
  intros Hx%number_Prim2SF Hy%number_Prim2SF.
  rewrite ltb_spec. unfold SFltb, key_lt, key.
  rewrite SFcompare_lex by assumption.
  destruct (lex _ _); split; intros; try discriminate; reflexivity.
Qed.

Lemma lex_total a b : lex a b <> Lt -> a = b \/ key_lt b a.
Proof.
  intros H. unfold key_lt. rewrite <- lex_Gt, <- lex_Eq.
  destruct (lex a b); intuition congruence.
Qed.

Lemma key_lt_irrefl a : ~ key_lt a a.
Proof.
  unfold key_lt. assert (lex a a = Eq) as -> by (apply lex_Eq; reflexivity).
  discriminate.
Qed.

Lemma key_lt_trans a b c : key_lt a b -> key_lt b c -> key_lt a c.
Proof.
  unfold key_lt. rewrite !lex_Lt.
  destruct a as [[a1 a2] a3], b as [[b1 b2] b3], c as [[c1 c2] c3]. lia.
Qed.

Lemma key_lt_asym a b : key_lt a b -> ~ key_lt b a.
Proof. intros H1 H2. exact (key_lt_irrefl (key_lt_trans H1 H2)). Qed.

Lemma ltb_false_key x y : Spec.number x -> Spec.number y ->
  (x <? y)%float = false <-> key y = key x \/ key_lt (key y) (key x).
Proof.
  intros Hx Hy. pose proof (ltb_key Hx Hy) as L. split.
  - intros E. destruct (@lex_total (key x) (key y)) as [H|H]; auto.
    intros K. apply L in K. congruence.
  - intros [E|H]; destruct (x <? y)%float eqn:Q; auto;
      destruct L as [L _]; specialize (L eq_refl).
    + rewrite E in L. destruct (key_lt_irrefl L).
    + destruct (key_lt_asym H L).
Qed.

Lemma equiv_key x y : Spec.number x -> Spec.number y ->
  Real.equiv x y = true <-> key x = key y.
Proof.
  intros Hx Hy. unfold Real.equiv.
  rewrite andb_true_iff, !negb_true_iff, (ltb_false_key Hx Hy),
    (ltb_false_key Hy Hx).
  split.
  - intros [[E|H1] [E'|H2]]; auto. destruct (key_lt_asym H1 H2).
  - intros E. rewrite E. auto.
Qed.

Lemma eqb_key x y : Spec.number x -> Spec.number y ->
  (x =? y)%float = true <-> key x = key y.
Proof.
  intros Hx%number_Prim2SF Hy%number_Prim2SF.
  rewrite eqb_spec. unfold SFeqb, key.
  rewrite SFcompare_lex by assumption. rewrite <- lex_Eq.
  destruct (lex _ _); split; intros; try discriminate; reflexivity.
Qed.

Lemma leb_key x y : Spec.number x -> Spec.number y ->
  (x <=? y)%float = true <-> key x = key y \/ key_lt (key x) (key y).
Proof.
  intros Hx%number_Prim2SF Hy%number_Prim2SF.
  rewrite leb_spec. unfold SFleb, key, key_lt.
  rewrite SFcompare_lex by assumption. rewrite <- lex_Eq.
  destruct (lex _ _); split; intros; try discriminate; auto;
    destruct H; discriminate.
Qed.

(** Consequences used by the sorting and grouping arguments. *)

Lemma equiv_eqb x y : Spec.number x -> Spec.number y ->
  Real.equiv x y = (x =? y)%float.
Proof.
  intros Hx Hy. apply eq_true_iff_eq.
  rewrite (equiv_key Hx Hy), (eqb_key Hx Hy). reflexivity.
Qed.

Lemma not_ltb_leb x y : Spec.number x -> Spec.number y ->
  (x <? y)%float = false -> (y <=? x)%float = true.
Proof.
  intros Hx Hy H. apply (leb_key Hy Hx). apply (ltb_false_key Hx Hy), H.
Qed.

Lemma ltb_leb x y : Spec.number x -> Spec.number y ->
  (x <? y)%float = true -> (x <=? y)%float = true.
Proof.
  intros Hx Hy H. apply (leb_key Hx Hy). right. apply (ltb_key Hx Hy), H.
Qed.

Lemma leb_refl x : Spec.number x -> (x <=? x)%float = true.
Proof. intros Hx. apply (leb_key Hx Hx). auto. Qed.

Lemma leb_trans x y z : Spec.number x -> Spec.number y -> Spec.number z ->
  (x <=? y)%float = true -> (y <=? z)%float = true -> (x <=? z)%float = true.
Proof.
  intros Hx Hy Hz H1%(leb_key Hx Hy) H2%(leb_key Hy Hz).
  apply (leb_key Hx Hz).
  destruct H1 as [E1|L1], H2 as [E2|L2].
  - left. congruence.
  - right. rewrite E1. exact L2.
  - right. rewrite <- E2. exact L1.
  - right. exact (key_lt_trans L1 L2).
Qed.

(** Division by one is exact. *)

Local Open Scope Z_scope.

Lemma canonical_shr_fexp m e :
  canonical_mantissa prec emax m e = true ->
  shr_fexp prec emax (Zpos m) e loc_Exact
  = ({| shr_m := Zpos m; shr_r := false; shr_s := false |}, e).
Proof.
  unfold canonical_mantissa, shr_fexp. intros H%Z.eqb_eq.
  cbn [Zdigits2]. rewrite H, Z.sub_diag. reflexivity.
Qed.

Lemma bounded_round_aux s m e :
  bounded prec emax m e = true ->
  binary_round_aux prec emax s (Zpos m) e loc_Exact = S754_finite s m e.
Proof.
  unfold bounded. intros [C B]%andb_true_iff.
  unfold binary_round_aux. rewrite (canonical_shr_fexp _ _ C).
  cbn [shr_m loc_of_shr_record round_nearest_even].
  rewrite (canonical_shr_fexp _ _ C). cbn [shr_m]. rewrite B. reflexivity.
Qed.

Lemma div_eucl_exact a b : 0 < b -> Z.div_eucl (a * b) b = (a, 0).
Proof.
  intros Hb. pose proof (Z_div_mod (a * b) b ltac:(lia)) as H.
  destruct (Z.div_eucl (a * b) b) as [q r]. destruct H as [H1 H2].
  assert (q = a) by nia. subst q. f_equal. lia.
Qed.

Lemma SFdiv_one f :
  valid_binary f = true ->
  SFdiv prec emax f (S754_finite false 4503599627370496 (-52)) = f.
Proof.
  destruct f as [s|s| |s m e]; intros V; cbn [SFdiv].
  - rewrite xorb_false_r. reflexivity.
  - rewrite xorb_false_r. reflexivity.
  - reflexivity.
  - rewrite xorb_false_r. cbn [SpecFloat.valid_binary] in V.
    pose proof V as V'. unfold bounded, canonical_mantissa, fexp in V'.
    apply andb_true_iff in V'. destruct V' as [C B].
    apply Z.eqb_eq in C. apply Z.leb_le in B.
    unfold SFdiv_core_binary. cbn [Zdigits2].
    change (Zpos (digits2_pos 4503599627370496)) with 53.
    set (d := Zpos (digits2_pos m)) in *.
    unfold SpecFloat.emin, prec, emax in C, B.
    destruct (Z_lt_le_dec (-1074) e) as [Hn|Hs].
    + (* normal, above the least exponent: the quotient has one more bit *)
      assert (d = 53) by lia.
      replace (Z.min (fexp prec emax (d + e - (53 + -52))) (e - -52)) with (e - 1)
        by (unfold fexp, SpecFloat.emin, prec, emax; lia).
      replace (e - -52 - (e - 1)) with 53 by lia.
      rewrite Z.shiftl_mul_pow2 by lia.
      replace (Zpos m * 2 ^ 53) with (Zpos m~0 * 4503599627370496) by lia.
      rewrite div_eucl_exact by lia.
      change (new_location 4503599627370496 0) with loc_Exact.
      unfold binary_round_aux.
      assert (shr_fexp prec emax (Zpos m~0) (e - 1) loc_Exact
              = ({| shr_m := Zpos m; shr_r := false; shr_s := false |}, e)) as ->.
      { unfold shr_fexp. cbn [Zdigits2 digits2_pos].
        rewrite Pos2Z.inj_succ. fold d.
        replace (fexp prec emax (Z.succ d + (e - 1)) - (e - 1)) with 1
          by (unfold fexp, SpecFloat.emin, prec, emax; lia).
        cbn. f_equal. lia. }
      cbn [shr_m loc_of_shr_record round_nearest_even].
      rewrite canonical_shr_fexp.
      * cbn [shr_m]. unfold prec, emax. destruct (Z.leb_spec e (1024 - 53)); [reflexivity|lia].
      * apply andb_true_iff in V. apply V.
    + replace (Z.min (fexp prec emax (d + e - (53 + -52))) (e - -52)) with e
        by (unfold fexp, SpecFloat.emin, prec, emax; lia).
      replace (e - -52 - e) with 52 by lia.
      rewrite Z.shiftl_mul_pow2 by lia.
      change (2 ^ 52) with 4503599627370496.
      rewrite div_eucl_exact by lia.
      change (new_location 4503599627370496 0) with loc_Exact.
      apply bounded_round_aux, V.
Qed.

Lemma div_one (x : float) : (x / 1)%float = x.
Proof.
  apply Prim2SF_inj. rewrite div_spec.
  change (Prim2SF 1) with (S754_finite false 4503599627370496 (-52)).
  apply SFdiv_one, Prim2SF_valid.
Qed.

Local Close Scope Z_scope.

End RealOrderFacts.

Import RealOrderFacts.

(** ** Sorting *)

Lemma insert_sorted_perm x l : Permutation (insert_sorted x l) (x :: l).
Proof.
  induction l as [|y l IH]; simpl.
  - apply Permutation_refl.
  - destruct (x <? y)%float.
    + apply Permutation_refl.
    + apply perm_trans with (y :: x :: l).
      * apply perm_skip, IH.
      * apply perm_swap.
Qed.

Lemma std_sort_perm l : Permutation (std_sort l) l.
Proof.
  induction l as [|x l IH]; simpl.
  - apply perm_nil.
  - apply perm_trans with (x :: std_sort l).
    + apply insert_sorted_perm.
    + apply perm_skip, IH.
Qed.

Lemma std_sort_length l : length (std_sort l) = length l.
Proof. apply Permutation_length, std_sort_perm. Qed.

Lemma insert_sorted_sorted x l :
  Spec.number x -> Forall Spec.number l ->
  StronglySorted Spec.le l -> StronglySorted Spec.le (insert_sorted x l).
Proof.
  intros Hx Hl Hs. induction Hs as [|y l Hs IH Hy]; simpl.
  - constructor; constructor.
  - inversion Hl as [|? ? Ny Nl]; subst.
    destruct (x <? y)%float eqn:E.
    + constructor.
      * constructor; assumption.
      * constructor.
        -- apply ltb_leb; assumption.
        -- rewrite Forall_forall in *. intros z Hz.
           apply leb_trans with y; auto.
           ++ apply ltb_leb; assumption.
           ++ apply Hy, Hz.
    + constructor.
      * apply IH, Nl.
      * apply (Permutation_Forall (Permutation_sym (insert_sorted_perm x l))).
        constructor; [apply not_ltb_leb; assumption | exact Hy].
Qed.

Lemma std_sort_sorted l : Forall Spec.number l -> StronglySorted Spec.le (std_sort l).
Proof.
  induction 1 as [|x l Hx Hl IH]; simpl.
  - constructor.
  - apply insert_sorted_sorted; auto.
    apply (Permutation_Forall (Permutation_sym (std_sort_perm l))), Hl.
Qed.

Lemma StronglySorted_nth_error l : StronglySorted Spec.le l -> Forall Spec.number l ->
  forall i j x y, (i <= j)%nat -> nth_error l i = Some x -> nth_error l j = Some y ->
  Spec.le x y.
Proof.
  induction 1 as [|a l Hs IH Ha]; intros Hn i j x y Hij Hi Hj.
  - destruct i; discriminate.
  - inversion Hn as [|? ? Na Nl]; subst.
    destruct i as [|i], j as [|j]; simpl in *.
    + injection Hi as <-. injection Hj as <-. apply leb_refl, Na.
    + injection Hi as <-. rewrite Forall_forall in Ha.
      apply Ha. eapply nth_error_In, Hj.
    + lia.
    + apply (IH Nl i j); auto. lia.
Qed.

(** Sizes and 1-based indexing. *)

Lemma vsize_length A (v : list A) :
  (N.of_nat (length v) < Size.modulus)%N -> vsize v = N.of_nat (length v).
Proof. intros H. unfold vsize, Size.wrap. apply N.mod_small, H. Qed.

Lemma at1_nth_error A (v : list A) (k : nat) :
  at1 v (N.of_nat k + 1) = nth_error v k.
Proof.
  unfold at1. destruct (N.eqb_spec (N.of_nat k + 1) 0) as [E|_]; [lia|].
  f_equal. lia.
Qed.

Lemma incr_small n : (n + 1 < Size.modulus)%N -> Size.incr n = (n + 1)%N.
Proof. intros H. unfold Size.incr, Size.wrap. apply N.mod_small, H. Qed.

Lemma for_loop_fold St A (f : St -> A -> St) (values : list A)
  (body : N -> St -> option St) :
  (forall i x s, at1 values i = Some x -> body i s = Some (f s x)) ->
  forall (rest : list A) (done : list A) (s : St),
    values = done ++ rest ->
    (N.of_nat (length values) < Size.modulus)%N ->
    for_loop (length rest) (N.of_nat (length done) + 1) body s
    = Some (fold_left f rest s).
Proof.
  intros Hbody rest. induction rest as [|x rest IH]; intros done s E Hlen.
  - reflexivity.
  - cbn [length for_loop fold_left]. rewrite (Hbody _ x).
    + destruct rest as [|y rest]; [reflexivity|].
      rewrite incr_small.
      * replace (N.of_nat (length done) + 1)%N
          with (N.of_nat (length (done ++ [x]))).
        -- apply IH; auto. rewrite <- app_assoc. exact E.
        -- rewrite length_app. simpl. lia.
      * subst values. rewrite length_app in Hlen. simpl in Hlen. lia.
    + rewrite at1_nth_error. subst values.
      rewrite nth_error_app2 by lia. rewrite Nat.sub_diag. reflexivity.
Qed.

(** ** The table of counts *)

Lemma map_count_absent x m :
  Spec.number x -> number_keys m ->
  (forall e, In e m -> key (fst e) <> key x) -> map_count x m = 0%N.
Proof.
  intros Hx Hm. induction Hm as [|[k c] m Hk Hm IH]; intros Habs; simpl.
  - reflexivity.
  - destruct (Real.equiv x k) eqn:E.
    + apply (equiv_key Hx Hk) in E.
      exfalso. apply (Habs (k, c)); [left; reflexivity | symmetry; exact E].
    + apply IH. intros e He. apply Habs. right. exact He.
Qed.

Lemma map_count_present x m :
  Spec.number x -> number_keys m ->
  (exists e, In e m /\ key (fst e) = key x) -> map_count x m = 1%N.
Proof.
  intros Hx Hm. induction Hm as [|[k c] m Hk Hm IH]; intros [e [He Ke]]; simpl.
  - destruct He.
  - destruct (Real.equiv x k) eqn:E; [reflexivity|].
    apply IH. exists e. split; [|exact Ke].
    destruct He as [<-|He]; [|exact He].
    cbn [fst] in Ke. symmetry in Ke. apply (equiv_key Hx Hk) in Ke.
    cbn [fst] in Ke. congruence.
Qed.

Lemma entry_lt_keys m m' :
  map fst m = map fst m' ->
  StronglySorted entry_lt m -> StronglySorted entry_lt m'.
Proof.
  intros E Hs. revert m' E.
  induction Hs as [|e m Hs IH He]; intros [|e' m'] E; try discriminate.
  - constructor.
  - simpl in E. injection E as E1 E2. constructor.
    + apply IH, E2.
    + rewrite Forall_forall in *. intros z Hz.
      apply (in_map fst) in Hz. rewrite <- E2 in Hz.
      apply in_map_iff in Hz. destruct Hz as [z' [Ez Hz']].
      unfold entry_lt. rewrite <- E1, <- Ez. apply (He z' Hz').
Qed.

Lemma map_update_absent x f m :
  Spec.number x -> number_keys m -> StronglySorted entry_lt m ->
  (forall e, In e m -> key (fst e) <> key x) ->
  Permutation (map_update x f m) ((x, f 0%N) :: m)
  /\ StronglySorted entry_lt (map_update x f m).
Proof.
  intros Hx Hm Hs. induction Hs as [|[k c] m Hs IH He]; intros Habs.
  - simpl. split; [apply Permutation_refl | repeat constructor].
  - inversion Hm as [|? ? Hk Hm']; subst. cbn [fst] in Hk.
    cbn [map_update].
    assert (key k <> key x) as Hne by (apply (Habs (k, c)); left; reflexivity).
    destruct (x <? k)%float eqn:E1.
    + split; [apply Permutation_refl|].
      apply (ltb_key Hx Hk) in E1.
      constructor; [constructor; assumption|].
      constructor; [exact E1|].
      rewrite Forall_forall in *. intros z Hz.
      exact (key_lt_trans E1 (He z Hz)).
    + apply (ltb_false_key Hx Hk) in E1.
      destruct E1 as [E1|E1]; [congruence|].
      assert ((k <? x)%float = true) as -> by (apply (ltb_key Hk Hx), E1).
      destruct IH as [P S]; auto.
      { intros e Hin. apply Habs. right. exact Hin. }
      split.
      * apply perm_trans with ((k, c) :: (x, f 0%N) :: m).
        -- apply perm_skip, P.
        -- apply perm_swap.
      * constructor; [exact S|].
        apply (Permutation_Forall (Permutation_sym P)).
        constructor; [exact E1 | exact He].
Qed.

Lemma map_update_present x f m k c :
  Spec.number x -> number_keys m -> StronglySorted entry_lt m ->
  In (k, c) m -> key k = key x ->
  exists m1 m2, m = m1 ++ (k, c) :: m2
                /\ map_update x f m = m1 ++ (k, f c) :: m2.
Proof.
  intros Hx Hm Hs. induction Hs as [|[k' c'] m Hs IH He]; intros Hin Hkey.
  - destruct Hin.
  - inversion Hm as [|? ? Hk' Hm']; subst. cbn [fst] in Hk'.
    cbn [map_update].
    destruct Hin as [E|Hin].
    + injection E as -> ->.
      assert ((x <? k)%float = false) as ->
          by (apply (ltb_false_key Hx Hk'); left; exact Hkey).
      assert ((k <? x)%float = false) as ->
          by (apply (ltb_false_key Hk' Hx); left; symmetry; exact Hkey).
      exists [], m. split; reflexivity.
    + rewrite Forall_forall in He. pose proof (He _ Hin) as L.
      unfold entry_lt in L. cbn [fst] in L. rewrite Hkey in L.
      assert ((x <? k')%float = false) as ->
          by (apply (ltb_false_key Hx Hk'); right; exact L).
      assert ((k' <? x)%float = true) as -> by (apply (ltb_key Hk' Hx), L).
      destruct (IH Hm' Hin Hkey) as [m1 [m2 [E1 E2]]].
      exists ((k', c') :: m1), m2. simpl. rewrite <- E1, E2. split; reflexivity.
Qed.

(** Groups. *)

Lemma group_size_app V x k :
  Spec.group_size (V ++ [x]) k
  = (Spec.group_size V k + (if (k =? x)%float then 1 else 0))%nat.
Proof.
  unfold Spec.group_size. rewrite filter_app, length_app. simpl.
  destruct (k =? x)%float; reflexivity.
Qed.

Lemma group_size_key V k k' :
  Forall Spec.number V -> Spec.number k -> Spec.number k' -> key k = key k' ->
  Spec.group_size V k = Spec.group_size V k'.
Proof.
  intros HV Hk Hk' E. unfold Spec.group_size. f_equal.
  apply filter_ext_in. intros y Hy. rewrite Forall_forall in HV.
  apply eq_true_iff_eq.
  rewrite (eqb_key Hk (HV y Hy)), (eqb_key Hk' (HV y Hy)), E. reflexivity.
Qed.

Lemma group_size_absent V x :
  Forall Spec.number V -> Spec.number x ->
  (forall y, In y V -> key y <> key x) -> Spec.group_size V x = 0%nat.
Proof.
  intros HV Hx Habs. unfold Spec.group_size.
  induction HV as [|y V Hy HV IH]; simpl; [reflexivity|].
  destruct (x =? y)%float eqn:E.
  - apply (eqb_key Hx Hy) in E. exfalso.
    apply (Habs y); [left; reflexivity | symmetry; exact E].
  - apply IH. intros z Hz. apply Habs. right. exact Hz.
Qed.

Lemma group_size_le V x : (Spec.group_size V x <= length V)%nat.
Proof. apply filter_length_le. Qed.

Lemma group_size_pos V x :
  Spec.number x -> In x V -> (0 < Spec.group_size V x)%nat.
Proof.
  intros Hx Hin. unfold Spec.group_size.
  assert (In x (filter (fun y => (x =? y)%float) V)) as H.
  { apply filter_In. split; [exact Hin|]. apply (eqb_key Hx Hx). reflexivity. }
  destruct (filter _ V); [destruct H | simpl; lia].
Qed.

Lemma counts_inv_nil : counts_inv [] [].
Proof.
  split.
  - constructor.
  - constructor.
  - intros k c [].
  - intros y [].
Qed.

Lemma map_count_cases x m :
  Spec.number x -> number_keys m ->
  (map_count x m = 0%N /\ forall e, In e m -> key (fst e) <> key x)
  \/ (map_count x m = 1%N /\ exists e, In e m /\ key (fst e) = key x).
Proof.
  intros Hx Hm. induction Hm as [|[k c] m Hk Hm IH]; cbn [map_count].
  - left. split; [reflexivity | intros e []].
  - cbn [fst] in Hk. destruct (Real.equiv x k) eqn:E.
    + right. split; [reflexivity|]. exists (k, c). split; [left; reflexivity|].
      symmetry. apply (equiv_key Hx Hk), E.
    + destruct IH as [[C A]|[C [e [He Ke]]]].
      * left. split; [exact C|]. intros e [<-|He]; [|apply A, He].
        cbn [fst]. intros Ke. symmetry in Ke.
        apply (equiv_key Hx Hk) in Ke. congruence.
      * right. split; [exact C|]. exists e. split; [right; exact He | exact Ke].
Qed.

Lemma number_keys_keys m m' :
  map fst m = map fst m' -> number_keys m -> number_keys m'.
Proof.
  unfold number_keys. intros E H.
  rewrite <- (Forall_map fst Spec.number) in *. rewrite <- E. exact H.
Qed.

Lemma sorted_middle_distinct m1 e m2 :
  StronglySorted entry_lt (m1 ++ e :: m2) ->
  forall z, In z (m1 ++ m2) -> key (fst z) <> key (fst e).
Proof.
  induction m1 as [|a m1 IH]; cbn [app]; intros Hs z Hz.
  - inversion Hs as [|? ? _ Ha]; subst. rewrite Forall_forall in Ha.
    intros E. apply (@key_lt_irrefl (key (fst e))).
    pose proof (Ha z Hz) as L. unfold entry_lt in L. rewrite E in L. exact L.
  - inversion Hs as [|? ? Hs' Ha]; subst. destruct Hz as [<-|Hz].
    + rewrite Forall_forall in Ha.
      intros E. apply (@key_lt_irrefl (key (fst e))).
      assert (In e (m1 ++ e :: m2)) as Hin by (apply in_elt).
      pose proof (Ha e Hin) as L. unfold entry_lt in L. rewrite E in L. exact L.
    + apply IH; assumption.
Qed.

Lemma counts_inv_step V m x :
  Forall Spec.number V -> Spec.number x ->
  (N.of_nat (length V) + 1 < Size.modulus)%N ->
  counts_inv V m -> counts_inv (V ++ [x]) (count_occurrence x m).
Proof.
  intros HV Hx Hlen [Hs Hn Hsound Hcompl]. unfold count_occurrence.
  assert ((x =? x)%float = true) as Hxx by (apply (eqb_key Hx Hx); reflexivity).
  destruct (map_count_cases Hx Hn) as [[C A]|[C [[k c] [He Ke]]]]; rewrite C.
  - (* a new key *)
    cbn [N.eqb].
    destruct (@map_update_absent x (fun _ => 1%N) m Hx Hn Hs A) as [P S].
    assert (forall y, In y V -> key y <> key x) as AV.
    { intros y Hy E. destruct (Hcompl y Hy) as [e [He Ke]].
      apply (A e He). congruence. }
    split.
    + exact S.
    + apply (Permutation_Forall (Permutation_sym P)).
      constructor; [exact Hx | exact Hn].
    + intros k c Hin. apply (Permutation_in _ P) in Hin.
      destruct Hin as [E|Hin].
      * injection E as <- <-. split; [apply in_elt|].
        rewrite group_size_app, Hxx, (group_size_absent HV Hx AV). reflexivity.
      * destruct (Hsound k c Hin) as [Hk ->]. split; [apply in_or_app; auto|].
        rewrite group_size_app.
        assert ((k =? x)%float = false) as ->; [|f_equal; lia].
        destruct (k =? x)%float eqn:E; [|reflexivity].
        rewrite Forall_forall in HV.
        apply (eqb_key (HV k Hk) Hx) in E. destruct (A _ Hin E).
    + intros y Hy. apply in_app_or in Hy. destruct Hy as [Hy|[<-|[]]].
      * destruct (Hcompl y Hy) as [e [He Ke]]. exists e. split; [|exact Ke].
        apply (Permutation_in _ (Permutation_sym P)). right. exact He.
      * exists (x, 1%N). split; [|reflexivity].
        apply (Permutation_in _ (Permutation_sym P)). left. reflexivity.
  - (* a key already present *)
    cbn [N.eqb fst] in *.
    destruct (@map_update_present x Size.incr m k c Hx Hn Hs He Ke)
      as [m1 [m2 [E1 E2]]].
    rewrite E2.
    assert (map fst m = map fst (m1 ++ (k, Size.incr c) :: m2)) as EK.
    { rewrite E1, !map_app. reflexivity. }
    destruct (Hsound k c He) as [HkV Ec].
    assert (Spec.number k) as Hk by (rewrite Forall_forall in HV; auto).
    assert ((k =? x)%float = true) as Hkx by (apply (eqb_key Hk Hx), Ke).
    assert (Size.incr c = N.of_nat (Spec.group_size (V ++ [x]) k)) as Einc.
    { rewrite group_size_app, Hkx, incr_small.
      - subst c. lia.
      - pose proof (group_size_le V k). lia. }
    assert (forall z, In z (m1 ++ m2) -> key (fst z) <> key x) as D.
    { intros z Hz. rewrite <- Ke. rewrite E1 in Hs.
      apply (sorted_middle_distinct _ _ _ Hs z Hz). }
    assert (forall z, In z (m1 ++ m2) -> In z m) as Sub.
    { intros z Hz. rewrite E1. apply in_app_or in Hz. apply in_or_app.
      destruct Hz; [left|right; right]; assumption. }
    split.
    + apply (entry_lt_keys _ EK Hs).
    + apply (number_keys_keys _ EK Hn).
    + intros k' c' Hin. apply in_app_or in Hin.
      assert (In (k', c') (m1 ++ m2) -> In k' (V ++ [x])
              /\ c' = N.of_nat (Spec.group_size (V ++ [x]) k')) as Other.
      { intros Hz. destruct (Hsound k' c' (Sub _ Hz)) as [Hk' ->].
        split; [apply in_or_app; auto|].
        rewrite group_size_app.
        assert ((k' =? x)%float = false) as ->; [|f_equal; lia].
        destruct (k' =? x)%float eqn:E; [|reflexivity].
        rewrite Forall_forall in HV.
        apply (eqb_key (HV k' Hk') Hx) in E. destruct (D _ Hz E). }
      destruct Hin as [Hin|[E|Hin]].
      * apply Other, in_or_app. auto.
      * injection E as <- <-. split; [apply in_or_app; auto | exact Einc].
      * apply Other, in_or_app. auto.
    + assert (In (k, Size.incr c) (m1 ++ (k, Size.incr c) :: m2)) as Hnew
          by apply in_elt.
      intros y Hy. apply in_app_or in Hy. destruct Hy as [Hy|[<-|[]]].
      * destruct (Hcompl y Hy) as [e [Hin Key]]. rewrite E1 in Hin.
        apply in_app_or in Hin. destruct Hin as [Hin|[<-|Hin]].
        -- exists e. split; [apply in_or_app; auto | exact Key].
        -- exists (k, Size.incr c). split; [exact Hnew | exact Key].
        -- exists e. split; [apply in_or_app; right; right; exact Hin | exact Key].
      * exists (k, Size.incr c). split; [exact Hnew | exact Ke].
Qed.

Lemma counts_of_inv V :
  Forall Spec.number V -> (N.of_nat (length V) < Size.modulus)%N ->
  counts_inv V (counts_of V).
Proof.
  induction V as [|x V IH] using rev_ind; intros HV Hlen.
  - apply counts_inv_nil.
  - unfold counts_of. rewrite fold_left_app. cbn [fold_left].
    apply Forall_app in HV. destruct HV as [HV Hx].
    inversion Hx; subst. rewrite length_app in Hlen. cbn [length] in Hlen.
    apply counts_inv_step; auto; try lia. apply IH; auto. lia.
Qed.

(** ** The loop over the table (lines 345-354) *)

Lemma max_count_app P e : max_count (P ++ [e]) = N.max (max_count P) (snd e).
Proof.
  unfold max_count. induction P as [|a P IH]; cbn [app map fold_right].
  - apply N.max_comm.
  - rewrite IH. apply N.max_assoc.
Qed.

Lemma max_count_ge m e : In e m -> (snd e <= max_count m)%N.
Proof.
  unfold max_count. induction m as [|a m IH]; intros Hin; [destruct Hin|].
  cbn [map fold_right]. destruct Hin as [->|Hin]; [lia|].
  specialize (IH Hin). lia.
Qed.

Lemma max_count_attained m :
  (0 < max_count m)%N -> exists e, In e m /\ snd e = max_count m.
Proof.
  unfold max_count. induction m as [|a m IH]; cbn [map fold_right]; intros H.
  - lia.
  - destruct (N.max_spec (snd a) (fold_right N.max 0%N (map snd m)))
      as [[L E]|[L E]]; rewrite E in *.
    + destruct (IH H) as [e [He Ee]]. exists e. split; [right|]; assumption.
    + exists a. split; [left|]; reflexivity.
Qed.

Lemma sum_snoc l x : l <> [] -> Spec.sum (l ++ [x]) = (Spec.sum l + x)%float.
Proof.
  destruct l as [|a l]; [congruence|]. intros _.
  cbn [app Spec.sum]. unfold Real.accumulate. rewrite fold_left_app.
  reflexivity.
Qed.

Lemma filter_none A (f : A -> bool) l :
  (forall x, In x l -> f x = false) -> filter f l = [].
Proof.
  induction l as [|a l IH]; intros H; [reflexivity|]. cbn [filter].
  rewrite (H a) by (left; reflexivity). apply IH. intros x Hx. apply H.
  right. exact Hx.
Qed.

Lemma mode_loop P :
  Forall (fun e => (0 < snd e)%N) P ->
  (N.of_nat (length P) < Size.modulus)%N ->
  fold_left mode_step P (0%float, 0%N, 0%N)
  = (Spec.sum (modal_keys P), max_count P, N.of_nat (length (modal_keys P))).
Proof.
  induction P as [|e P IH] using rev_ind; intros Hpos Hlen.
  - reflexivity.
  - apply Forall_app in Hpos. destruct Hpos as [Hpos He].
    inversion He as [|? ? Hc _]; subst.
    rewrite length_app in Hlen. cbn [length] in Hlen.
    rewrite fold_left_app. cbn [fold_left]. rewrite IH by (auto; lia).
    unfold mode_step, modal_keys. rewrite max_count_app, filter_app, map_app.
    cbn [filter].
    pose proof (filter_length_le (fun e0 => (snd e0 =? max_count P)%N) P) as FL.
    destruct (N.ltb_spec (max_count P) (snd e)) as [L|L].
    + rewrite N.max_r by lia. rewrite N.eqb_refl.
      assert (filter (fun e0 => (snd e0 =? snd e)%N) P = []) as ->.
      { apply filter_none. intros z Hz.
        pose proof (max_count_ge _ _ Hz). apply N.eqb_neq. lia. }
      reflexivity.
    + rewrite N.max_l by lia.
      destruct (N.eqb_spec (snd e) (max_count P)) as [E|E].
      * cbn [map]. rewrite sum_snoc.
        -- rewrite length_app, !length_map. cbn [length].
           rewrite incr_small by lia.
           f_equal. lia.
        -- destruct (max_count_attained P) as [z [Hz Ez]]; [lia|].
           intros Hnil. apply map_eq_nil in Hnil.
           assert (In z (filter (fun e0 => (snd e0 =? max_count P)%N) P)) as Hin
               by (apply filter_In; split; [exact Hz | apply N.eqb_eq, Ez]).
           rewrite Hnil in Hin. destruct Hin.
      * cbn [map]. rewrite app_nil_r. reflexivity.
Qed.

(** Division and remainder by constants, for [lia]. *)
Ltac Zify.zify_post_hook ::= Z.div_mod_to_equations.

(** ** [compute_statistics] in closed form *)

Lemma at1_nth A (v : list A) (k : nat) (d : A) :
  (k < length v)%nat -> at1 v (N.of_nat k + 1) = Some (nth k v d).
Proof. intros H. rewrite at1_nth_error. apply nth_error_nth', H. Qed.

Lemma add_small a b : (a + b < Size.modulus)%N -> Size.add a b = (a + b)%N.
Proof. intros H. unfold Size.add, Size.wrap. apply N.mod_small, H. Qed.

Lemma median_of_sorted_spec l :
  l <> [] -> (N.of_nat (length l) < Size.modulus)%N ->
  median_of_sorted l = Some (Spec.median l).
Proof.
  intros Hne Hlen. unfold median_of_sorted, Spec.median.
  rewrite (vsize_length _ Hlen).
  assert (0 < length l)%nat as Hpos by (destruct l; [congruence | simpl; lia]).
  destruct (Nat.Even_or_Odd (length l)) as [[k Hk]|[k Hk]].
  - assert (Nat.even (length l) = true) as -> by (apply Nat.even_spec; exists k; exact Hk).
    assert ((N.of_nat (length l) mod 2 =? 0)%N = true) as -> by (apply N.eqb_eq; lia).
    replace (N.of_nat (length l) / 2)%N with (N.of_nat (k - 1) + 1)%N by lia.
    rewrite (at1_nth _ 0%float) by lia.
    rewrite add_small by lia.
    replace (N.of_nat (k - 1) + 1 + 1)%N with (N.of_nat k + 1)%N by lia.
    rewrite (at1_nth _ 0%float) by lia.
    replace (length l / 2 - 1)%nat with (k - 1)%nat by lia.
    replace (length l / 2)%nat with k by lia.
    reflexivity.
  - assert (Nat.even (length l) = false) as ->.
    { rewrite <- Nat.negb_odd.
      assert (Nat.odd (length l) = true) as -> by (apply Nat.odd_spec; exists k; exact Hk).
      reflexivity. }
    assert ((N.of_nat (length l) mod 2 =? 0)%N = false) as -> by (apply N.eqb_neq; lia).
    rewrite add_small by lia.
    replace (N.of_nat (length l) / 2 + 1)%N with (N.of_nat k + 1)%N by lia.
    rewrite (at1_nth _ 0%float) by lia.
    replace ((length l - 1) / 2)%nat with k by lia.
    reflexivity.
Qed.

Lemma deviations_and_counts_fold V mean (a : float) (m : std_map) :
  fold_left
    (fun st x => ((fst st + Real.pow2 (x - mean))%float,
                  count_occurrence x (snd st))) V (a, m)
  = (Real.accumulate (map (fun x => Real.pow2 (x - mean)) V) a,
     fold_left (fun m x => count_occurrence x m) V m).
Proof.
  revert a m. induction V as [|x V IH]; intros a m; [reflexivity|].
  cbn [fold_left map Real.accumulate fst snd]. rewrite IH. reflexivity.
Qed.

Lemma deviations_and_counts_loop V mean :
  (N.of_nat (length V) < Size.modulus)%N ->
  for_loop (N.to_nat (vsize V)) 1 (deviations_and_counts V mean) (0%float, [])
  = Some (Spec.sum_sq_dev V mean, counts_of V).
Proof.
  intros Hlen. rewrite (vsize_length _ Hlen), Nat2N.id.
  rewrite (@for_loop_fold _ _
             (fun st x => ((fst st + Real.pow2 (x - mean))%float,
                           count_occurrence x (snd st)))
             V (deviations_and_counts V mean)) with (done := []); auto.
  - rewrite deviations_and_counts_fold. reflexivity.
  - intros i x s H. unfold deviations_and_counts. rewrite H. reflexivity.
Qed.

Lemma compute_statistics_eq poses V :
  V <> [] -> (N.of_nat (length V) < Size.modulus)%N ->
  compute_statistics poses V = Some (statistics_of_values poses V).
Proof.
  intros Hne Hlen. unfold compute_statistics, statistics_of_values.
  assert (0 < length V)%nat as Hpos by (destruct V; [congruence | simpl; lia]).
  pose proof (std_sort_length V) as SL.
  rewrite median_of_sorted_spec;
    [| intros E; rewrite E in SL; simpl in SL; lia | rewrite SL; exact Hlen].
  change 1%N with (N.of_nat 0 + 1)%N at 1.
  rewrite (at1_nth _ 0%float) by lia.
  rewrite (@vsize_length _ (std_sort V)) by (rewrite SL; exact Hlen).
  rewrite SL.
  replace (N.of_nat (length V)) with (N.of_nat (length V - 1) + 1)%N at 1 by lia.
  rewrite (at1_nth _ 0%float) by lia.
  rewrite deviations_and_counts_loop by exact Hlen.
  rewrite (vsize_length _ Hlen).
  destruct (fold_left mode_step (counts_of V) (0%float, 0%N, 0%N)) as [[a2 ms] mc].
  reflexivity.
Qed.

(** ** The mode *)

Lemma map_update_length k f m : (length (map_update k f m) <= S (length m))%nat.
Proof.
  induction m as [|[k' c] m IH]; cbn [map_update length]; [lia|].
  destruct (k <? k')%float; [cbn [length]; lia|].
  destruct (k' <? k)%float; cbn [length]; lia.
Qed.

Lemma counts_of_length V : (length (counts_of V) <= length V)%nat.
Proof.
  unfold counts_of. induction V as [|x V IH] using rev_ind; [simpl; lia|].
  rewrite fold_left_app, length_app. cbn [fold_left length].
  unfold count_occurrence at 1.
  destruct (_ =? 0)%N;
    match goal with |- (length (map_update ?k ?f ?m) <= _)%nat =>
      pose proof (map_update_length k f m) end; lia.
Qed.

Lemma StronglySorted_filter A (R : A -> A -> Prop) (f : A -> bool) l :
  StronglySorted R l -> StronglySorted R (filter f l).
Proof.
  induction 1 as [|a l Hs IH Ha]; cbn [filter]; [constructor|].
  destruct (f a); [|exact IH]. constructor; [exact IH|].
  rewrite Forall_forall in *. intros x Hx. apply filter_In in Hx. apply Ha, Hx.
Qed.

Lemma modal_keys_sorted m :
  StronglySorted entry_lt m -> number_keys m ->
  StronglySorted Spec.lt (modal_keys m).
Proof.
  intros Hs Hn. unfold modal_keys.
  apply (StronglySorted_filter (fun e => (snd e =? max_count m)%N)) in Hs.
  assert (number_keys (filter (fun e => (snd e =? max_count m)%N) m)) as Hn'.
  { unfold number_keys in *. rewrite Forall_forall in *.
    intros x Hx. apply filter_In in Hx. apply Hn, Hx. }
  induction Hs as [|e l Hs IH He]; cbn [map]; constructor.
  - inversion Hn'; auto.
  - inversion Hn' as [|? ? Ne Nl]; subst. rewrite Forall_forall in *.
    intros t Ht. apply in_map_iff in Ht. destruct Ht as [z [<- Hz]].
    apply (ltb_key Ne (Nl z Hz)). apply (He z Hz).
Qed.

Lemma max_count_group_size V m :
  Forall Spec.number V -> counts_inv V m ->
  max_count m = N.of_nat (Spec.max_group_size V).
Proof.
  intros HV [Hs Hn Hsound Hcompl]. unfold Spec.max_group_size.
  apply N.le_antisymm.
  - destruct (N.eq_dec (max_count m) 0) as [->|Hz]; [lia|].
    destruct (max_count_attained m) as [[k c] [He Ee]]; [lia|].
    rewrite <- Ee. cbn [snd]. destruct (Hsound k c He) as [Hk ->].
    assert (Spec.group_size V k <= list_max (map (Spec.group_size V) V))%nat; [|lia].
    pose proof (proj1 (list_max_le (map (Spec.group_size V) V) _) (le_n _)) as F.
    rewrite Forall_forall in F. apply F, in_map, Hk.
  - assert (list_max (map (Spec.group_size V) V) <= N.to_nat (max_count m))%nat; [|lia].
    apply list_max_le. rewrite Forall_forall. intros g Hg.
    apply in_map_iff in Hg. destruct Hg as [y [<- Hy]].
    destruct (Hcompl y Hy) as [[k c] [He Ke]]. cbn [fst] in Ke.
    destruct (Hsound k c He) as [Hk Ec].
    rewrite Forall_forall in HV.
    rewrite <- (group_size_key (V:=V) ltac:(rewrite Forall_forall; exact HV)
                  (HV k Hk) (HV y Hy) Ke).
    pose proof (max_count_ge _ _ He) as G. cbn [snd] in G. lia.
Qed.

Lemma modal_keys_modal_values V :
  Forall Spec.number V -> (N.of_nat (length V) < Size.modulus)%N ->
  Spec.modal_values V (modal_keys (counts_of V)).
Proof.
  intros HV Hlen. pose proof (counts_of_inv HV Hlen) as I.
  pose proof (max_count_group_size HV I) as Emax.
  destruct I as [Hs Hn Hsound Hcompl].
  pose proof HV as HV'. rewrite Forall_forall in HV'.
  split; [|split].
  - apply modal_keys_sorted; assumption.
  - intros t Ht. unfold modal_keys in Ht. apply in_map_iff in Ht.
    destruct Ht as [[k c] [<- Hz]]. apply filter_In in Hz.
    apply (Hsound k c), Hz.
  - intros x Hx. split.
    + intros G. destruct (Hcompl x Hx) as [[k c] [He Ke]]. cbn [fst] in Ke.
      destruct (Hsound k c He) as [Hk Ec].
      exists k. split.
      * unfold modal_keys. apply in_map_iff. exists (k, c). split; [reflexivity|].
        apply filter_In. split; [exact He|]. cbn [snd]. apply N.eqb_eq.
        rewrite Emax, Ec, <- G.
        rewrite (group_size_key HV (HV' k Hk) (HV' x Hx) Ke). reflexivity.
      * apply (eqb_key (HV' k Hk) (HV' x Hx)), Ke.
    + intros [t [Ht E]]. unfold modal_keys in Ht. apply in_map_iff in Ht.
      destruct Ht as [[k c] [<- Hz]]. cbn [fst] in E.
      apply filter_In in Hz. destruct Hz as [He Ec]. cbn [snd] in Ec.
      apply N.eqb_eq in Ec. destruct (Hsound k c He) as [Hk Ec'].
      apply (eqb_key (HV' k Hk) (HV' x Hx)) in E.
      rewrite <- (group_size_key HV (HV' k Hk) (HV' x Hx) E). lia.
Qed.

Lemma mode_of_values poses V :
  Forall Spec.number V -> (N.of_nat (length V) < Size.modulus)%N ->
  s_mode (statistics_of_values poses V)
  = Spec.arithmetic_mean (modal_keys (counts_of V)).
Proof.
  intros HV Hlen. pose proof (counts_of_inv HV Hlen) as [Hs Hn Hsound Hcompl].
  cbn [statistics_of_values s_mode]. rewrite mode_loop.
  - reflexivity.
  - rewrite Forall_forall. intros [k c] He. cbn [snd].
    destruct (Hsound k c He) as [Hk ->]. rewrite Forall_forall in HV.
    pose proof (group_size_pos V (HV k Hk) Hk). lia.
  - pose proof (counts_of_length V). lia.
Qed.

(** With a single largest group the mean of the tied values is the value. *)
Lemma modal_values_unique V tied :
  V <> [] -> Forall Spec.number V -> Spec.modal_values V tied ->
  (forall x y, In x V -> In y V ->
     Spec.group_size V x = Spec.max_group_size V ->
     Spec.group_size V y = Spec.max_group_size V -> Spec.eq x y) ->
  exists v, tied = [v] /\ In v V
            /\ Spec.group_size V v = Spec.max_group_size V.
Proof.
  intros Hne HV [Hs [Hin Hiff]] Huniq. rewrite Forall_forall in HV.
  assert (forall t, In t tied -> Spec.group_size V t = Spec.max_group_size V) as Hmax.
  { intros t Ht. apply (Hiff t (Hin t Ht)). exists t. split; [exact Ht|].
    apply (eqb_key (HV t (Hin t Ht)) (HV t (Hin t Ht))). reflexivity. }
  destruct tied as [|t [|t' tied]].
  - exfalso.
    assert (exists x, In x V /\ Spec.group_size V x = Spec.max_group_size V)
      as [x [Hx G]].
    { unfold Spec.max_group_size. clear - Hne.
      generalize (Spec.group_size V). intros g.
      induction V as [|a V IH]; [congruence|].
      destruct V as [|b V].
      - exists a. split; [left; reflexivity|]. simpl. lia.
      - destruct IH as [x [Hx G]]; [congruence|].
        cbn [map list_max fold_right] in *. unfold list_max in G.
        destruct (Nat.max_spec (g a) (Nat.max (g b) (fold_right Nat.max 0%nat (map g V))))
          as [[L E]|[L E]]; rewrite E.
        + exists x. split; [right; exact Hx | exact G].
        + exists a. split; [left|]; reflexivity. }
    apply (Hiff x Hx) in G. destruct G as [t [[] _]].
  - exists t. split; [reflexivity|]. split; [apply Hin; left; reflexivity|].
    apply Hmax. left. reflexivity.
  - exfalso. inversion Hs as [|? ? _ Ht]; subst.
    inversion Ht as [|? ? L _]; subst.
    assert (Spec.eq t t') as E.
    { apply Huniq; try apply Hin; try apply Hmax; simpl; auto. }
    assert (In t (t :: t' :: tied)) as I1 by (left; reflexivity).
    assert (In t' (t :: t' :: tied)) as I2 by (right; left; reflexivity).
    apply (eqb_key (HV t (Hin t I1)) (HV t' (Hin t' I2))) in E.
    apply (ltb_key (HV t (Hin t I1)) (HV t' (Hin t' I2))) in L.
    rewrite E in L. exact (key_lt_irrefl L).
Qed.

Lemma arithmetic_mean_single v : Spec.arithmetic_mean [v] = v.
Proof.
  unfold Spec.arithmetic_mean. cbn [Spec.sum length Real.accumulate fold_left].
  change (Real.of_Size (N.of_nat 1)) with 1%float. apply div_one.
Qed.

(** ** Least and greatest element *)

Lemma sorted_extremes V :
  V <> [] -> Forall Spec.number V ->
  let lo := nth 0 (std_sort V) 0%float in
  let hi := nth (length V - 1) (std_sort V) 0%float in
  In lo V /\ Forall (Spec.le lo) V /\ In hi V /\ Forall (fun x => Spec.le x hi) V.
Proof.
  intros Hne HV lo hi.
  pose proof (std_sort_perm V) as P. pose proof (std_sort_length V) as SL.
  pose proof (std_sort_sorted HV) as Hs.
  assert (Forall Spec.number (std_sort V)) as HS
      by (apply (Permutation_Forall (Permutation_sym P)), HV).
  assert (0 < length V)%nat as Hpos by (destruct V; [congruence | simpl; lia]).
  assert (nth_error (std_sort V) 0 = Some lo) as Elo
      by (apply nth_error_nth'; lia).
  assert (nth_error (std_sort V) (length V - 1) = Some hi) as Ehi
      by (apply nth_error_nth'; lia).
  repeat split.
  - apply (Permutation_in _ P). eapply nth_error_In, Elo.
  - rewrite Forall_forall. intros x Hx.
    apply (Permutation_in _ (Permutation_sym P)) in Hx.
    apply In_nth_error in Hx. destruct Hx as [j Hj].
    apply (StronglySorted_nth_error Hs HS (i:=0) (j:=j)); auto. lia.
  - apply (Permutation_in _ P). eapply nth_error_In, Ehi.
  - rewrite Forall_forall. intros x Hx.
    apply (Permutation_in _ (Permutation_sym P)) in Hx.
    apply In_nth_error in Hx. destruct Hx as [j Hj].
    assert (j < length (std_sort V))%nat by (apply nth_error_Some; congruence).
    apply (StronglySorted_nth_error Hs HS (i:=j) (j:=length V - 1)); auto. lia.
Qed.

(** ** All the orders in which given values can arrive *)

Lemma in_insert_everywhere A (x : A) l1 l2 :
  In (l1 ++ x :: l2) (insert_everywhere x (l1 ++ l2)).
Proof.
  induction l1 as [|a l1 IH]; cbn [app insert_everywhere].
  - destruct l2; left; reflexivity.
  - right. apply in_map, IH.
Qed.

Lemma Permutation_permutations A (l l' : list A) :
  Permutation l l' -> In l' (permutations l).
Proof.
  revert l'. induction l as [|x l IH]; intros l' P.
  - apply Permutation_nil in P. subst. left. reflexivity.
  - assert (In x l') as Hx by (apply (Permutation_in _ P); left; reflexivity).
    apply in_split in Hx. destruct Hx as [l1 [l2 ->]].
    apply Permutation_cons_app_inv in P.
    cbn [permutations]. apply in_flat_map. exists (l1 ++ l2).
    split; [apply IH, P | apply in_insert_everywhere].
Qed.

Section Claims.

Variable Pose : Type.

(** ** [finalize_values()] on a non-empty ensemble *)

Lemma finalize_values_ok (w : World Pose) :
  values_ (self w) <> [] ->
  (N.of_nat (length (values_ (self w))) < Size.modulus)%N ->
  (0 < poses_in_ensemble (self w))%N ->
  derived_finalized_ (self w) = false ->
  finalize_values w
  = (Ok tt,
     {| self := set_statistics
                  (statistics_of_values (poses_in_ensemble (self w))
                     (values_ (self w)))
                  (set_derived_finalized_ true (self w));
        output := output w; inbox := inbox w; sent := sent w |}).
Proof.
  intros Hne Hlen Hpos Hdf.
  unfold finalize_values, bind, get_self. rewrite Hdf.
  unfold modify, runtime_assert.
  apply N.ltb_lt in Hpos. rewrite Hpos. cbn [ret self output inbox sent].
  cbn [set_derived_finalized_ values_ base poses_in_ensemble].
  rewrite (compute_statistics_eq _ Hne Hlen). reflexivity.
Qed.

(** The statistics [finalize_values()] leaves in the object. *)
Lemma finalize_values_fields (w : World Pose) V :
  values_ (self w) = V -> V <> [] ->
  poses_in_ensemble (self w) = N.of_nat (length V) ->
  (N.of_nat (length V) < Size.modulus)%N ->
  derived_finalized_ (self w) = false ->
  exists w', finalize_values w = (Ok tt, w')
    /\ derived_finalized_ (self w') = true
    /\ values_ (self w') = V
    /\ base (self w') = base (self w)
    /\ statistics_of (self w') = statistics_of_values (N.of_nat (length V)) V.
Proof.
  intros EV Hne Hp Hlen Hdf. subst V.
  assert (0 < length (values_ (self w)))%nat as Hpos
      by (destruct (values_ (self w)); [congruence | simpl; lia]).
  eexists. split.
  - apply finalize_values_ok; auto. rewrite Hp. lia.
  - rewrite Hp. cbn. repeat split.
Qed.

End Claims.

(** ** The ensembles of the unit tests and of the specification *)

Lemma ensemble1_all_orders :
  forallb (fun V => match compute_statistics 5 V with
                    | Some st => ensemble1_expected st
                    | None => false
                    end) (permutations ensemble1) = true.
Proof. vm_compute. reflexivity. Qed.

Section Claims_statistics.

Variable Pose : Type.

(** C1.  After [finalize_values()] on a non-empty value sequence [V] of
    length [n] the memoized statistics are: mean = sum(V)/n; min and max the
    least and greatest element of V; range = max - min; stddev the population
    form sqrt(sum((x - mean)^2)/n); stderr = stddev/sqrt(n).  For every order
    in which the measured values 1,1,2,1,0 can have arrived this gives
    mean 1, stddev sqrt(0.4) (0.6325 to four places), stderr 0.2828 to four
    places, min 0, max 2, range 2. *)
Theorem finalize_values_statistics :
  (forall (w : World Pose) (V : list float),
     values_ (self w) = V -> V <> [] ->
     poses_in_ensemble (self w) = N.of_nat (length V) ->
     (N.of_nat (length V) < Size.modulus)%N ->
     derived_finalized_ (self w) = false ->
     exists w', finalize_values w = (Ok tt, w') /\
       let m := self w' in
       let n := Real.of_Size (N.of_nat (length V)) in
       derived_finalized_ m = true /\
       mean_ m = (Real.accumulate V 0 / n)%float /\
       range_ m = (max_ m - min_ m)%float /\
       stddev_ m = PrimFloat.sqrt (Spec.sum_sq_dev V (mean_ m) / n) /\
       stderr_ m = (stddev_ m / PrimFloat.sqrt n)%float /\
       (Forall Spec.number V ->
        In (min_ m) V /\ Forall (Spec.le (min_ m)) V /\
        In (max_ m) V /\ Forall (fun x => Spec.le x (max_ m)) V))
  /\
  (forall (w : World Pose) (V : list float),
     Permutation ensemble1 V ->
     values_ (self w) = V ->
     poses_in_ensemble (self w) = 5%N ->
     derived_finalized_ (self w) = false ->
     exists w', finalize_values w = (Ok tt, w') /\
       let m := self w' in
       mean_ m = 1%float /\
       stddev_ m = PrimFloat.sqrt 0.4 /\
       close_to (stddev_ m) 0.6325 0.0001 = true /\
       close_to (stderr_ m) 0.2828 0.0001 = true /\
       min_ m = 0%float /\ max_ m = 2%float /\ range_ m = 2%float).
Proof.
  split.
  - intros w V EV Hne Hp Hlen Hdf.
    destruct (finalize_values_fields w EV Hne Hp Hlen Hdf)
      as [w' [Hrun [Hdf' [_ [_ Hst]]]]].
    exists w'. split; [exact Hrun|]. cbn zeta.
    pose proof (f_equal s_mean Hst) as Emean.
    pose proof (f_equal s_range Hst) as Erange.
    pose proof (f_equal s_stddev Hst) as Esd.
    pose proof (f_equal s_stderr Hst) as Ese.
    pose proof (f_equal s_min Hst) as Emin.
    pose proof (f_equal s_max Hst) as Emax.
    cbn [statistics_of statistics_of_values s_mean s_range s_stddev s_stderr
         s_min s_max] in Emean, Erange, Esd, Ese, Emin, Emax.
    repeat split.
    + exact Hdf'.
    + exact Emean.
    + rewrite Erange, Emax, Emin. reflexivity.
    + rewrite Esd, Emean. reflexivity.
    + rewrite Ese, Esd. reflexivity.
    + rewrite Emin. apply (sorted_extremes Hne H).
    + rewrite Emin. apply (sorted_extremes Hne H).
    + rewrite Emax. apply (sorted_extremes Hne H).
    + rewrite Emax. apply (sorted_extremes Hne H).
  - intros w V P EV Hp Hdf.
    pose proof (Permutation_length P) as EL. cbn in EL.
    assert (V <> []) as Hne by (intros ->; discriminate).
    assert (N.of_nat (length V) < Size.modulus)%N as Hlen
        by (rewrite <- EL; reflexivity).
    assert (poses_in_ensemble (self w) = N.of_nat (length V)) as Hp'
        by (rewrite <- EL; exact Hp).
    destruct (finalize_values_fields w EV Hne Hp' Hlen Hdf)
      as [w' [Hrun [_ [_ [_ Hst]]]]].
    exists w'. split; [exact Hrun|]. cbn zeta.
    pose proof (proj1 (forallb_forall _ _) ensemble1_all_orders V
                  (Permutation_permutations P)) as C.
    cbn beta in C. rewrite (compute_statistics_eq _ Hne Hlen) in C.
    rewrite <- EL in Hst. change (N.of_nat 5) with 5%N in Hst.
    rewrite <- Hst in C. unfold ensemble1_expected in C.
    cbn [statistics_of s_mean s_stddev s_stderr s_min s_max s_range] in C.
    repeat (apply andb_true_iff in C; destruct C as [C ?]).
    repeat match goal with
           | H : Leibniz.eqb _ _ = true |- _ => apply Leibniz.eqb_spec in H
           end.
    repeat split; assumption.
Qed.

End Claims_statistics.

Lemma ensemble_tied_all_orders :
  forallb (fun V => match compute_statistics 5 V with
                    | Some st => Leibniz.eqb (s_mode st) 1.5
                    | None => false
                    end) (permutations ensemble_tied) = true.
Proof. vm_compute. reflexivity. Qed.

Section Claims_median_mode.

Variable Pose : Type.

(** C2.  For a non-empty value sequence of length [n] the memoized median
    is taken on the ascending-sorted copy: the mean of the elements at
    0-based positions n/2 - 1 and n/2 when [n] is even, the element at
    0-based position (n-1)/2 when [n] is odd.  The odd sequence 1,1,1,1,0
    has median 1 and the even sequence 0,1,1,2,1,1,3,0 has median
    (1+1)/2 = 1. *)
Theorem finalize_values_median :
  (forall (w : World Pose) (V : list float),
     values_ (self w) = V -> V <> [] ->
     poses_in_ensemble (self w) = N.of_nat (length V) ->
     (N.of_nat (length V) < Size.modulus)%N ->
     derived_finalized_ (self w) = false ->
     exists w', finalize_values w = (Ok tt, w') /\
       let n := length V in
       let sorted := std_sort V in
       Permutation sorted V /\
       (Forall Spec.number V -> StronglySorted Spec.le sorted) /\
       median_ (self w') =
         if Nat.even n
         then ((nth (n / 2 - 1) sorted 0 + nth (n / 2) sorted 0) / 2)%float
         else nth ((n - 1) / 2) sorted 0%float)
  /\
  (forall (w : World Pose),
     derived_finalized_ (self w) = false ->
     (values_ (self w) = ensemble_odd ->
      poses_in_ensemble (self w) = 5%N ->
      exists w', finalize_values w = (Ok tt, w')
                 /\ median_ (self w') = 1%float)
     /\
     (values_ (self w) = ensemble_even ->
      poses_in_ensemble (self w) = 8%N ->
      exists w', finalize_values w = (Ok tt, w')
                 /\ std_sort ensemble_even = [0; 0; 1; 1; 1; 1; 2; 3]%float
                 /\ median_ (self w') = ((1 + 1) / 2)%float
                 /\ median_ (self w') = 1%float)).
Proof.
  assert (forall (w : World Pose) (V : list float),
     values_ (self w) = V -> V <> [] ->
     poses_in_ensemble (self w) = N.of_nat (length V) ->
     (N.of_nat (length V) < Size.modulus)%N ->
     derived_finalized_ (self w) = false ->
     exists w', finalize_values w = (Ok tt, w') /\
       median_ (self w') =
         if Nat.even (length V)
         then ((nth (length V / 2 - 1) (std_sort V) 0
                + nth (length V / 2) (std_sort V) 0) / 2)%float
         else nth ((length V - 1) / 2) (std_sort V) 0%float) as General.
  { intros w V EV Hne Hp Hlen Hdf.
    destruct (finalize_values_fields w EV Hne Hp Hlen Hdf)
      as [w' [Hrun [_ [_ [_ Hst]]]]].
    exists w'. split; [exact Hrun|].
    pose proof (f_equal s_median Hst) as E.
    cbn [statistics_of statistics_of_values s_median] in E.
    rewrite E. unfold Spec.median. rewrite std_sort_length. reflexivity. }
  split.
  - intros w V EV Hne Hp Hlen Hdf.
    destruct (General w V EV Hne Hp Hlen Hdf) as [w' [Hrun E]].
    exists w'. split; [exact Hrun|]. cbn zeta. split; [|split].
    + apply std_sort_perm.
    + apply std_sort_sorted.
    + exact E.
  - intros w Hdf. split; intros EV Hp.
    + destruct (General w _ EV) as [w' [Hrun E]];
        [discriminate | exact Hp | reflexivity | exact Hdf |].
      exists w'. split; [exact Hrun|]. rewrite E. reflexivity.
    + destruct (General w _ EV) as [w' [Hrun E]];
        [discriminate | exact Hp | reflexivity | exact Hdf |].
      exists w'. split; [exact Hrun|]. rewrite E. repeat split; reflexivity.
Qed.

(** C3.  For a non-empty value sequence (of numbers) the memoized mode
    comes from grouping the values under exact floating-point equality and
    taking the largest group size: it is the arithmetic mean of the distinct
    values whose group has that size, each taken once; so when one distinct
    value alone attains the largest size the mode is that value.  In any
    order, the values 1,1,2,2,3 give (1+2)/2 = 1.5. *)
Theorem finalize_values_mode :
  (forall (w : World Pose) (V : list float),
     values_ (self w) = V -> V <> [] ->
     poses_in_ensemble (self w) = N.of_nat (length V) ->
     (N.of_nat (length V) < Size.modulus)%N ->
     derived_finalized_ (self w) = false ->
     Forall Spec.number V ->
     exists w' tied, finalize_values w = (Ok tt, w') /\
       Spec.modal_values V tied /\
       mode_ (self w') = Spec.arithmetic_mean tied /\
       ((forall x y, In x V -> In y V ->
           Spec.group_size V x = Spec.max_group_size V ->
           Spec.group_size V y = Spec.max_group_size V -> Spec.eq x y) ->
        tied = [mode_ (self w')] /\
        In (mode_ (self w')) V /\
        Spec.group_size V (mode_ (self w')) = Spec.max_group_size V))
  /\
  (forall (w : World Pose) (V : list float),
     Permutation ensemble_tied V ->
     values_ (self w) = V ->
     poses_in_ensemble (self w) = 5%N ->
     derived_finalized_ (self w) = false ->
     exists w', finalize_values w = (Ok tt, w') /\
       mode_ (self w') = ((1 + 2) / 2)%float /\
       mode_ (self w') = 1.5%float).
Proof.
  split.
  - intros w V EV Hne Hp Hlen Hdf HV.
    destruct (finalize_values_fields w EV Hne Hp Hlen Hdf)
      as [w' [Hrun [_ [_ [_ Hst]]]]].
    exists w', (modal_keys (counts_of V)).
    pose proof (f_equal s_mode Hst) as E.
    rewrite (mode_of_values _ HV Hlen) in E.
    cbn [statistics_of s_mode] in E.
    pose proof (modal_keys_modal_values HV Hlen) as MV.
    split; [exact Hrun|]. split; [exact MV|]. split; [exact E|].
    intros Huniq.
    destruct (modal_values_unique Hne HV MV Huniq) as [v [Ev [Hin Hg]]].
    rewrite Ev in E. rewrite arithmetic_mean_single in E.
    rewrite E, Ev. repeat split; assumption.
  - intros w V P EV Hp Hdf.
    pose proof (Permutation_length P) as EL. cbn in EL.
    assert (V <> []) as Hne by (intros ->; discriminate).
    assert (N.of_nat (length V) < Size.modulus)%N as Hlen
        by (rewrite <- EL; reflexivity).
    assert (poses_in_ensemble (self w) = N.of_nat (length V)) as Hp'
        by (rewrite <- EL; exact Hp).
    destruct (finalize_values_fields w EV Hne Hp' Hlen Hdf)
      as [w' [Hrun [_ [_ [_ Hst]]]]].
    exists w'. split; [exact Hrun|].
    pose proof (proj1 (forallb_forall _ _) ensemble_tied_all_orders V
                  (Permutation_permutations P)) as C.
    cbn beta in C. rewrite (compute_statistics_eq _ Hne Hlen) in C.
    rewrite <- EL in Hst. change (N.of_nat 5) with 5%N in Hst.
    rewrite <- Hst in C. cbn [statistics_of s_mode] in C.
    apply Leibniz.eqb_spec in C. rewrite C. split; reflexivity.
Qed.

End Claims_median_mode.

Section Claims_accumulator.

Variable Pose : Type.

(** ** Adding a value *)

Lemma add_value (w : World Pose) pose metric :
  simple_metric_ (self w) = Some metric ->
  (increment_count ;; add_pose_to_ensemble pose) w
  = (Ok tt, with_self (added metric pose (self w)) w).
Proof.
  intros Hm. unfold bind, increment_count, add_pose_to_ensemble, modify, bind,
    get_self. cbn [self set_base simple_metric_]. rewrite Hm. reflexivity.
Qed.


End Claims_accumulator.

Lemma take_first_skip A (p : A -> bool) before x after :
  Forall (fun y => p y = false) before -> p x = true ->
  take_first p (before ++ x :: after) = Some (x, before ++ after).
Proof.
  intros Hb Hx. induction Hb as [|y before Hy Hb IH]; cbn [app take_first].
  - rewrite Hx. reflexivity.
  - rewrite Hy, IH. reflexivity.
Qed.

Section Claims_merge.

Variable Pose : Type.

(** C7.  A distributed-merge receive first takes a count from whichever
    peer's message is next.  A count of 0 ends it at once: the peer's rank is
    returned and the accumulator is untouched.  A positive count [n] is
    followed by the next message of that same peer (messages of other peers
    stay queued); its [n] values are appended to the Value Set, the count
    grows by [n], and the peer's rank is returned. *)
Theorem recv_mpi_summary_merges :
  (forall (w : World Pose) (source : Z) rest,
     inbox w = (source, MPI_INT 0) :: rest ->
     (0 <= source)%Z ->
     recv_mpi_summary w = (Ok (Size_of_int source), set_inbox rest w))
  /\
  (forall (w : World Pose) (source n : Z) before vs after,
     inbox w = (source, MPI_INT n) :: before ++ (source, MPI_DOUBLE vs) :: after ->
     Forall (fun msg => fst msg <> source) before ->
     (0 <= source)%Z -> (0 < n)%Z -> length vs = Z.to_nat n ->
     exists w', recv_mpi_summary w = (Ok (Size_of_int source), w')
       /\ values_ (self w') = values_ (self w) ++ vs
       /\ poses_in_ensemble (self w')
          = Size.add (poses_in_ensemble (self w)) (Size_of_int n)
       /\ inbox w' = before ++ after
       /\ finalized (self w') = finalized (self w)
       /\ output w' = output w /\ sent w' = sent w).
Proof.
  split.
  - intros w source rest Hin Hs.
    unfold recv_mpi_summary, bind, MPI_Recv_int, runtime_assert.
    rewrite Hin. cbn [take_first fst snd].
    apply Z.leb_le in Hs. rewrite Hs. reflexivity.
  - intros w source n before vs after Hin Hb Hs Hn Hlen.
    eexists. split.
    + unfold recv_mpi_summary. unfold bind at 1. unfold MPI_Recv_int.
      rewrite Hin. cbn [take_first fst snd].
      unfold bind at 1, runtime_assert at 1.
      assert ((0 <=? n)%Z = true) as -> by (apply Z.leb_le; lia).
      unfold ret at 1.
      unfold bind at 1, runtime_assert at 1.
      assert ((0 <=? source)%Z = true) as -> by (apply Z.leb_le; lia).
      unfold ret at 1.
      assert ((n =? 0)%Z = false) as -> by (apply Z.eqb_neq; lia).
      unfold bind at 1, get_self at 1.
      unfold bind at 1, modify at 1.
      unfold bind at 1, MPI_Recv_double.
      cbn [inbox set_inbox].
      rewrite take_first_skip.
      * rewrite Hlen, Nat.leb_refl.
        unfold bind at 1, modify at 1.
        unfold bind at 1, runtime_assert at 1. cbn [snd].
        rewrite Z.eqb_refl. unfold ret at 1.
        unfold bind at 1, increment_poses_in_ensemble, modify, ret.
        reflexivity.
      * rewrite Forall_forall in *. intros msg Hm.
        apply Z.eqb_neq. apply Hb, Hm.
      * cbn [fst]. apply Z.eqb_refl.
    + cbn. rewrite Hlen, Nat.sub_diag. cbn [repeat].
      rewrite app_nil_r. repeat split.
Qed.

End Claims_merge.

Section Claims_lifecycle.

Variable Pose : Type.

(** C9.  [reset()] returns the metric to the accumulating state: the Value
    Set and the count are cleared, the finalization flag and the memoized
    statistics (with their computed flag) are cleared, and every
    configuration field is as before: generating protocol, repeat count,
    thread-count request, multi-output flag, output mode, output file name,
    label prefix and suffix (and the previous mover and the simple
    metric). *)
Theorem reset_clears_data_keeps_configuration :
  forall (m : CentralTendencyEnsembleMetric Pose),
    let m' := reset m in
    (values_ m' = []
     /\ poses_in_ensemble m' = 0%N
     /\ finalized m' = false
     /\ derived_finalized_ m' = false
     /\ statistics_of m'
        = {| s_mean := 0; s_median := 0; s_mode := 0; s_stddev := 0;
             s_stderr := 0; s_min := 0; s_max := 0; s_range := 0 |})
    /\
    (ensemble_generating_protocol_ (base m')
       = ensemble_generating_protocol_ (base m)
     /\ ensemble_generating_protocol_repeats_ (base m')
        = ensemble_generating_protocol_repeats_ (base m)
     /\ n_threads_ (base m') = n_threads_ (base m)
     /\ use_additional_output_from_last_mover_ (base m')
        = use_additional_output_from_last_mover_ (base m)
     /\ output_mode_ (base m') = output_mode_ (base m)
     /\ output_filename_ (base m') = output_filename_ (base m)
     /\ label_prefix_ (base m') = label_prefix_ (base m)
     /\ label_suffix_ (base m') = label_suffix_ (base m)
     /\ last_mover_ (base m') = last_mover_ (base m)
     /\ simple_metric_ m' = simple_metric_ m)
    /\
    (forall (w : World Pose) (pose : Pose) (metric : RealMetric Pose),
       self w = m' -> simple_metric_ m = Some metric ->
       exists w', (increment_count ;; add_pose_to_ensemble pose) w = (Ok tt, w')
                  /\ values_ (self w') = [calculate metric pose]
                  /\ poses_in_ensemble (self w') = 1%N).
Proof.
  intros m m'. split; [|split].
  - repeat split.
  - repeat split.
  - intros w pose metric Hw Hm.
    assert (simple_metric_ (self w) = Some metric) as Hm'
        by (rewrite Hw; exact Hm).
    eexists. split; [apply (add_value w pose Hm')|].
    cbn [with_self self added set_values_ values_ poses_in_ensemble base
         set_base set_poses_in_ensemble_ poses_in_ensemble_].
    rewrite Hw. split; reflexivity.
Qed.

(** ** Reporting *)

(** [produce_final_report()] on a non-empty, not yet computed ensemble with
    its sinks configured. *)
Lemma produce_final_report_ok (w : World Pose) metric :
  values_ (self w) <> [] ->
  (N.of_nat (length (values_ (self w))) < Size.modulus)%N ->
  (0 < poses_in_ensemble (self w))%N ->
  derived_finalized_ (self w) = false ->
  simple_metric_ (self w) = Some metric ->
  sinks_configured (output_mode_ (base (self w)))
    (output_filename_ (base (self w))) ->
  let computed :=
    set_statistics
      (statistics_of_values (poses_in_ensemble (self w)) (values_ (self w)))
      (set_derived_finalized_ true (self w)) in
  produce_final_report w
  = (Ok tt,
     {| self := set_base (set_finalized_ true) computed;
        output := output w ++
                  sink_events (output_mode_ (base (self w)))
                    (output_filename_ (base (self w)))
                    (poses_in_ensemble (self w))
                    (report_of metric computed);
        inbox := inbox w; sent := sent w |}).
Proof.
  intros Hne Hlen Hpos Hdf Hm Hsinks computed.
  pose proof (finalize_values_ok w Hne Hlen Hpos Hdf) as F.
  fold computed in F.
  assert (forall out,
            @produce_final_report_string Pose
              {| self := self w; output := out; inbox := inbox w; sent := sent w |}
            = (Ok (report_of metric computed),
               {| self := computed; output := out;
                  inbox := inbox w; sent := sent w |})) as S1.
  { intros out. unfold produce_final_report_string. unfold bind at 1.
    rewrite (@finalize_values_ok _
               {| self := self w; output := out; inbox := inbox w; sent := sent w |})
      by assumption.
    cbn [self output inbox sent].
    unfold bind, get_self. cbn [self simple_metric_ set_statistics
                                set_derived_finalized_].
    rewrite Hm. reflexivity. }
  assert (forall out,
            @produce_final_report_string Pose
              {| self := computed; output := out; inbox := inbox w; sent := sent w |}
            = (Ok (report_of metric computed),
               {| self := computed; output := out;
                  inbox := inbox w; sent := sent w |})) as S2.
  { intros out. unfold produce_final_report_string, bind, finalize_values,
      bind, get_self. cbn [self derived_finalized_ computed set_statistics
                            set_derived_finalized_ simple_metric_ ret].
    rewrite Hm. reflexivity. }
  unfold produce_final_report. unfold bind at 1. unfold get_self at 1.
  unfold bind at 1.
  destruct (output_mode_ (base (self w))) eqn:Emode; cbn [sinks_configured] in Hsinks.
  - destruct Hsinks.
  - unfold produce_final_report_to_tracer. unfold bind at 1, get_self at 1.
    rewrite Emode. unfold bind at 1, runtime_assert at 1, ret at 1.
    unfold bind at 1, emit at 1. unfold bind at 1.
    rewrite S1. unfold emit, modify. cbn [self output inbox sent sink_events].
    rewrite <- app_assoc. reflexivity.
  - unfold bind at 1.
    unfold produce_final_report_to_tracer. unfold bind at 1, get_self at 1.
    rewrite Emode. unfold bind at 1, runtime_assert at 1, ret at 1.
    unfold bind at 1, emit at 1. unfold bind at 1.
    rewrite S1. unfold emit at 1.
    unfold produce_final_report_to_file. unfold bind at 1, get_self at 1.
    cbn [self output inbox sent base computed set_statistics
         set_derived_finalized_].
    rewrite Emode. unfold bind at 1, runtime_assert at 1, ret at 1.
    assert (String.eqb (output_filename_ (base (self w))) EmptyString = false)
      as -> by (apply String.eqb_neq, Hsinks).
    unfold bind at 1, runtime_assert at 1, ret at 1. cbn [negb].
    unfold bind at 1. fold computed. rewrite S2.
    unfold emit, modify. cbn [self output inbox sent sink_events].
    rewrite <- !app_assoc. reflexivity.
  - unfold produce_final_report_to_file. unfold bind at 1, get_self at 1.
    rewrite Emode. unfold bind at 1, runtime_assert at 1, ret at 1.
    assert (String.eqb (output_filename_ (base (self w))) EmptyString = false)
      as -> by (apply String.eqb_neq, Hsinks).
    unfold bind at 1, runtime_assert at 1, ret at 1. cbn [negb].
    unfold bind at 1.
    assert (w = {| self := self w; output := output w;
                   inbox := inbox w; sent := sent w |}) as Ew
        by (destruct w; reflexivity).
    rewrite Ew at 1. rewrite S1.
    unfold emit, modify. cbn [self output inbox sent sink_events].
    reflexivity.
Qed.

(** C10.  Destroyed while not finalized and holding at least one value
    (with its sinks configured), the metric produces its final report: the
    statistics of the values are computed and memoized, and what goes to the
    configured sinks is the report under the simple metric's name whose
    eight lines are these statistics, each under its name.  Destroyed
    unfinalized with a count of zero, or already finalized, it attempts no
    report: nothing is written and nothing changes. *)
Theorem destructor_final_report :
  (forall (w : World Pose) (metric : RealMetric Pose),
     finalized (self w) = false ->
     values_ (self w) <> [] ->
     poses_in_ensemble (self w) = N.of_nat (length (values_ (self w))) ->
     (N.of_nat (length (values_ (self w))) < Size.modulus)%N ->
     derived_finalized_ (self w) = false ->
     simple_metric_ (self w) = Some metric ->
     sinks_configured (output_mode_ (base (self w)))
       (output_filename_ (base (self w))) ->
     let st :=
       statistics_of_values (poses_in_ensemble (self w)) (values_ (self w)) in
     exists w', destructor w = (Ok tt, w')
       /\ finalized (self w') = true
       /\ derived_finalized_ (self w') = true
       /\ statistics_of (self w') = st
       /\ values_ (self w') = values_ (self w)
       /\ output w'
          = output w ++
            sink_events (output_mode_ (base (self w)))
              (output_filename_ (base (self w)))
              (poses_in_ensemble (self w))
              {| report_metric := metric_name metric;
                 report_lines :=
                   [("mean", s_mean st); ("median", s_median st);
                    ("mode", s_mode st); ("stddev", s_stddev st);
                    ("stderr", s_stderr st); ("min", s_min st);
                    ("max", s_max st); ("range", s_range st)]%string |})
  /\
  (forall (w : World Pose),
     finalized (self w) = false -> poses_in_ensemble (self w) = 0%N ->
     destructor w = (Ok tt, w))
  /\
  (forall (w : World Pose),
     finalized (self w) = true -> destructor w = (Ok tt, w)).
Proof.
  split; [|split].
  - intros w metric Hf Hne Hp Hlen Hdf Hm Hsinks st. subst st.
    assert (0 < poses_in_ensemble (self w))%N as Hpos.
    { rewrite Hp. destruct (values_ (self w)); [congruence | simpl; lia]. }
    eexists. split.
    + unfold destructor, bind, get_self. rewrite Hf.
      apply N.ltb_lt in Hpos. rewrite Hpos. cbn [negb andb].
      unfold noexcept.
      rewrite (produce_final_report_ok w Hne Hlen (proj1 (N.ltb_lt _ _) Hpos)
                 Hdf Hm Hsinks).
      reflexivity.
    + cbn. repeat split.
  - intros w Hf Hp. unfold destructor, bind, get_self.
    rewrite Hf, Hp. reflexivity.
  - intros w Hf. unfold destructor, bind, get_self. rewrite Hf. reflexivity.
Qed.

End Claims_lifecycle.

Section Claims_invariant.

Variable Pose : Type.

(** ** The count invariant *)

Lemma keeps_ret A (a : A) : keeps_consistent (@ret Pose A a).
Proof. intros w H. exact H. Qed.

Lemma keeps_throw A e : keeps_consistent (@throw Pose A e).
Proof. intros w H. exact H. Qed.

Lemma keeps_crash A c : keeps_consistent (@crash Pose A c).
Proof. intros w H. exact I. Qed.

Lemma keeps_bind A B (m : M Pose A) (k : A -> M Pose B) :
  keeps_consistent m -> (forall a, keeps_consistent (k a)) ->
  keeps_consistent (bind m k).
Proof.
  intros Hm Hk w H. unfold bind. specialize (Hm w H).
  destruct (m w) as [[a|e|c] w']; [apply (Hk a w' Hm) | exact Hm | exact I].
Qed.

Lemma keeps_ext A (c c' : M Pose A) :
  (forall w, c w = c' w) -> keeps_consistent c -> keeps_consistent c'.
Proof. intros E H w Hw. rewrite <- E. apply H, Hw. Qed.

Lemma keeps_runtime_assert b e : keeps_consistent (@runtime_assert Pose b e).
Proof. destruct b; [apply keeps_ret | apply keeps_throw]. Qed.

Lemma keeps_get_self : keeps_consistent (@get_self Pose).
Proof. intros w H. exact H. Qed.

Lemma keeps_emit ev : keeps_consistent (@emit Pose ev).
Proof. intros w H. exact H. Qed.

Lemma keeps_modify (f : CentralTendencyEnsembleMetric Pose
                        -> CentralTendencyEnsembleMetric Pose) :
  (forall m, count_matches m -> simple_metric_ m <> None ->
             count_matches (f m) /\ simple_metric_ (f m) <> None) ->
  keeps_consistent (modify f).
Proof. intros Hf w [H1 H2]. apply (Hf _ H1 H2). Qed.

Lemma bind_assoc A B C (m : M Pose A) (f : A -> M Pose B) (g : B -> M Pose C) w :
  bind (bind m f) g w = bind m (fun x => bind (f x) g) w.
Proof.
  unfold bind. destruct (m w) as [[a|e|c] w']; [|reflexivity|reflexivity].
  reflexivity.
Qed.

Lemma incr_vsize A (v : list A) (x : A) :
  Size.incr (vsize v) = vsize (v ++ [x]).
Proof.
  unfold Size.incr, vsize, Size.wrap. rewrite length_app. cbn [length].
  rewrite Nat2N.inj_add. change (N.of_nat 1) with 1%N.
  apply N.Div0.add_mod_idemp_l.
Qed.

Lemma add_vsize A (v v' : list A) :
  Size.add (vsize v) (Size.wrap (N.of_nat (length v'))) = vsize (v ++ v').
Proof.
  unfold Size.add, vsize, Size.wrap. rewrite length_app, Nat2N.inj_add.
  symmetry. apply N.Div0.add_mod.
Qed.

Lemma keeps_add pose :
  keeps_consistent (increment_count ;; add_pose_to_ensemble (Pose:=Pose) pose).
Proof.
  intros w [Hc Hm]. destruct (simple_metric_ (self w)) as [metric|] eqn:E;
    [|congruence].
  rewrite (add_value w pose E). split.
  - unfold count_matches in *.
    cbn [with_self self added poses_in_ensemble base set_values_ set_base
         set_poses_in_ensemble_ poses_in_ensemble_ values_].
    unfold poses_in_ensemble in Hc. rewrite Hc. apply incr_vsize.
  - cbn. rewrite E. discriminate.
Qed.

Lemma keeps_add_then A pose (k : M Pose A) :
  keeps_consistent k ->
  keeps_consistent (increment_count ;; add_pose_to_ensemble pose ;; k).
Proof.
  intros Hk.
  apply (@keeps_ext _ (bind (increment_count ;; add_pose_to_ensemble pose)
                         (fun _ => k))).
  - intros w. apply bind_assoc.
  - apply keeps_bind; [apply keeps_add | intros _; exact Hk].
Qed.

Lemma keeps_finalize_values : keeps_consistent (@finalize_values Pose).
Proof.
  unfold finalize_values. apply keeps_bind; [apply keeps_get_self|]. intros m.
  destruct (derived_finalized_ m); [apply keeps_ret|].
  apply keeps_bind; [apply keeps_modify; intros ? ? ?; split; assumption|].
  intros _. apply keeps_bind; [apply keeps_runtime_assert|]. intros _.
  destruct (compute_statistics _ _); [|apply keeps_crash].
  apply keeps_modify. intros ? ? ?; split; assumption.
Qed.

Lemma keeps_produce_final_report_string :
  keeps_consistent (@produce_final_report_string Pose).
Proof.
  unfold produce_final_report_string.
  apply keeps_bind; [apply keeps_finalize_values|]. intros _.
  apply keeps_bind; [apply keeps_get_self|]. intros m.
  destruct (simple_metric_ m); [apply keeps_ret | apply keeps_crash].
Qed.

Lemma keeps_produce_final_report_to_tracer :
  keeps_consistent (@produce_final_report_to_tracer Pose).
Proof.
  unfold produce_final_report_to_tracer.
  apply keeps_bind; [apply keeps_get_self|]. intros m.
  apply keeps_bind; [apply keeps_runtime_assert|]. intros _.
  apply keeps_bind; [apply keeps_emit|]. intros _.
  apply keeps_bind; [apply keeps_produce_final_report_string|]. intros r.
  apply keeps_emit.
Qed.

Lemma keeps_produce_final_report_to_file file :
  keeps_consistent (@produce_final_report_to_file Pose file).
Proof.
  unfold produce_final_report_to_file.
  apply keeps_bind; [apply keeps_get_self|]. intros m.
  apply keeps_bind; [apply keeps_runtime_assert|]. intros _.
  apply keeps_bind; [apply keeps_runtime_assert|]. intros _.
  apply keeps_bind; [apply keeps_produce_final_report_string|]. intros r.
  apply keeps_emit.
Qed.

Lemma keeps_produce_final_report :
  keeps_consistent (@produce_final_report Pose).
Proof.
  unfold produce_final_report.
  apply keeps_bind; [apply keeps_get_self|]. intros m.
  apply keeps_bind.
  - destruct (output_mode_ (base m)).
    + apply keeps_throw.
    + apply keeps_produce_final_report_to_tracer.
    + apply keeps_bind; [apply keeps_produce_final_report_to_tracer|].
      intros _. apply keeps_produce_final_report_to_file.
    + apply keeps_produce_final_report_to_file.
  - intros _. apply keeps_modify. intros ? ? ?; split; assumption.
Qed.

Lemma keeps_drain_additional_output outputs :
  keeps_consistent (@drain_additional_output Pose outputs).
Proof.
  induction outputs as [|p rest IH]; cbn [drain_additional_output].
  - apply keeps_ret.
  - apply keeps_add_then, IH.
Qed.

Lemma keeps_apply_and_measure protocol pose :
  keeps_consistent (@apply_and_measure Pose protocol pose).
Proof.
  unfold apply_and_measure.
  destruct (snd (mover_apply protocol pose)); [apply keeps_add | apply keeps_ret].
Qed.

Lemma keeps_measure_additional_outputs protocol outputs pose :
  keeps_consistent (@measure_additional_outputs Pose protocol outputs pose).
Proof.
  revert pose. induction outputs as [|next rest IH]; intros pose;
    cbn [measure_additional_outputs];
    (apply keeps_bind; [apply keeps_apply_and_measure|]); intros _.
  - apply keeps_crash.
  - apply IH.
Qed.

Lemma keeps_generate_one_ensemble_entry i pose protocol lm :
  keeps_consistent (@generate_one_ensemble_entry Pose i pose protocol lm).
Proof.
  unfold generate_one_ensemble_entry. destruct lm.
  - apply keeps_measure_additional_outputs.
  - apply keeps_apply_and_measure.
Qed.

Lemma keeps_do_work_vector_in_threads (workvec : list (M Pose unit)) :
  Forall (@keeps_consistent Pose unit) workvec ->
  keeps_consistent (do_work_vector_in_threads workvec).
Proof.
  induction 1 as [|work rest Hw _ IH]; cbn [do_work_vector_in_threads].
  - apply keeps_ret.
  - apply keeps_bind; [exact Hw | intros _; exact IH].
Qed.

Lemma keeps_generate_ensemble_and_apply_to_poses pose :
  keeps_consistent (@generate_ensemble_and_apply_to_poses Pose pose).
Proof.
  unfold generate_ensemble_and_apply_to_poses.
  apply keeps_bind; [apply keeps_get_self|]. intros m.
  destruct (ensemble_generating_protocol_ (base m)); [|apply keeps_crash].
  apply keeps_do_work_vector_in_threads. rewrite Forall_forall.
  intros work Hw. apply in_map_iff in Hw. destruct Hw as [i [<- _]].
  apply keeps_generate_one_ensemble_entry.
Qed.

Lemma keeps_apply pose : keeps_consistent (@apply Pose pose).
Proof.
  unfold apply.
  apply keeps_bind; [apply keeps_get_self|]. intros m.
  apply keeps_bind; [apply keeps_runtime_assert|]. intros _.
  destruct (ensemble_generating_protocol_ (base m)).
  - apply keeps_bind; [apply keeps_generate_ensemble_and_apply_to_poses|].
    intros _. apply keeps_produce_final_report.
  - apply keeps_add_then.
    destruct (last_mover_ (base m)); [|apply keeps_ret].
    destruct (use_additional_output_from_last_mover_ (base m)); [|apply keeps_ret].
    apply keeps_bind; [apply keeps_drain_additional_output|].
    intros _. apply keeps_produce_final_report.
Qed.

Lemma keeps_reset : keeps_consistent (modify (@reset Pose)).
Proof.
  apply keeps_modify. intros m _ Hm. split; [reflexivity | exact Hm].
Qed.

Lemma keeps_recv_mpi_summary : keeps_consistent (@recv_mpi_summary Pose).
Proof.
  intros w [Hc Hm]. unfold recv_mpi_summary. unfold bind at 1.
  unfold MPI_Recv_int.
  destruct (take_first _ (inbox w)) as [[[src [n|vs]] rest]|]; try exact I.
  unfold bind at 1, runtime_assert at 1.
  destruct (0 <=? fst (n, src))%Z eqn:En; [|split; assumption].
  unfold ret at 1. unfold bind at 1, runtime_assert at 1.
  destruct (0 <=? snd (n, src))%Z eqn:Es; [|split; assumption].
  unfold ret at 1. cbn [fst snd] in *.
  destruct (n =? 0)%Z; [split; assumption|].
  unfold bind at 1, get_self at 1. unfold bind at 1, modify at 1.
  unfold bind at 1, MPI_Recv_double. cbn [inbox set_inbox self].
  destruct (take_first _ rest) as [[[src' [k|vs]] rest']|] eqn:Et; try exact I.
  destruct (length vs <=? Z.to_nat n)%nat eqn:El; [|exact I].
  unfold bind at 1, modify at 1. unfold bind at 1, runtime_assert at 1.
  cbn [snd fst].
  assert (src' = src) as ->.
  { clear - Et. revert rest' Et. induction rest as [|[s p] rest IH];
      cbn [take_first]; intros rest' Et; [discriminate|].
    cbn [fst] in Et. destruct (Z.eqb_spec s src) as [->|_].
    - injection Et as <- _ _. reflexivity.
    - destruct (take_first _ rest) as [[y r]|]; [|discriminate].
      injection Et as -> _. apply (IH _ eq_refl). }
  rewrite Z.eqb_refl. unfold ret at 1.
  unfold bind, increment_poses_in_ensemble, modify, ret. split.
  - unfold count_matches in *.
    cbn [self poses_in_ensemble base set_base set_values_
         set_poses_in_ensemble_ poses_in_ensemble_ values_].
    unfold poses_in_ensemble in Hc.
    cbn [set_inbox self base set_values_]. rewrite Hc.
    apply Nat.leb_le in El. apply Z.leb_le in En.
    replace (Size_of_int n)
      with (Size.wrap (N.of_nat (length (vs ++ repeat 0%float
                                           (Z.to_nat n - length vs))))).
    + apply add_vsize.
    + rewrite length_app, repeat_length. unfold Size.wrap, Size_of_int, Size.modulus.
      replace (length vs + (Z.to_nat n - length vs))%nat with (Z.to_nat n) by lia.
      rewrite <- (Z2N.id (n mod 2 ^ 64)) by (apply Z.mod_pos_bound; lia).
      lia.
  - cbn. exact Hm.
Qed.

Lemma keeps_perform op : keeps_consistent (@perform Pose op).
Proof.
  destruct op; cbn [perform].
  - apply keeps_apply.
  - apply keeps_produce_final_report.
  - apply keeps_reset.
  - apply keeps_bind; [apply keeps_recv_mpi_summary | intros _; apply keeps_ret].
Qed.

End Claims_invariant.

Section Claims_sequences.

Variable Pose : Type.

(** Where the count does match: with a simple metric configured, after any
    sequence of [apply] calls in any mode, explicit final reports, resets
    and distributed receives, each of which returned or threw, the reported
    count equals the size of the Value Set. *)
Theorem count_matches_after_operations :
  forall (ops : list (Operation Pose)) (w w' : World Pose),
    simple_metric_ (self w) <> None ->
    count_matches (self w) ->
    run ops w = Some w' ->
    count_matches (self w').
Proof.
  intros ops. induction ops as [|op ops IH]; intros w w' Hm Hc Hrun.
  - injection Hrun as <-. exact Hc.
  - cbn [run] in Hrun.
    pose proof (@keeps_perform Pose op w (conj Hc Hm)) as K.
    destruct (perform op w) as [[[]|e|c] w1]; try discriminate;
      destruct K as [Hc1 Hm1]; exact (IH w1 w' Hm1 Hc1 Hrun).
Qed.

(** ** The additional-output loop of a work item *)

Lemma apply_and_measure_returns (w : World Pose) protocol pose :
  simple_metric_ (self w) <> None ->
  exists w', apply_and_measure protocol pose w = (Ok tt, w')
             /\ simple_metric_ (self w') <> None.
Proof.
  intros Hm. unfold apply_and_measure.
  destruct (snd (mover_apply protocol pose)).
  - destruct (simple_metric_ (self w)) as [metric|] eqn:E; [|congruence].
    rewrite (add_value w _ E). eexists. split; [reflexivity|].
    cbn. rewrite E. discriminate.
  - exists w. split; [reflexivity | exact Hm].
Qed.

(** The loop over additional outputs in [apply()] checks for the null
    pointer: it measures every output and returns. *)
Lemma drain_additional_output_returns (w : World Pose) outputs metric :
  simple_metric_ (self w) = Some metric ->
  exists w', drain_additional_output outputs w = (Ok tt, w')
             /\ values_ (self w')
                = values_ (self w) ++ map (calculate metric) outputs
             /\ simple_metric_ (self w') = Some metric.
Proof.
  revert w. induction outputs as [|curpose rest IH]; intros w Hm.
  - exists w. cbn [drain_additional_output map]. rewrite app_nil_r.
    repeat split. exact Hm.
  - cbn [drain_additional_output]. rewrite <- bind_assoc. unfold bind at 1.
    rewrite (add_value w curpose Hm).
    destruct (IH (with_self (added metric curpose (self w)) w)) as [w' [Hrun [Hv Hm']]].
    { cbn. exact Hm. }
    exists w'. split; [exact Hrun|]. split; [|exact Hm'].
    rewrite Hv. cbn [with_self self added set_values_ values_ map].
    rewrite <- app_assoc. reflexivity.
Qed.

(** C8 (the code's behaviour).  Given an upstream multi-output mover, a work
    item measures the seed result and every additional output and then, the
    outputs exhausted, dereferences the null pointer that
    [get_additional_output()] returned: it never returns.  The sibling loop
    of [apply()] on the same outputs stops at the null pointer and
    returns. *)
Theorem generate_one_ensemble_entry_null_dereference :
  (forall (w : World Pose) (attempt_index : N) (master_pose : Pose)
          (master_protocol last_mover_copy : Mover Pose),
     simple_metric_ (self w) <> None ->
     fst (generate_one_ensemble_entry attempt_index master_pose master_protocol
            (Some last_mover_copy) w)
     = Crash NullDereference)
  /\
  (forall (w : World Pose) (last_mover_copy : Mover Pose)
          (metric : RealMetric Pose),
     simple_metric_ (self w) = Some metric ->
     exists w',
       drain_additional_output (additional_output last_mover_copy) w
       = (Ok tt, w')
       /\ values_ (self w')
          = values_ (self w)
            ++ map (calculate metric) (additional_output last_mover_copy)).
Proof.
  split.
  - intros w i pose protocol lm Hm. unfold generate_one_ensemble_entry.
    generalize (additional_output lm). intros outputs.
    revert w pose Hm. induction outputs as [|next rest IH]; intros w pose Hm;
      cbn [measure_additional_outputs]; unfold bind;
      destruct (apply_and_measure_returns w (clone protocol) pose Hm)
        as [w' [-> Hm']].
    + reflexivity.
    + apply IH, Hm'.
  - intros w lm metric Hm.
    destruct (drain_additional_output_returns w (additional_output lm) Hm)
      as [w' [Hrun [Hv _]]].
    exists w'. split; assumption.
Qed.

End Claims_sequences.

(** ** The code at the failing inputs *)

(** C4 (the code's behaviour).  A final report on an empty ensemble throws
    the empty-ensemble error and leaves the finalization flag clear, but the
    computed flag of the memoized statistics is already set; values added
    afterwards are never aggregated: the next final report succeeds and every
    statistic reads as the stale zero. *)
Theorem finalize_on_empty_leaves_stale_statistics :
  let w0 := world_of fresh_metric in
  exists w1 w2 w3,
    produce_final_report w0 = (Throw EmptyEnsembleError, w1)
    /\ finalized (self w1) = false
    /\ derived_finalized_ (self w1) = true
    /\ apply 1%float w1 = (Ok tt, w2)
    /\ apply 3%float w2 = (Ok tt, w3)
    /\ values_ (self w3) = [1; 3]%float
    /\ exists w4,
         produce_final_report w3 = (Ok tt, w4)
         /\ finalized (self w4) = true
         /\ get_real_metric_value_by_name "mean" w4 = (Ok 0%float, w4)
         /\ get_real_metric_value_by_name "max" w4 = (Ok 0%float, w4)
         /\ s_mean (statistics_of_values 2 [1; 3]%float) = 2%float.
Proof.
  cbv zeta. do 3 eexists.
  split; [vm_compute; reflexivity|].
  split; [reflexivity|]. split; [reflexivity|].
  split; [vm_compute; reflexivity|].
  split; [vm_compute; reflexivity|].
  split; [reflexivity|].
  eexists. split; [vm_compute; reflexivity|].
  split; [reflexivity|].
  split; [vm_compute; reflexivity|].
  split; [vm_compute; reflexivity|].
  vm_compute. reflexivity.
Qed.

(** C6.  The count does not always equal the number of values held.
    [apply] increments [poses_in_ensemble_] before [add_pose_to_ensemble]
    checks that a simple metric is set: on a default-constructed metric
    [apply] throws with the count at 1 and no value stored.  The mismatch
    stays: the final report of that object indexes its empty vector out of
    bounds, [send_mpi_summary] fails the assertion that the two agree, and
    once a simple metric is set and poses measuring 1 and 3 are applied, the
    report divides their sum by a count of 3 and gives a mean of 4/3 where
    the mean of the two values is 2. *)
Lemma count_mismatch_without_simple_metric :
  let w := world_of (CentralTendencyEnsembleMetric_default float) in
  count_matches (self w)
  /\ exists w',
       apply 1%float w = (Throw NoSimpleMetricError, w')
       /\ run [Op_apply 1%float] w = Some w'
       /\ poses_in_ensemble (self w') = 1%N
       /\ vsize (values_ (self w')) = 0%N
       /\ ~ count_matches (self w')
       /\ fst (produce_final_report w') = Crash OutOfBounds
       /\ fst (send_mpi_summary 0 w') = Throw MPIAssertionError
       /\ exists w'',
            run [Op_apply 1%float; Op_apply 3%float;
                 Op_produce_final_report float]
              (with_self (set_real_metric (Some value_metric) (self w')) w')
            = Some w''
            /\ finalized (self w'') = true
            /\ values_ (self w'') = [1; 3]%float
            /\ poses_in_ensemble (self w'') = 3%N
            /\ ~ count_matches (self w'')
            /\ mean_ (self w'') = (4 / 3)%float
            /\ s_mean (statistics_of_values 2 [1; 3]%float) = 2%float.
Proof.
  cbv zeta. split; [reflexivity|]. eexists.
  split; [reflexivity|]. split; [reflexivity|].
  split; [reflexivity|]. split; [reflexivity|].
  split; [unfold count_matches; cbn; discriminate|].
  split; [vm_compute; reflexivity|].
  split; [vm_compute; reflexivity|].
  eexists. split; [vm_compute; reflexivity|].
  split; [reflexivity|]. split; [reflexivity|]. split; [reflexivity|].
  split; [unfold count_matches; cbn; discriminate|].
  split; vm_compute; reflexivity.
Qed.

(** ** The theorems at concrete inputs *)

(** The first ensemble of the unit test, applied pose by pose. *)
Lemma finalize_values_statistics_witness :
  let w := world_after (map (@Op_apply float) ensemble1) in
  (values_ (self w) = ensemble1
   /\ poses_in_ensemble (self w) = 5%N
   /\ derived_finalized_ (self w) = false)
  /\ exists w', finalize_values w = (Ok tt, w')
       /\ mean_ (self w') = (Real.accumulate ensemble1 0 / Real.of_Size 5)%float
       /\ mean_ (self w') = 1%float
       /\ max_ (self w') = 2%float.
Proof.
  cbv zeta. split; [repeat split|].
  destruct (proj1 (finalize_values_statistics float)
              (world_after (map (@Op_apply float) ensemble1)) ensemble1
              eq_refl ltac:(discriminate) eq_refl eq_refl eq_refl)
    as [w' [Hrun [_ [Hmean _]]]].
  destruct (proj2 (finalize_values_statistics float)
              (world_after (map (@Op_apply float) ensemble1)) ensemble1
              (Permutation_refl _) eq_refl eq_refl eq_refl)
    as [w'' [Hrun' [Hmean' [_ [_ [_ [_ [Hmax _]]]]]]]].
  assert (w'' = w') as -> by congruence.
  exists w'. repeat split; assumption.
Defined.

Lemma finalize_values_median_witness :
  let w := world_after (map (@Op_apply float) ensemble_even) in
  (values_ (self w) = ensemble_even
   /\ poses_in_ensemble (self w) = 8%N
   /\ derived_finalized_ (self w) = false)
  /\ exists w', finalize_values w = (Ok tt, w')
       /\ median_ (self w')
          = ((nth 3 (std_sort ensemble_even) 0
              + nth 4 (std_sort ensemble_even) 0) / 2)%float.
Proof.
  cbv zeta. split; [repeat split|].
  destruct (proj1 (finalize_values_median float)
              (world_after (map (@Op_apply float) ensemble_even)) ensemble_even
              eq_refl ltac:(discriminate) eq_refl eq_refl eq_refl)
    as [w' [Hrun [_ [_ Hmedian]]]].
  exists w'. split; [exact Hrun | exact Hmedian].
Defined.

Lemma finalize_values_mode_witness :
  let w := world_after (map (@Op_apply float) ensemble_tied) in
  (values_ (self w) = ensemble_tied
   /\ poses_in_ensemble (self w) = 5%N
   /\ derived_finalized_ (self w) = false
   /\ Forall Spec.number ensemble_tied)
  /\ exists w' tied, finalize_values w = (Ok tt, w')
       /\ Spec.modal_values ensemble_tied tied
       /\ mode_ (self w') = Spec.arithmetic_mean tied.
Proof.
  cbv zeta.
  assert (Forall Spec.number ensemble_tied) as HV
      by (repeat constructor).
  split; [repeat split; exact HV|].
  destruct (proj1 (finalize_values_mode float)
              (world_after (map (@Op_apply float) ensemble_tied)) ensemble_tied
              eq_refl ltac:(discriminate) eq_refl eq_refl eq_refl HV)
    as [w' [tied [Hrun [Hmodal [Hmode _]]]]].
  exists w', tied. split; [exact Hrun|]. split; [exact Hmodal | exact Hmode].
Defined.


Lemma recv_mpi_summary_merges_witness :
  exists w', recv_mpi_summary coordinator = (Ok 2%N, w')
    /\ values_ (self w') = [1; 5; 6]%float
    /\ poses_in_ensemble (self w') = 3%N
    /\ inbox w' = [(3, MPI_INT 1); (3, MPI_DOUBLE [9%float])]%Z.
Proof.
  destruct (proj2 (recv_mpi_summary_merges float) coordinator 2%Z 2%Z
              [(3, MPI_INT 1); (3, MPI_DOUBLE [9%float])]%Z [5; 6]%float []
              eq_refl
              ltac:(repeat constructor; discriminate)
              ltac:(lia) ltac:(lia) eq_refl)
    as [w' [Hrun [Hv [Hp [Hi _]]]]].
  exists w'. repeat split; assumption.
Defined.

Lemma reset_clears_data_keeps_configuration_witness :
  let m := self (world_after (map (@Op_apply float) ensemble1
                              ++ [Op_produce_final_report float])) in
  (finalized m = true /\ values_ m = ensemble1)
  /\ finalized (reset m) = false
  /\ values_ (reset m) = []
  /\ simple_metric_ (reset m) = Some value_metric.
Proof.
  cbv zeta. split; [split; reflexivity|].
  destruct (reset_clears_data_keeps_configuration
              (self (world_after (map (@Op_apply float) ensemble1
                                  ++ [Op_produce_final_report float]))))
    as [[Hv [_ [Hf _]]] [[_ [_ [_ [_ [_ [_ [_ [_ [_ Hm]]]]]]]]] _]].
  split; [exact Hf|]. split; [exact Hv|]. rewrite Hm. reflexivity.
Defined.

Lemma destructor_final_report_witness :
  let w := world_after (map (@Op_apply float) ensemble1) in
  (finalized (self w) = false /\ values_ (self w) = ensemble1
   /\ output w = [])
  /\ exists w', destructor w = (Ok tt, w')
       /\ finalized (self w') = true
       /\ derived_finalized_ (self w') = true
       /\ mean_ (self w') = 1%float
       /\ stddev_ (self w') = PrimFloat.sqrt 0.4
       /\ output w'
          = [TracerHeader "CentralTendency" 5;
             TracerReport
               {| report_metric := "value";
                  report_lines :=
                    [("mean", 1); ("median", 1); ("mode", 1);
                     ("stddev", PrimFloat.sqrt 0.4);
                     ("stderr", PrimFloat.sqrt 0.4 / PrimFloat.sqrt 5);
                     ("min", 0); ("max", 2); ("range", 2)]%float%string |}].
Proof.
  cbv zeta. split; [repeat split|].
  destruct (proj1 (destructor_final_report float)
              (world_after (map (@Op_apply float) ensemble1)) value_metric
              eq_refl ltac:(discriminate) eq_refl eq_refl eq_refl eq_refl I)
    as [w' [Hrun [Hf [Hdf [Hst [_ Hout]]]]]].
  exists w'. split; [exact Hrun|]. split; [exact Hf|]. split; [exact Hdf|].
  split; [exact (f_equal s_mean Hst)|].
  split; [exact (f_equal s_stddev Hst)|].
  exact Hout.
Defined.

(** Two samples, a merge from peer 2, a report, a rejected sample, a reset
    and a new sample. *)
Lemma count_matches_after_operations_witness :
  exists w',
    run [Op_apply 4%float; Op_recv_mpi_summary float;
         Op_produce_final_report float; Op_apply 7%float;
         Op_reset float; Op_apply 8%float] coordinator = Some w'
    /\ count_matches (self w').
Proof.
  eexists. split; [vm_compute; reflexivity|].
  eapply (@count_matches_after_operations float
            [Op_apply 4%float; Op_recv_mpi_summary float;
             Op_produce_final_report float; Op_apply 7%float;
             Op_reset float; Op_apply 8%float] coordinator).
  - discriminate.
  - reflexivity.
  - vm_compute. reflexivity.
Defined.

(** An upstream mover with two additional outputs, a protocol that always
    succeeds. *)
Lemma generate_one_ensemble_entry_null_dereference_witness :
  simple_metric_ (self (world_of fresh_metric)) <> None
  /\ fst (generate_one_ensemble_entry 1 1%float
            {| mover_apply := fun pose => (pose, MS_SUCCESS);
               additional_output := [] |}
            (Some {| mover_apply := fun pose => (pose, MS_SUCCESS);
                     additional_output := [2; 3]%float |})
            (world_of fresh_metric))
     = Crash NullDereference.
Proof.
  split; [discriminate|].
  apply (proj1 (generate_one_ensemble_entry_null_dereference float)).
  discriminate.
Defined.

(* ================================================================== *)
(** * Part IV: further properties of the code *)
(* ================================================================== *)

Section Further.

Variable Pose : Type.

(** ** Results of a sequence *)

Lemma bind_Ok A B (m : M Pose A) (k : A -> M Pose B) w b w' :
  bind m k w = (Ok b, w') ->
  exists a w1, m w = (Ok a, w1) /\ k a w1 = (Ok b, w').
Proof.
  unfold bind. destruct (m w) as [[a|e|c] w1]; try discriminate.
  intros H. exists a, w1. split; [reflexivity | exact H].
Qed.

Lemma bind_run A B (m : M Pose A) (k : A -> M Pose B) w a w1 :
  m w = (Ok a, w1) -> bind m k w = k a w1.
Proof. intros H. unfold bind. rewrite H. reflexivity. Qed.

Lemma world_eta (w : World Pose) :
  w = {| self := self w; output := output w; inbox := inbox w; sent := sent w |}.
Proof. destruct w; reflexivity. Qed.

(** ** [finalize_values()] and the report, case by case *)

Lemma finalize_values_memoized (w : World Pose) :
  derived_finalized_ (self w) = true -> finalize_values w = (Ok tt, w).
Proof.
  intros H. unfold finalize_values, bind, get_self. rewrite H. reflexivity.
Qed.

Lemma finalize_values_returns (w w' : World Pose) :
  finalize_values w = (Ok tt, w') ->
  w' = with_self (finalized_values (self w)) w
  /\ derived_finalized_ (self w') = true.
Proof.
  unfold finalize_values, bind, get_self, finalized_values.
  destruct (derived_finalized_ (self w)) eqn:Hdf.
  - intros H. injection H as <-. split; [apply world_eta | exact Hdf].
  - unfold modify, runtime_assert.
    destruct (0 <? poses_in_ensemble (self w))%N; unfold ret, throw, crash;
      [|discriminate].
    destruct (compute_statistics _ _) as [st|]; [|discriminate].
    intros H. injection H as <-. split; reflexivity.
Qed.

Lemma produce_final_report_string_returns (w w' : World Pose) r :
  produce_final_report_string w = (Ok r, w') ->
  exists metric,
    simple_metric_ (self w) = Some metric
    /\ w' = with_self (finalized_values (self w)) w
    /\ r = report_of metric (finalized_values (self w))
    /\ derived_finalized_ (finalized_values (self w)) = true.
Proof.
  unfold produce_final_report_string. intros H.
  apply bind_Ok in H. destruct H as [[] [w1 [F H]]].
  apply finalize_values_returns in F. destruct F as [-> Hdf].
  unfold bind, get_self in H. cbn [with_self self] in H, Hdf.
  assert (simple_metric_ (finalized_values (self w)) = simple_metric_ (self w))
    as Em.
  { unfold finalized_values. destruct (derived_finalized_ (self w)); [reflexivity|].
    destruct (compute_statistics _ _); reflexivity. }
  rewrite Em in H.
  destruct (simple_metric_ (self w)) as [metric|]; [|discriminate].
  injection H as <- <-. exists metric. repeat split. exact Hdf.
Qed.

Lemma produce_final_report_string_memoized (w : World Pose) metric :
  derived_finalized_ (self w) = true ->
  simple_metric_ (self w) = Some metric ->
  produce_final_report_string w = (Ok (report_of metric (self w)), w).
Proof.
  intros Hdf Hm. unfold produce_final_report_string.
  rewrite (bind_run _ _ _ (finalize_values_memoized w Hdf)).
  unfold bind, get_self. rewrite Hm. reflexivity.
Qed.

Lemma finalized_values_fixed (m : CentralTendencyEnsembleMetric Pose) :
  derived_finalized_ m = true -> finalized_values m = m.
Proof. intros H. unfold finalized_values. rewrite H. reflexivity. Qed.

Lemma finalized_values_base (m : CentralTendencyEnsembleMetric Pose) :
  base (finalized_values m) = base m.
Proof.
  unfold finalized_values. destruct (derived_finalized_ m); [reflexivity|].
  destruct (compute_statistics _ _); reflexivity.
Qed.

Lemma finalized_values_simple_metric (m : CentralTendencyEnsembleMetric Pose) :
  simple_metric_ (finalized_values m) = simple_metric_ m.
Proof.
  unfold finalized_values. destruct (derived_finalized_ m); [reflexivity|].
  destruct (compute_statistics _ _); reflexivity.
Qed.

Lemma finalized_values_values (m : CentralTendencyEnsembleMetric Pose) :
  values_ (finalized_values m) = values_ m.
Proof.
  unfold finalized_values. destruct (derived_finalized_ m); [reflexivity|].
  destruct (compute_statistics _ _); reflexivity.
Qed.

(** What a tracer report that returns has done. *)
Lemma produce_final_report_to_tracer_returns (w w' : World Pose) :
  produce_final_report_to_tracer w = (Ok tt, w') ->
  exists metric,
    simple_metric_ (self w) = Some metric
    /\ (output_mode_ (base (self w)) = TRACER
        \/ output_mode_ (base (self w)) = TRACER_AND_FILE)
    /\ derived_finalized_ (finalized_values (self w)) = true
    /\ w' = with_output
              [TracerHeader name (poses_in_ensemble (self w));
               TracerReport (report_of metric (finalized_values (self w)))]
              (with_self (finalized_values (self w)) w).
Proof.
  unfold produce_final_report_to_tracer. intros H.
  apply bind_Ok in H. destruct H as [m [w1 [G H]]].
  unfold get_self in G. injection G as <- <-.
  apply bind_Ok in H. destruct H as [[] [w1 [G H]]].
  unfold runtime_assert in G.
  assert (output_mode_ (base (self w)) = TRACER
          \/ output_mode_ (base (self w)) = TRACER_AND_FILE) as Hmode.
  { destruct (output_mode_ (base (self w))); try discriminate; auto. }
  assert (w1 = w) as ->.
  { destruct (output_mode_ (base (self w))); try discriminate;
      injection G as <-; reflexivity. }
  apply bind_Ok in H. destruct H as [[] [w1 [G' H]]].
  unfold emit in G'. injection G' as <-.
  apply bind_Ok in H. destruct H as [r [w2 [S H]]].
  apply produce_final_report_string_returns in S.
  cbn [self] in S. destruct S as [metric [Hm [-> [-> Hdf]]]].
  unfold emit in H. injection H as <-.
  exists metric. split; [exact Hm|]. split; [exact Hmode|]. split; [exact Hdf|].
  unfold with_output, with_self. cbn [self output inbox sent].
  rewrite <- app_assoc. reflexivity.
Qed.

(** What a file report that returns has done. *)
Lemma produce_final_report_to_file_returns (w w' : World Pose) output_file :
  produce_final_report_to_file output_file w = (Ok tt, w') ->
  exists metric,
    simple_metric_ (self w) = Some metric
    /\ (output_mode_ (base (self w)) = FILE
        \/ output_mode_ (base (self w)) = TRACER_AND_FILE)
    /\ output_file <> EmptyString
    /\ derived_finalized_ (finalized_values (self w)) = true
    /\ w' = with_output
              [FileReport output_file (poses_in_ensemble (self w))
                 (report_of metric (finalized_values (self w)))]
              (with_self (finalized_values (self w)) w).
Proof.
  unfold produce_final_report_to_file. intros H.
  apply bind_Ok in H. destruct H as [m [w1 [G H]]].
  unfold get_self in G. injection G as <- <-.
  apply bind_Ok in H. destruct H as [[] [w1 [G H]]].
  unfold runtime_assert in G.
  assert (output_mode_ (base (self w)) = FILE
          \/ output_mode_ (base (self w)) = TRACER_AND_FILE) as Hmode.
  { destruct (output_mode_ (base (self w))); try discriminate; auto. }
  assert (w1 = w) as ->.
  { destruct (output_mode_ (base (self w))); try discriminate;
      injection G as <-; reflexivity. }
  apply bind_Ok in H. destruct H as [[] [w1 [G' H]]].
  unfold runtime_assert in G'.
  destruct (String.eqb_spec output_file EmptyString) as [|Hfile];
    [discriminate|].
  injection G' as <-.
  apply bind_Ok in H. destruct H as [r [w2 [S H]]].
  apply produce_final_report_string_returns in S.
  destruct S as [metric [Hm [-> [-> Hdf]]]].
  unfold emit in H. injection H as <-.
  exists metric. split; [exact Hm|]. split; [exact Hmode|].
  split; [exact Hfile|]. split; [exact Hdf|]. reflexivity.
Qed.

(** What a final report that returns has done: the statistics are memoized,
    the report has gone to every sink of the output mode, the object is
    finalized. *)
Lemma produce_final_report_returns (w w' : World Pose) :
  produce_final_report w = (Ok tt, w') ->
  exists metric,
    simple_metric_ (self w) = Some metric
    /\ sinks_configured (output_mode_ (base (self w)))
         (output_filename_ (base (self w)))
    /\ derived_finalized_ (finalized_values (self w)) = true
    /\ w' = with_output
              (sink_events (output_mode_ (base (self w)))
                 (output_filename_ (base (self w)))
                 (poses_in_ensemble (self w))
                 (report_of metric (finalized_values (self w))))
              (with_self
                 (set_base (set_finalized_ true) (finalized_values (self w))) w).
Proof.
  unfold produce_final_report. intros H.
  apply bind_Ok in H. destruct H as [m [w1 [G H]]].
  unfold get_self in G. injection G as <- <-.
  apply bind_Ok in H. destruct H as [[] [w1 [R H]]].
  unfold modify in H. injection H as <-.
  destruct (output_mode_ (base (self w))) eqn:Emode.
  - discriminate.
  - apply produce_final_report_to_tracer_returns in R.
    destruct R as [metric [Hm [_ [Hdf ->]]]].
    exists metric. split; [exact Hm|]. split; [exact I|]. split; [exact Hdf|].
    reflexivity.
  - apply bind_Ok in R. destruct R as [[] [w2 [T F]]].
    apply produce_final_report_to_tracer_returns in T.
    destruct T as [metric [Hm [_ [Hdf ->]]]].
    apply produce_final_report_to_file_returns in F.
    destruct F as [metric' [Hm' [_ [Hfile [_ ->]]]]].
    cbn [with_output with_self self] in Hm'.
    rewrite finalized_values_simple_metric, Hm in Hm'. injection Hm' as <-.
    exists metric. split; [exact Hm|]. split; [exact Hfile|]. split; [exact Hdf|].
    cbn [with_output with_self self output inbox sent sink_events].
    rewrite (finalized_values_fixed _ Hdf).
    unfold poses_in_ensemble. rewrite finalized_values_base.
    rewrite <- app_assoc. reflexivity.
  - apply produce_final_report_to_file_returns in R.
    destruct R as [metric [Hm [_ [Hfile [Hdf ->]]]]].
    exists metric. split; [exact Hm|]. split; [exact Hfile|]. split; [exact Hdf|].
    reflexivity.
Qed.

(** ** The report, run forward *)

Lemma finalize_values_run (w : World Pose) :
  can_finalize (self w) ->
  finalize_values w = (Ok tt, with_self (finalized_values (self w)) w).
Proof.
  intros [Hdf|[Hpos Hst]].
  - rewrite (finalize_values_memoized w Hdf), (finalized_values_fixed _ Hdf).
    f_equal. apply world_eta.
  - unfold finalize_values, bind, get_self, finalized_values.
    destruct (derived_finalized_ (self w));
      [unfold ret; f_equal; apply world_eta|].
    unfold modify, runtime_assert.
    apply N.ltb_lt in Hpos. rewrite Hpos. unfold ret.
    destruct (compute_statistics _ _) as [st|]; [reflexivity | congruence].
Qed.

Lemma can_finalize_output (w : World Pose) out :
  can_finalize (self w) ->
  can_finalize
    (self {| self := self w; output := out; inbox := inbox w; sent := sent w |}).
Proof. intros H. exact H. Qed.

Lemma produce_final_report_string_run (w : World Pose) metric :
  can_finalize (self w) ->
  simple_metric_ (self w) = Some metric ->
  produce_final_report_string w
  = (Ok (report_of metric (finalized_values (self w))),
     with_self (finalized_values (self w)) w).
Proof.
  intros Hc Hm. unfold produce_final_report_string.
  rewrite (bind_run _ _ _ (finalize_values_run w Hc)).
  unfold bind, get_self. cbn [with_self self].
  rewrite finalized_values_simple_metric, Hm. reflexivity.
Qed.

Lemma produce_final_report_to_tracer_run (w : World Pose) metric :
  can_finalize (self w) ->
  simple_metric_ (self w) = Some metric ->
  (output_mode_ (base (self w)) = TRACER
   \/ output_mode_ (base (self w)) = TRACER_AND_FILE) ->
  produce_final_report_to_tracer w
  = (Ok tt,
     with_output
       [TracerHeader name (poses_in_ensemble (self w));
        TracerReport (report_of metric (finalized_values (self w)))]
       (with_self (finalized_values (self w)) w)).
Proof.
  intros Hc Hm Hmode. unfold produce_final_report_to_tracer.
  unfold bind at 1, get_self at 1. unfold bind at 1, runtime_assert at 1.
  assert (match output_mode_ (base (self w)) with
          | TRACER | TRACER_AND_FILE => true
          | _ => false
          end = true) as -> by (destruct Hmode as [-> | ->]; reflexivity).
  unfold ret at 1. unfold bind at 1, emit at 1. unfold bind at 1.
  rewrite (@produce_final_report_string_run
             {| self := self w;
                output := output w ++ [TracerHeader name (poses_in_ensemble (self w))];
                inbox := inbox w; sent := sent w |} metric Hc Hm).
  unfold emit, with_output, with_self. cbn [self output inbox sent].
  rewrite <- app_assoc. reflexivity.
Qed.

Lemma produce_final_report_to_file_run (w : World Pose) metric output_file :
  can_finalize (self w) ->
  simple_metric_ (self w) = Some metric ->
  (output_mode_ (base (self w)) = FILE
   \/ output_mode_ (base (self w)) = TRACER_AND_FILE) ->
  output_file <> EmptyString ->
  produce_final_report_to_file output_file w
  = (Ok tt,
     with_output
       [FileReport output_file (poses_in_ensemble (self w))
          (report_of metric (finalized_values (self w)))]
       (with_self (finalized_values (self w)) w)).
Proof.
  intros Hc Hm Hmode Hfile. unfold produce_final_report_to_file.
  unfold bind at 1, get_self at 1. unfold bind at 1, runtime_assert at 1.
  assert (match output_mode_ (base (self w)) with
          | FILE | TRACER_AND_FILE => true
          | _ => false
          end = true) as -> by (destruct Hmode as [-> | ->]; reflexivity).
  unfold ret at 1. unfold bind at 1, runtime_assert at 1.
  apply String.eqb_neq in Hfile. rewrite Hfile. cbn [negb]. unfold ret at 1.
  unfold bind at 1.
  rewrite (produce_final_report_string_run w Hc Hm).
  reflexivity.
Qed.

Lemma can_finalize_finalized_values (m : CentralTendencyEnsembleMetric Pose) :
  can_finalize m -> derived_finalized_ (finalized_values m) = true.
Proof.
  intros [Hdf|[_ Hst]]; unfold finalized_values.
  - rewrite Hdf. exact Hdf.
  - destruct (derived_finalized_ m) eqn:E; [exact E|].
    destruct (compute_statistics _ _); [reflexivity | congruence].
Qed.

(** A final report with its sinks configured, on statistics that are
    memoized or can be computed. *)
Lemma produce_final_report_run (w : World Pose) metric :
  can_finalize (self w) ->
  simple_metric_ (self w) = Some metric ->
  sinks_configured (output_mode_ (base (self w)))
    (output_filename_ (base (self w))) ->
  produce_final_report w
  = (Ok tt,
     with_output
       (sink_events (output_mode_ (base (self w)))
          (output_filename_ (base (self w)))
          (poses_in_ensemble (self w))
          (report_of metric (finalized_values (self w))))
       (with_self (set_base (set_finalized_ true) (finalized_values (self w))) w)).
Proof.
  intros Hc Hm Hsinks.
  unfold produce_final_report. unfold bind at 1, get_self at 1.
  destruct (output_mode_ (base (self w))) eqn:Emode; cbn [sinks_configured] in Hsinks.
  - destruct Hsinks.
  - rewrite (bind_run _ _ _
               (produce_final_report_to_tracer_run w Hc Hm (or_introl Emode))).
    reflexivity.
  - rewrite bind_assoc.
    rewrite (bind_run _ _ _
               (produce_final_report_to_tracer_run w Hc Hm (or_intror Emode))).
    erewrite bind_run;
      [|apply (@produce_final_report_to_file_run _ metric)].
    + unfold modify, with_output, with_self, poses_in_ensemble.
      cbn [self output inbox sent sink_events].
      rewrite (finalized_values_fixed _ (can_finalize_finalized_values Hc)).
      rewrite finalized_values_base, <- app_assoc. reflexivity.
    + left. apply can_finalize_finalized_values, Hc.
    + cbn. rewrite finalized_values_simple_metric. exact Hm.
    + right. cbn. rewrite finalized_values_base. exact Emode.
    + exact Hsinks.
  - rewrite (bind_run _ _ _
               (produce_final_report_to_file_run w Hc Hm (or_introl Emode) Hsinks)).
    reflexivity.
Qed.

(** X1.  A final report that has returned can be asked for again: the second
    call writes the same report to the same sinks once more and changes
    nothing else (the statistics are not computed again). *)
Theorem produce_final_report_again :
  forall (w w1 : World Pose),
    produce_final_report w = (Ok tt, w1) ->
    exists events,
      output w1 = output w ++ events
      /\ produce_final_report w1 = (Ok tt, with_output events w1).
Proof.
  intros w w1 H.
  apply produce_final_report_returns in H.
  destruct H as [metric [Hm [Hsinks [Hdf ->]]]].
  eexists. split; [reflexivity|].
  rewrite (@produce_final_report_run _ metric).
  - unfold with_output, with_self, poses_in_ensemble.
    cbn [self output inbox sent base set_base set_finalized_ output_mode_
         output_filename_ poses_in_ensemble_].
    rewrite (finalized_values_fixed (set_base _ _)) by exact Hdf.
    rewrite !finalized_values_base. reflexivity.
  - left. exact Hdf.
  - cbn. rewrite finalized_values_simple_metric. exact Hm.
  - cbn [with_output with_self self base set_base].
    rewrite finalized_values_base. exact Hsinks.
Qed.


(** ** Accumulating *)

Lemma apply_accumulates (w : World Pose) pose metric :
  finalized (self w) = false ->
  accumulates (self w) ->
  simple_metric_ (self w) = Some metric ->
  apply pose w = (Ok tt, with_self (added metric pose (self w)) w).
Proof.
  intros Hf [Hp Hmode] Hm.
  unfold apply. unfold bind at 1, get_self at 1.
  unfold bind at 1, runtime_assert at 1. rewrite Hf. cbn [negb]. unfold ret at 1.
  rewrite Hp. rewrite <- bind_assoc.
  rewrite (bind_run _ _ _ (add_value w pose Hm)).
  destruct Hmode as [Hu|Hl].
  - rewrite Hu. destruct (last_mover_ (base (self w))); reflexivity.
  - rewrite Hl. reflexivity.
Qed.

Lemma accumulated_snoc metric poses pose (m : CentralTendencyEnsembleMetric Pose) :
  accumulated metric (poses ++ [pose]) m
  = added metric pose (accumulated metric poses m).
Proof. unfold accumulated. rewrite fold_left_app. reflexivity. Qed.

(** What counting and measuring changes, and what it leaves. *)
Lemma accumulated_fields metric poses (m : CentralTendencyEnsembleMetric Pose) :
  let m' := accumulated metric poses m in
  values_ m' = values_ m ++ map (calculate metric) poses
  /\ simple_metric_ m' = simple_metric_ m
  /\ derived_finalized_ m' = derived_finalized_ m
  /\ statistics_of m' = statistics_of m
  /\ set_poses_in_ensemble_ 0 (base m') = set_poses_in_ensemble_ 0 (base m)
  /\ (count_matches m -> count_matches m').
Proof.
  cbv zeta. revert m. induction poses as [|pose poses IH]; intros m.
  - cbn [accumulated fold_left map]. rewrite app_nil_r. repeat split. auto.
  - change (accumulated metric (pose :: poses) m)
      with (accumulated metric poses (added metric pose m)).
    destruct (IH (added metric pose m)) as [Hv [Hm [Hdf [Hst [Hb Hc]]]]].
    rewrite Hv, Hm, Hdf, Hst, Hb. cbn [map].
    split; [cbn; rewrite <- app_assoc; reflexivity|].
    repeat split. intros C. apply Hc. unfold count_matches in *.
    cbn [added poses_in_ensemble base set_values_ set_base
         set_poses_in_ensemble_ poses_in_ensemble_ values_].
    unfold poses_in_ensemble in C. rewrite C. apply incr_vsize.
Qed.

Lemma accumulated_finalized metric poses (m : CentralTendencyEnsembleMetric Pose) :
  finalized (accumulated metric poses m) = finalized m.
Proof.
  destruct (accumulated_fields metric poses m) as [_ [_ [_ [_ [Hb _]]]]].
  apply (f_equal (@finalized_ Pose)) in Hb. exact Hb.
Qed.

Lemma accumulated_accumulates metric poses (m : CentralTendencyEnsembleMetric Pose) :
  accumulates m -> accumulates (accumulated metric poses m).
Proof.
  destruct (accumulated_fields metric poses m) as [_ [_ [_ [_ [Hb _]]]]].
  pose proof (f_equal (@ensemble_generating_protocol_ Pose) Hb) as E1.
  pose proof (f_equal (@use_additional_output_from_last_mover_ Pose) Hb) as E2.
  pose proof (f_equal (@last_mover_ Pose) Hb) as E3.
  cbn in E1, E2, E3. unfold accumulates. rewrite E1, E2, E3. auto.
Qed.

Lemma accumulated_sinks metric poses (m : CentralTendencyEnsembleMetric Pose) :
  output_mode_ (base (accumulated metric poses m)) = output_mode_ (base m)
  /\ output_filename_ (base (accumulated metric poses m))
     = output_filename_ (base m).
Proof.
  destruct (accumulated_fields metric poses m) as [_ [_ [_ [_ [Hb _]]]]].
  pose proof (f_equal (@output_mode_ Pose) Hb) as E1.
  pose proof (f_equal (@output_filename_ Pose) Hb) as E2.
  split; assumption.
Qed.

(** The count after accumulating onto a well-counted object. *)
Lemma accumulated_count metric poses (m : CentralTendencyEnsembleMetric Pose) :
  well_counted m ->
  (N.of_nat (length (values_ m) + length poses) < Size.modulus)%N ->
  well_counted (accumulated metric poses m)
  /\ poses_in_ensemble (accumulated metric poses m)
     = N.of_nat (length (values_ m) + length poses).
Proof.
  intros [Hc Hlen] Hbound.
  destruct (accumulated_fields metric poses m) as [Hv [_ [_ [_ [_ Hcm]]]]].
  assert (count_matches m) as C.
  { unfold count_matches. rewrite Hc. symmetry. apply vsize_length, Hlen. }
  specialize (Hcm C). unfold count_matches in Hcm.
  assert (length (values_ (accumulated metric poses m))
          = (length (values_ m) + length poses)%nat) as EL.
  { rewrite Hv, length_app, length_map. reflexivity. }
  rewrite vsize_length in Hcm by (rewrite EL; exact Hbound).
  split; [split|].
  - exact Hcm.
  - rewrite EL. exact Hbound.
  - rewrite Hcm, EL. reflexivity.
Qed.

Lemma with_self_self (w : World Pose) : with_self (self w) w = w.
Proof. destruct w; reflexivity. Qed.

Lemma with_self_twice (m m' : CentralTendencyEnsembleMetric Pose) w :
  with_self m' (with_self m w) = with_self m' w.
Proof. reflexivity. Qed.

(** A run of [apply] calls in the accumulating configuration. *)
Lemma run_applies metric poses rest (w : World Pose) :
  finalized (self w) = false ->
  accumulates (self w) ->
  simple_metric_ (self w) = Some metric ->
  run (map (@Op_apply Pose) poses ++ rest) w
  = run rest (with_self (accumulated metric poses (self w)) w).
Proof.
  revert w. induction poses as [|pose poses IH]; intros w Hf Ha Hm.
  - cbn [map app accumulated fold_left]. rewrite with_self_self. reflexivity.
  - cbn [map app run perform]. rewrite (apply_accumulates w pose Hf Ha Hm).
    rewrite IH.
    + reflexivity.
    + exact Hf.
    + exact Ha.
    + exact Hm.
Qed.

(** The statistics once computed from a non-empty vector. *)
Lemma finalized_values_computed (m : CentralTendencyEnsembleMetric Pose) :
  derived_finalized_ m = false ->
  values_ m <> [] ->
  (N.of_nat (length (values_ m)) < Size.modulus)%N ->
  finalized_values m
  = set_statistics (statistics_of_values (poses_in_ensemble m) (values_ m))
      (set_derived_finalized_ true m).
Proof.
  intros Hdf Hne Hlen. unfold finalized_values.
  rewrite Hdf, (compute_statistics_eq _ Hne Hlen). reflexivity.
Qed.

Lemma can_finalize_nonempty (m : CentralTendencyEnsembleMetric Pose) :
  well_counted m -> values_ m <> [] -> can_finalize m.
Proof.
  intros [Hc Hlen] Hne. right. split.
  - rewrite Hc. destruct (values_ m); [congruence | cbn; lia].
  - rewrite (compute_statistics_eq _ Hne Hlen). discriminate.
Qed.

(** X2.  [reset()] gives a fresh start whatever went before: reset, then
    [apply] on each of a non-empty list of poses (in the accumulating
    configuration), then the final report, leaves the metric finalized with
    the statistics of exactly the new measurements. *)
Theorem reset_starts_afresh :
  forall (w : World Pose) (metric : RealMetric Pose) (poses : list Pose),
    simple_metric_ (self w) = Some metric ->
    accumulates (self w) ->
    sinks_configured (output_mode_ (base (self w)))
      (output_filename_ (base (self w))) ->
    poses <> [] ->
    (N.of_nat (length poses) < Size.modulus)%N ->
    exists w',
      run (Op_reset Pose :: map (@Op_apply Pose) poses
           ++ [Op_produce_final_report Pose]) w = Some w'
      /\ finalized (self w') = true
      /\ values_ (self w') = map (calculate metric) poses
      /\ poses_in_ensemble (self w') = N.of_nat (length poses)
      /\ statistics_of (self w')
         = statistics_of_values (N.of_nat (length poses))
             (map (calculate metric) poses).
Proof.
  intros w metric poses Hm Ha Hsinks Hne Hlen.
  cbn [run perform]. unfold modify at 1.
  change {| self := reset (self w); output := output w;
            inbox := inbox w; sent := sent w |}
    with (with_self (reset (self w)) w).
  rewrite (@run_applies metric); [|reflexivity|exact Ha|exact Hm].
  cbn [with_self self]. rewrite with_self_twice.
  set (m1 := accumulated metric poses (reset (self w))).
  destruct (accumulated_fields metric poses (reset (self w)))
    as [Hv [Hm1 [Hdf [_ [_ _]]]]].
  destruct (@accumulated_count metric poses (reset (self w))) as [Hwc Hp].
  { split; [reflexivity | cbn; reflexivity]. }
  { exact Hlen. }
  fold m1 in Hv, Hm1, Hdf, Hwc, Hp. cbn [reset derived_reset values_ set_values_
    set_derived_finalized_ app length Nat.add] in Hv, Hp.
  change (values_ (reset (self w))) with (@nil float) in Hv.
  cbn [app] in Hv.
  assert (values_ m1 <> []) as Hne1.
  { rewrite Hv. destruct poses; [congruence | discriminate]. }
  destruct (accumulated_sinks metric poses (reset (self w))) as [Emode Efile].
  fold m1 in Emode, Efile.
  cbn [run perform].
  rewrite (@produce_final_report_run (with_self m1 w) metric).
  - eexists. split; [reflexivity|].
    cbn [with_output with_self self].
    rewrite (finalized_values_computed m1 Hdf Hne1 (proj2 Hwc)).
    repeat split.
    + exact Hv.
    + exact Hp.
    + cbn [statistics_of set_base set_statistics mean_ median_ mode_ stddev_
           stderr_ min_ max_ range_].
      rewrite Hp, Hv. destruct (statistics_of_values _ _); reflexivity.
  - apply can_finalize_nonempty; assumption.
  - cbn [with_self self]. rewrite Hm1. exact Hm.
  - cbn [with_self self]. rewrite Emode, Efile. exact Hsinks.
Qed.

(** ** A file sink without a file name *)

Lemma destructor_reports (w : World Pose) :
  finalized (self w) = false ->
  (0 < poses_in_ensemble (self w))%N ->
  destructor w = noexcept produce_final_report w.
Proof.
  intros Hf Hpos. unfold destructor, bind, get_self.
  apply N.ltb_lt in Hpos. rewrite Hf, Hpos. reflexivity.
Qed.

(** X3.  With output mode [file] or [tracer_and_file] and no file name, the
    final report of a non-empty ensemble throws.  In mode [file] nothing has
    happened by then.  In mode [tracer_and_file] the report has already gone
    to the tracer and the statistics are memoized, but the metric is not
    finalized.  The destructor, which makes the same call, cannot let the
    exception pass: the program terminates. *)
Theorem report_without_file_name :
  forall (w : World Pose) (metric : RealMetric Pose),
    output_filename_ (base (self w)) = EmptyString ->
    simple_metric_ (self w) = Some metric ->
    can_finalize (self w) ->
    finalized (self w) = false ->
    (0 < poses_in_ensemble (self w))%N ->
    (output_mode_ (base (self w)) = FILE ->
     produce_final_report w = (Throw NoOutputFileError, w)
     /\ destructor w = (Crash (Terminate NoOutputFileError), w))
    /\
    (output_mode_ (base (self w)) = TRACER_AND_FILE ->
     let w' :=
       with_output
         [TracerHeader name (poses_in_ensemble (self w));
          TracerReport
            (report_carrying (metric_name metric)
               (statistics_of (finalized_values (self w))))]
         (with_self (finalized_values (self w)) w) in
     produce_final_report w = (Throw NoOutputFileError, w')
     /\ finalized (self w') = false
     /\ derived_finalized_ (self w') = true
     /\ destructor w = (Crash (Terminate NoOutputFileError), w')).
Proof.
  intros w metric Hfile Hm Hc Hf Hpos. split; intros Hmode.
  - assert (produce_final_report w = (Throw NoOutputFileError, w)) as R.
    { unfold produce_final_report. unfold bind at 1, get_self at 1.
      rewrite Hmode, Hfile. unfold bind at 1.
      unfold produce_final_report_to_file. unfold bind at 1, get_self at 1.
      rewrite Hmode. reflexivity. }
    split; [exact R|].
    rewrite (destructor_reports w Hf Hpos). unfold noexcept. rewrite R.
    reflexivity.
  - cbv zeta.
    change (report_carrying (metric_name metric)
              (statistics_of (finalized_values (self w))))
      with (report_of metric (finalized_values (self w))).
    assert (produce_final_report w
            = (Throw NoOutputFileError,
               with_output
                 [TracerHeader name (poses_in_ensemble (self w));
                  TracerReport (report_of metric (finalized_values (self w)))]
                 (with_self (finalized_values (self w)) w))) as R.
    { unfold produce_final_report. unfold bind at 1, get_self at 1.
      rewrite Hmode, Hfile. rewrite bind_assoc.
      rewrite (bind_run _ _ _
                 (produce_final_report_to_tracer_run w Hc Hm (or_intror Hmode))).
      unfold bind at 1.
      unfold produce_final_report_to_file. unfold bind at 1, get_self at 1.
      cbn [with_output with_self self]. rewrite finalized_values_base, Hmode.
      reflexivity. }
    split; [exact R|]. split; [|split].
    + cbn [with_output with_self self]. unfold finalized.
      rewrite finalized_values_base. exact Hf.
    + apply can_finalize_finalized_values, Hc.
    + rewrite (destructor_reports w Hf Hpos). unfold noexcept. rewrite R.
      reflexivity.
Qed.

(** ** A metric without its simple metric *)

(** X4.  If [set_real_metric] was never called, [apply] throws (after
    counting the pose) and the object is left with a positive count and no
    values; when it is then destroyed, the destructor's final report indexes
    the empty vector outside its bounds. *)
Theorem missing_simple_metric_breaks_destructor :
  forall (w : World Pose) (pose : Pose),
    simple_metric_ (self w) = None ->
    finalized (self w) = false ->
    ensemble_generating_protocol_ (base (self w)) = None ->
    values_ (self w) = [] ->
    derived_finalized_ (self w) = false ->
    sinks_configured (output_mode_ (base (self w)))
      (output_filename_ (base (self w))) ->
    Size.incr (poses_in_ensemble (self w)) <> 0%N ->
    exists w1 w2,
      apply pose w = (Throw NoSimpleMetricError, w1)
      /\ values_ (self w1) = []
      /\ poses_in_ensemble (self w1) = Size.incr (poses_in_ensemble (self w))
      /\ destructor w1 = (Crash OutOfBounds, w2).
Proof.
  intros w pose Hm Hf Hp Hv Hdf Hsinks Hincr.
  set (m1 := set_base
               (fun e => set_poses_in_ensemble_ (Size.incr (poses_in_ensemble_ e)) e)
               (self w)).
  assert (apply pose w = (Throw NoSimpleMetricError, with_self m1 w)) as A.
  { unfold apply. unfold bind at 1, get_self at 1.
    unfold bind at 1, runtime_assert at 1. rewrite Hf. cbn [negb]. unfold ret at 1.
    rewrite Hp. unfold bind at 1, increment_count at 1, modify at 1.
    unfold bind at 1, add_pose_to_ensemble, bind, get_self.
    cbn [self set_base simple_metric_]. rewrite Hm. reflexivity. }
  assert (0 < poses_in_ensemble m1)%N as Hpos.
  { unfold m1, poses_in_ensemble in *. cbn. lia. }
  assert (forall out,
            @finalize_values Pose
              {| self := m1; output := out; inbox := inbox w; sent := sent w |}
            = (Crash OutOfBounds,
               {| self := set_derived_finalized_ true m1; output := out;
                  inbox := inbox w; sent := sent w |})) as F.
  { intros out. unfold finalize_values, bind, get_self. cbn [self].
    change (derived_finalized_ m1) with (derived_finalized_ (self w)).
    rewrite Hdf. unfold modify, runtime_assert.
    apply N.ltb_lt in Hpos. rewrite Hpos. unfold ret.
    change (values_ m1) with (values_ (self w)). rewrite Hv.
    reflexivity. }
  assert (exists w2, destructor (with_self m1 w) = (Crash OutOfBounds, w2)) as D.
  { rewrite destructor_reports; [|exact Hf|exact Hpos].
    unfold with_self.
    unfold noexcept, produce_final_report. unfold bind at 1, get_self at 1.
    cbn [self].
    change (output_mode_ (base m1)) with (output_mode_ (base (self w))).
    change (output_filename_ (base m1)) with (output_filename_ (base (self w))).
    destruct (output_mode_ (base (self w))) eqn:Emode;
      cbn [sinks_configured] in Hsinks.
    - destruct Hsinks.
    - eexists. unfold bind at 1. unfold produce_final_report_to_tracer.
      unfold bind at 1, get_self at 1. cbn [self].
      change (output_mode_ (base m1)) with (output_mode_ (base (self w))).
      rewrite Emode. unfold bind at 1, runtime_assert at 1, ret at 1.
      unfold bind at 1, emit at 1. cbn [self output inbox sent].
      unfold bind at 1, produce_final_report_string. unfold bind at 1.
      rewrite F. reflexivity.
    - eexists. unfold bind at 1. unfold bind at 1.
      unfold produce_final_report_to_tracer.
      unfold bind at 1, get_self at 1. cbn [self].
      change (output_mode_ (base m1)) with (output_mode_ (base (self w))).
      rewrite Emode. unfold bind at 1, runtime_assert at 1, ret at 1.
      unfold bind at 1, emit at 1. cbn [self output inbox sent].
      unfold bind at 1, produce_final_report_string. unfold bind at 1.
      rewrite F. reflexivity.
    - eexists. unfold bind at 1. unfold produce_final_report_to_file.
      unfold bind at 1, get_self at 1. cbn [self].
      change (output_mode_ (base m1)) with (output_mode_ (base (self w))).
      rewrite Emode. unfold bind at 1, runtime_assert at 1, ret at 1.
      apply String.eqb_neq in Hsinks. rewrite Hsinks.
      unfold bind at 1, runtime_assert at 1, ret at 1. cbn [negb].
      unfold bind at 1, produce_final_report_string. unfold bind at 1.
      rewrite F. reflexivity. }
  destruct D as [w2 D].
  exists (with_self m1 w), w2.
  split; [exact A|]. split; [exact Hv|]. split; [reflexivity | exact D].
Qed.

(** ** The two ways [apply()] builds an ensemble at once *)

Lemma drain_additional_output_run (w : World Pose) outputs metric :
  simple_metric_ (self w) = Some metric ->
  drain_additional_output outputs w
  = (Ok tt, with_self (accumulated metric outputs (self w)) w).
Proof.
  revert w. induction outputs as [|curpose rest IH]; intros w Hm.
  - cbn [drain_additional_output accumulated fold_left].
    rewrite with_self_self. reflexivity.
  - cbn [drain_additional_output]. rewrite <- bind_assoc.
    rewrite (bind_run _ _ _ (add_value w curpose Hm)).
    rewrite IH by exact Hm. reflexivity.
Qed.

(** The final report on what has just been accumulated onto a well-counted,
    not yet computed object. *)
Lemma report_accumulated (w : World Pose) metric poses :
  simple_metric_ (self w) = Some metric ->
  derived_finalized_ (self w) = false ->
  well_counted (self w) ->
  (N.of_nat (length (values_ (self w)) + length poses) < Size.modulus)%N ->
  values_ (self w) ++ map (calculate metric) poses <> [] ->
  sinks_configured (output_mode_ (base (self w)))
    (output_filename_ (base (self w))) ->
  let V := values_ (self w) ++ map (calculate metric) poses in
  exists w',
    produce_final_report (with_self (accumulated metric poses (self w)) w)
    = (Ok tt, w')
    /\ values_ (self w') = V
    /\ poses_in_ensemble (self w') = N.of_nat (length V)
    /\ finalized (self w') = true
    /\ statistics_of (self w') = statistics_of_values (N.of_nat (length V)) V
    /\ output w'
       = output w ++
         sink_events (output_mode_ (base (self w)))
           (output_filename_ (base (self w)))
           (N.of_nat (length V)) (report_of metric (self w')).
Proof.
  intros Hm Hdf Hwc Hbound Hne Hsinks V.
  set (m1 := accumulated metric poses (self w)).
  destruct (accumulated_fields metric poses (self w))
    as [Hv [Hm1 [Hdf1 [_ [_ _]]]]].
  destruct (accumulated_count metric poses Hwc Hbound) as [Hwc1 Hp1].
  destruct (accumulated_sinks metric poses (self w)) as [Emode Efile].
  fold m1 in Hv, Hm1, Hdf1, Hwc1, Hp1, Emode, Efile. fold V in Hv.
  assert (length V = (length (values_ (self w)) + length poses)%nat) as EL
      by (unfold V; rewrite length_app, length_map; reflexivity).
  rewrite <- EL in Hp1.
  assert (values_ m1 <> []) as Hne1 by (rewrite Hv; exact Hne).
  rewrite Hdf in Hdf1.
  rewrite (@produce_final_report_run (with_self m1 w) metric).
  - eexists. split; [reflexivity|].
    cbn [with_output with_self self output].
    rewrite (finalized_values_computed m1 Hdf1 Hne1 (proj2 Hwc1)).
    rewrite Emode, Efile, Hp1, Hv.
    split; [exact Hv|]. split; [exact Hp1|]. split; [reflexivity|].
    split; [|reflexivity].
    cbn [statistics_of set_base set_statistics mean_ median_ mode_ stddev_
         stderr_ min_ max_ range_].
    destruct (statistics_of_values _ _); reflexivity.
  - apply can_finalize_nonempty; assumption.
  - cbn [with_self self]. rewrite Hm1. exact Hm.
  - cbn [with_self self]. rewrite Emode, Efile. exact Hsinks.
Qed.

(** X5.  With no generating protocol, the multi-output flag set and a
    previous mover, one [apply] measures the pose it is given and then every
    additional output of (a copy of) the previous mover, in order, and
    reports at once: the metric ends finalized with the statistics of all the
    values it holds. *)
Theorem apply_measures_additional_output :
  forall (w : World Pose) (pose : Pose) (metric : RealMetric Pose)
         (previous : Mover Pose),
    finalized (self w) = false ->
    ensemble_generating_protocol_ (base (self w)) = None ->
    use_additional_output_from_last_mover_ (base (self w)) = true ->
    last_mover_ (base (self w)) = Some previous ->
    simple_metric_ (self w) = Some metric ->
    derived_finalized_ (self w) = false ->
    well_counted (self w) ->
    (N.of_nat (length (values_ (self w))
               + length (pose :: additional_output previous))
     < Size.modulus)%N ->
    sinks_configured (output_mode_ (base (self w)))
      (output_filename_ (base (self w))) ->
    let V := values_ (self w)
             ++ map (calculate metric) (pose :: additional_output previous) in
    exists w',
      apply pose w = (Ok tt, w')
      /\ values_ (self w') = V
      /\ poses_in_ensemble (self w') = N.of_nat (length V)
      /\ finalized (self w') = true
      /\ statistics_of (self w') = statistics_of_values (N.of_nat (length V)) V
      /\ output w'
         = output w ++
           sink_events (output_mode_ (base (self w)))
             (output_filename_ (base (self w)))
             (N.of_nat (length V))
             (report_carrying (metric_name metric)
                (statistics_of_values (N.of_nat (length V)) V)).
Proof.
  intros w pose metric previous Hf Hp Hu Hl Hm Hdf Hwc Hbound Hsinks V.
  destruct (@report_accumulated w metric (pose :: additional_output previous)
              Hm Hdf Hwc Hbound) as [w' [R [Hv [Hcount [Hfin [Hst Hout]]]]]].
  { cbn [map]. intros E. apply app_eq_nil in E. destruct E; discriminate. }
  { exact Hsinks. }
  exists w'. split.
  { unfold apply. unfold bind at 1, get_self at 1.
    unfold bind at 1, runtime_assert at 1. rewrite Hf. cbn [negb].
    unfold ret at 1.
    rewrite Hp, Hl, Hu. rewrite <- bind_assoc.
    rewrite (bind_run _ _ _ (add_value w pose Hm)).
    unfold clone.
    erewrite bind_run; [|apply drain_additional_output_run; exact Hm].
    exact R. }
  split; [exact Hv|]. split; [exact Hcount|]. split; [exact Hfin|].
  split; [exact Hst|].
  subst V. rewrite Hout, <- Hst. reflexivity.
Qed.

(** The work vector of a protocol that succeeds on the pose: one measurement
    of its result per work item. *)
Lemma work_vector_succeeds (w : World Pose) pose protocol metric indices :
  simple_metric_ (self w) = Some metric ->
  snd (mover_apply protocol pose) = MS_SUCCESS ->
  do_work_vector_in_threads
    (map (fun i => generate_one_ensemble_entry (N.of_nat i) pose protocol None)
       indices) w
  = (Ok tt,
     with_self
       (accumulated metric
          (repeat (fst (mover_apply protocol pose)) (length indices)) (self w))
       w).
Proof.
  intros Hm Hs. revert w Hm.
  induction indices as [|i indices IH]; intros w Hm.
  - cbn [map do_work_vector_in_threads length repeat accumulated fold_left].
    rewrite with_self_self. reflexivity.
  - cbn [map do_work_vector_in_threads length repeat].
    unfold generate_one_ensemble_entry at 1, apply_and_measure, clone.
    rewrite Hs.
    rewrite (bind_run _ _ _ (add_value w _ Hm)).
    rewrite IH by exact Hm. reflexivity.
Qed.

(** The work vector of a protocol that fails on the pose measures nothing. *)
Lemma work_vector_fails (w : World Pose) pose protocol indices :
  snd (mover_apply protocol pose) = MS_FAILURE ->
  do_work_vector_in_threads
    (map (fun i => generate_one_ensemble_entry (N.of_nat i) pose protocol None)
       indices) w
  = (Ok tt, w).
Proof.
  intros Hs. induction indices as [|i indices IH].
  - reflexivity.
  - cbn [map do_work_vector_in_threads].
    unfold generate_one_ensemble_entry at 1, apply_and_measure, clone.
    rewrite Hs. unfold bind at 1, ret at 1. exact IH.
Qed.

Lemma generate_without_multiple_outputs (w : World Pose) pose protocol :
  ensemble_generating_protocol_ (base (self w)) = Some protocol ->
  (use_additional_output_from_last_mover_ (base (self w)) = false
   \/ last_mover_ (base (self w)) = None) ->
  generate_ensemble_and_apply_to_poses pose w
  = do_work_vector_in_threads
      (map (fun i => generate_one_ensemble_entry (N.of_nat i) pose protocol None)
         (seq 1 (N.to_nat (ensemble_generating_protocol_repeats_ (base (self w))))))
      w.
Proof.
  intros Hp Hmode. unfold generate_ensemble_and_apply_to_poses.
  unfold bind, get_self. rewrite Hp.
  destruct Hmode as [Hu|Hl].
  - rewrite Hu. destruct (last_mover_ (base (self w))); reflexivity.
  - rewrite Hl. reflexivity.
Qed.


(** ** Sending a summary, and receiving it *)

Lemma int_of_Size_small n : (n < 2 ^ 31)%N -> int_of_Size n = Z.of_N n.
Proof.
  intros H. unfold int_of_Size.
  assert (Z.of_N n mod 2 ^ 32 = Z.of_N n)%Z as ->
      by (apply Z.mod_small; lia).
  destruct (Z.ltb_spec (Z.of_N n) (2 ^ 31)); lia.
Qed.

Lemma Size_of_int_of_N n : (n < Size.modulus)%N -> Size_of_int (Z.of_N n) = n.
Proof.
  intros H. unfold Size_of_int, Size.modulus in *.
  rewrite Z.mod_small by lia. apply N2Z.id.
Qed.

Lemma send_mpi_summary_run (w : World Pose) (receiving_node_index : N) :
  (poses_in_ensemble (self w) < 2 ^ 31)%N ->
  well_counted (self w) ->
  send_mpi_summary receiving_node_index w
  = (Ok tt,
     {| self := self w; output := output w; inbox := inbox w;
        sent := sent w ++
                summary_messages (int_of_Size receiving_node_index)
                  (Z.of_N (poses_in_ensemble (self w)))
                  (values_ (self w)) |}).
Proof.
  intros Hsmall [Hc Hlen].
  unfold send_mpi_summary. unfold bind at 1, get_self at 1.
  unfold bind at 1, runtime_assert at 1.
  rewrite (vsize_length _ Hlen), (int_of_Size_small Hsmall).
  rewrite Size_of_int_of_N by (unfold Size.modulus; lia).
  rewrite (proj2 (N.eqb_eq _ _) Hc).
  unfold ret at 1. unfold bind at 1, MPI_Send at 1.
  cbn [self output inbox sent]. unfold summary_messages.
  destruct (Z.ltb_spec 0 (Z.of_N (poses_in_ensemble (self w)))) as [Hpos|Hzero].
  - unfold MPI_Send. cbn [self output inbox sent].
    rewrite <- app_assoc. cbn [app].
    replace (Z.to_nat (Z.of_N (poses_in_ensemble (self w))))
      with (length (values_ (self w))) by lia.
    rewrite firstn_all. reflexivity.
  - unfold ret. reflexivity.
Qed.

(** X7.  [send_mpi_summary] on a count below 2^31 sends exactly when the
    count is the number of values held: the count goes out, followed by all
    the values if there are any, and the object is untouched; on a mismatch
    it throws before anything is sent.  A count of 2^31 or more does not fit
    the [int] that carries it: even when it is the number of values held,
    the call throws and nothing is sent. *)
Theorem send_mpi_summary_sends :
  forall (w : World Pose) (receiving_node_index : N),
    (poses_in_ensemble (self w) < 2 ^ 63)%N ->
    (N.of_nat (length (values_ (self w))) < 2 ^ 63)%N ->
    ((poses_in_ensemble (self w) < 2 ^ 31)%N ->
     send_mpi_summary receiving_node_index w
     = if (poses_in_ensemble (self w)
           =? N.of_nat (length (values_ (self w))))%N
       then (Ok tt,
             {| self := self w; output := output w; inbox := inbox w;
                sent := sent w ++
                        summary_messages (int_of_Size receiving_node_index)
                          (Z.of_N (poses_in_ensemble (self w)))
                          (values_ (self w)) |})
       else (Throw MPIAssertionError, w))
    /\
    ((2 ^ 31 <= poses_in_ensemble (self w))%N ->
     poses_in_ensemble (self w) = N.of_nat (length (values_ (self w))) ->
     send_mpi_summary receiving_node_index w = (Throw MPIAssertionError, w)).
Proof.
  intros w dest Hp Hv.
  assert (vsize (values_ (self w)) = N.of_nat (length (values_ (self w)))) as EV.
  { apply vsize_length. unfold Size.modulus. lia. }
  split.
  - intros Hsmall.
    unfold send_mpi_summary. unfold bind at 1, get_self at 1.
    unfold bind at 1, runtime_assert at 1. rewrite EV.
    set (p := poses_in_ensemble (self w)) in *.
    set (n := N.of_nat (length (values_ (self w)))) in *.
    rewrite (int_of_Size_small Hsmall).
    rewrite Size_of_int_of_N by (unfold Size.modulus; lia).
    destruct (N.eqb_spec p n) as [E|E]; [|reflexivity].
    unfold ret at 1. unfold bind at 1, MPI_Send at 1.
    cbn [self output inbox sent]. unfold summary_messages.
    destruct (Z.ltb_spec 0 (Z.of_N p)) as [Hpos|Hzero].
    + unfold MPI_Send. cbn [self output inbox sent].
      rewrite <- app_assoc. cbn [app].
      replace (Z.to_nat (Z.of_N p)) with (length (values_ (self w)))
        by (unfold n in E; lia).
      rewrite firstn_all. reflexivity.
    + unfold ret. reflexivity.
  - intros Hbig E.
    unfold send_mpi_summary. unfold bind at 1, get_self at 1.
    unfold bind at 1, runtime_assert at 1. rewrite EV, <- E.
    set (p := poses_in_ensemble (self w)) in *.
    assert ((Size_of_int (int_of_Size p) =? p)%N = false) as ->; [|reflexivity].
    apply N.eqb_neq. unfold Size_of_int, int_of_Size.
    destruct (Z.ltb_spec (Z.of_N p mod 2 ^ 32) (2 ^ 31)) as [Hr|Hr]; lia.
Qed.

Lemma recv_mpi_summary_zero (w : World Pose) source rest :
  inbox w = (source, MPI_INT 0) :: rest ->
  (0 <= source)%Z ->
  recv_mpi_summary w = (Ok (Size_of_int source), set_inbox rest w).
Proof.
  intros Hin Hs.
  unfold recv_mpi_summary, bind, MPI_Recv_int, runtime_assert.
  rewrite Hin. cbn [take_first fst snd].
  apply Z.leb_le in Hs. rewrite Hs. reflexivity.
Qed.

Lemma recv_mpi_summary_positive (w : World Pose) source before vs after :
  inbox w
  = (source, MPI_INT (Z.of_nat (length vs)))
    :: before ++ (source, MPI_DOUBLE vs) :: after ->
  Forall (fun msg => fst msg <> source) before ->
  (0 <= source)%Z -> vs <> [] ->
  recv_mpi_summary w
  = (Ok (Size_of_int source),
     with_self (received vs (self w)) (set_inbox (before ++ after) w)).
Proof.
  intros Hin Hb Hs Hne.
  assert (0 < Z.of_nat (length vs))%Z as Hn
      by (destruct vs; [congruence | cbn [length]; lia]).
  unfold recv_mpi_summary. unfold bind at 1. unfold MPI_Recv_int.
  rewrite Hin. cbn [take_first fst snd].
  unfold bind at 1, runtime_assert at 1.
  assert ((0 <=? Z.of_nat (length vs))%Z = true) as -> by (apply Z.leb_le; lia).
  unfold ret at 1.
  unfold bind at 1, runtime_assert at 1.
  assert ((0 <=? source)%Z = true) as -> by (apply Z.leb_le; lia).
  unfold ret at 1.
  assert ((Z.of_nat (length vs) =? 0)%Z = false) as -> by (apply Z.eqb_neq; lia).
  unfold bind at 1, get_self at 1.
  unfold bind at 1, modify at 1.
  unfold bind at 1, MPI_Recv_double.
  cbn [inbox set_inbox].
  rewrite take_first_skip.
  - rewrite Nat2Z.id, Nat.leb_refl.
    unfold bind at 1, modify at 1.
    unfold bind at 1, runtime_assert at 1. cbn [snd].
    rewrite Z.eqb_refl. unfold ret at 1.
    unfold bind at 1, increment_poses_in_ensemble, modify, ret.
    cbn [fst]. rewrite Nat.sub_diag. cbn [repeat]. rewrite app_nil_r.
    reflexivity.
  - rewrite Forall_forall in *. intros msg Hm.
    apply Z.eqb_neq. apply Hb, Hm.
  - cbn [fst]. apply Z.eqb_refl.
Qed.

Lemma Size_of_int_of_nat n :
  (N.of_nat n < Size.modulus)%N -> Size_of_int (Z.of_nat n) = N.of_nat n.
Proof.
  intros H. rewrite <- (Size_of_int_of_N H). f_equal. lia.
Qed.

(** Merging into a well-counted object. *)
Lemma received_count vs (m : CentralTendencyEnsembleMetric Pose) :
  well_counted m ->
  (N.of_nat (length (values_ m) + length vs) < Size.modulus)%N ->
  well_counted (received vs m)
  /\ values_ (received vs m) = values_ m ++ vs
  /\ poses_in_ensemble (received vs m)
     = Size.add (poses_in_ensemble m) (Size_of_int (Z.of_nat (length vs))).
Proof.
  intros [Hc Hlen] Hbound. split; [|split; reflexivity].
  unfold well_counted, received.
  cbn [poses_in_ensemble base set_base set_values_ set_poses_in_ensemble_
       poses_in_ensemble_ values_].
  unfold poses_in_ensemble in Hc. rewrite Hc, length_app.
  rewrite Size_of_int_of_nat by lia.
  split; [|exact Hbound].
  rewrite add_small by lia. lia.
Qed.

(** X8.  What a worker sends, the coordinator receives: the messages of
    [send_mpi_summary] on a well-counted worker (fewer than 2^31 values),
    delivered to a coordinator in place of whatever it had pending, make
    [recv_mpi_summary] return the worker's rank with the worker's values
    appended to the coordinator's and its count added; the worker's object is
    unchanged. *)
Theorem mpi_summary_round_trip :
  forall (worker coordinator : World Pose) (rank : Z)
         (receiving_node_index : N),
    well_counted (self worker) ->
    (poses_in_ensemble (self worker) < 2 ^ 31)%N ->
    (0 <= rank)%Z ->
    (poses_in_ensemble (self coordinator) < Size.modulus)%N ->
    exists msgs worker' coordinator',
      send_mpi_summary receiving_node_index worker = (Ok tt, worker')
      /\ sent worker' = sent worker ++ msgs
      /\ self worker' = self worker
      /\ recv_mpi_summary (set_inbox (arriving_from rank msgs) coordinator)
         = (Ok (Size_of_int rank), coordinator')
      /\ values_ (self coordinator')
         = values_ (self coordinator) ++ values_ (self worker)
      /\ poses_in_ensemble (self coordinator')
         = Size.add (poses_in_ensemble (self coordinator))
             (poses_in_ensemble (self worker))
      /\ inbox coordinator' = [].
Proof.
  intros worker coordinator rank dest Hwc Hsmall Hrank Hpc.
  pose proof (@send_mpi_summary_run worker dest Hsmall Hwc) as S.
  destruct Hwc as [Hc Hlen]. unfold summary_messages in S.
  destruct (Z.ltb_spec 0 (Z.of_N (poses_in_ensemble (self worker))))
    as [Hpos|Hzero].
  - assert (values_ (self worker) <> []) as Hne.
    { intros E. rewrite E in Hc. cbn in Hc. lia. }
    eexists. eexists. eexists.
    split; [exact S|]. split; [reflexivity|]. split; [reflexivity|].
    unfold arriving_from. cbn [map snd].
    rewrite Hc, nat_N_Z.
    split; [|split; [|split]].
    + apply (@recv_mpi_summary_positive _ rank [] (values_ (self worker)) []).
      * reflexivity.
      * constructor.
      * exact Hrank.
      * exact Hne.
    + reflexivity.
    + cbn [with_self self received poses_in_ensemble base set_base
           set_poses_in_ensemble_ poses_in_ensemble_ set_values_ set_inbox].
      rewrite Size_of_int_of_nat by exact Hlen. reflexivity.
    + reflexivity.
  - assert (poses_in_ensemble (self worker) = 0%N) as E0 by lia.
    assert (values_ (self worker) = []) as EV.
    { destruct (values_ (self worker)); [reflexivity|].
      rewrite E0 in Hc. cbn [length] in Hc. lia. }
    eexists. eexists. eexists.
    split; [exact S|]. split; [reflexivity|]. split; [reflexivity|].
    unfold arriving_from. cbn [map snd].
    rewrite E0. change (Z.of_N 0) with 0%Z.
    split; [|split; [|split]].
    + apply recv_mpi_summary_zero; [reflexivity | exact Hrank].
    + rewrite EV, app_nil_r. reflexivity.
    + cbn [set_inbox self]. unfold Size.add, Size.wrap.
      rewrite N.add_0_r. symmetry. apply N.mod_small, Hpc.
    + reflexivity.
Qed.

(** ** Gathering from several peers *)

Lemma from_cons rank msg inbox :
  from rank (msg :: inbox)
  = if (fst msg =? rank)%Z then msg :: from rank inbox else from rank inbox.
Proof. reflexivity. Qed.

Lemma from_app rank l1 l2 : from rank (l1 ++ l2) = from rank l1 ++ from rank l2.
Proof. apply filter_app. Qed.

Lemma from_none rank l :
  Forall (fun msg : Z * MPI_payload => fst msg <> rank) l -> from rank l = [].
Proof.
  induction 1 as [|msg l Hm _ IH]; [reflexivity|].
  rewrite from_cons. apply Z.eqb_neq in Hm. rewrite Hm. exact IH.
Qed.

Lemma filter_singleton A (p : A -> bool) l x :
  filter p l = [x] ->
  exists before after,
    l = before ++ x :: after
    /\ Forall (fun y => p y = false) before
    /\ Forall (fun y => p y = false) after.
Proof.
  induction l as [|y l IH]; cbn [filter]; [discriminate|].
  destruct (p y) eqn:Py; intros H.
  - injection H as -> H. exists [], l. split; [reflexivity|].
    split; [constructor|].
    rewrite Forall_forall. intros z Hz.
    destruct (p z) eqn:Pz; [|reflexivity].
    assert (In z (filter p l)) as Hin by (apply filter_In; split; assumption).
    rewrite H in Hin. destruct Hin.
  - destruct (IH H) as [before [after [-> [Hb Ha]]]].
    exists (y :: before), after. split; [reflexivity|].
    split; [constructor; assumption | exact Ha].
Qed.

Lemma concat_values_remove (l1 l2 : list (Z * list float)) peer :
  length (concat (map snd (l1 ++ peer :: l2)))
  = (length (snd peer) + length (concat (map snd (l1 ++ l2))))%nat.
Proof.
  rewrite !map_app, !concat_app, !length_app. cbn [map concat].
  rewrite length_app. lia.
Qed.

Lemma peer_messages_eq rank vs :
  peer_messages (rank, vs)
  = (rank, MPI_INT (Z.of_nat (length vs)))
    :: match vs with
       | [] => []
       | _ :: _ => [(rank, MPI_DOUBLE vs)]
       end.
Proof.
  unfold peer_messages, summary_messages, arriving_from. cbn [fst snd map].
  destruct vs as [|v vs]; [reflexivity|].
  destruct (Z.ltb_spec 0 (Z.of_nat (length (v :: vs)))) as [_|H];
    [reflexivity | cbn [length] in H; lia].
Qed.

Lemma gather (n : nat) :
  forall (peers : list (Z * list float)) (w : World Pose),
    length peers = n ->
    NoDup (map fst peers) ->
    Forall valid_peer peers ->
    (forall peer, In peer peers ->
       from (fst peer) (inbox w) = peer_messages peer) ->
    (forall msg, In msg (inbox w) -> In (fst msg) (map fst peers)) ->
    well_counted (self w) ->
    (N.of_nat (length (values_ (self w)) + length (concat (map snd peers)))
     < Size.modulus)%N ->
    exists order w',
      Permutation order peers
      /\ run (repeat (Op_recv_mpi_summary Pose) n) w = Some w'
      /\ values_ (self w') = values_ (self w) ++ concat (map snd order)
      /\ well_counted (self w')
      /\ inbox w' = []
      /\ output w' = output w.
Proof.
  induction n as [|k IH]; intros peers w Hn Hnd Hvalid Hfrom Hsrc Hwc Hbound.
  - destruct peers; [|discriminate].
    exists [], w. split; [constructor|]. split; [reflexivity|].
    split; [cbn; rewrite app_nil_r; reflexivity|].
    split; [exact Hwc|]. split; [|reflexivity].
    destruct (inbox w) as [|msg rest]; [reflexivity|].
    destruct (Hsrc msg (or_introl eq_refl)).
  - destruct peers as [|peer0 peers0] eqn:Epeers; [discriminate|].
    rewrite <- Epeers in *.
    assert (In peer0 peers) as Hin0 by (rewrite Epeers; left; reflexivity).
    pose proof (Hfrom peer0 Hin0) as F0.
    destruct (inbox w) as [|[r payload] rest] eqn:Einbox.
    { destruct peer0 as [r0 vs0]. rewrite peer_messages_eq in F0. discriminate. }
    clear peer0 peers0 Epeers Hin0 F0.
    destruct (proj1 (in_map_iff _ _ _) (Hsrc (r, payload) (or_introl eq_refl)))
      as [[r' vs] [Er Hin]].
    cbn [fst] in Er. subst r'.
    pose proof (Hfrom (r, vs) Hin) as F.
    rewrite from_cons, peer_messages_eq in F. cbn [fst] in F.
    rewrite Z.eqb_refl in F. injection F as -> F.
    destruct (in_split _ _ Hin) as [l1 [l2 Esplit]].
    assert (NoDup (map fst (l1 ++ l2)) /\ ~ In r (map fst (l1 ++ l2))) as [Hnd' Hr].
    { rewrite Esplit, map_app in Hnd. cbn [map fst] in Hnd.
      apply NoDup_remove in Hnd. rewrite map_app. exact Hnd. }
    assert (Forall valid_peer (l1 ++ l2) /\ valid_peer (r, vs)) as [Hvalid' Hvr].
    { rewrite Esplit in Hvalid. apply Forall_app in Hvalid.
      destruct Hvalid as [H1 H2]. inversion_clear H2.
      split; [apply Forall_app; split; assumption | assumption]. }
    assert (length (l1 ++ l2) = k) as Hk.
    { rewrite Esplit, length_app in Hn. cbn [length] in Hn.
      rewrite length_app. lia. }
    assert (forall peer, In peer (l1 ++ l2) -> In peer peers /\ fst peer <> r)
      as Hother.
    { intros peer Hp. split.
      - rewrite Esplit. apply in_app_iff in Hp. apply in_app_iff.
        destruct Hp; [left | right; right]; assumption.
      - intros E. apply Hr. rewrite <- E. apply in_map, Hp. }
    assert (forall msg, In msg rest -> fst msg <> r ->
                        In (fst msg) (map fst (l1 ++ l2))) as Hsrc_other.
    { intros msg Hm Hneq.
      pose proof (Hsrc msg (or_intror Hm)) as S.
      rewrite Esplit, map_app in S. cbn [map fst] in S.
      rewrite map_app. apply in_app_iff in S. apply in_app_iff.
      destruct S as [S|[S|S]]; [left; exact S | congruence | right; exact S]. }
    pose proof (concat_values_remove l1 l2 (r, vs)) as EC.
    rewrite <- Esplit in EC. cbn [snd] in EC.
    destruct Hvr as [Hrank _]. cbn [fst] in Hrank.
    destruct vs as [|v vs'].
    + (* a count of zero: nothing follows *)
      destruct (IH (l1 ++ l2) (set_inbox rest w) Hk Hnd' Hvalid')
        as [order [w' [Hperm [Hrun [Hv [Hwc' [Hi Ho]]]]]]].
      * intros peer Hp. destruct (Hother peer Hp) as [Hp' Hneq].
        pose proof (Hfrom peer Hp') as Fp. rewrite from_cons in Fp.
        cbn [fst] in Fp. apply not_eq_sym, Z.eqb_neq in Hneq.
        rewrite Hneq in Fp. exact Fp.
      * intros msg Hm. apply Hsrc_other; [exact Hm|].
        intros E. assert (In msg (from r rest)) as Hf.
        { apply filter_In. split; [exact Hm | apply Z.eqb_eq, E]. }
        rewrite F in Hf. destruct Hf.
      * exact Hwc.
      * cbn [set_inbox self]. lia.
      * exists (((r, []) : Z * list float) :: order), w'.
        split; [rewrite Esplit; apply Permutation_cons_app, Hperm|].
        split.
        { cbn [repeat run perform]. unfold bind.
          rewrite (@recv_mpi_summary_zero w r rest Einbox Hrank).
          unfold ret. exact Hrun. }
        split; [rewrite Hv; reflexivity|].
        split; [exact Hwc'|]. split; [exact Hi | exact Ho].
    + (* a positive count: the values follow, somewhere behind *)
      destruct (filter_singleton _ _ F) as [before [after [Erest [Hb Ha]]]].
      assert (Forall (fun msg : Z * MPI_payload => fst msg <> r) before) as Hb'.
      { rewrite Forall_forall in *. intros msg Hm.
        apply Z.eqb_neq. apply Hb, Hm. }
      assert (Forall (fun msg : Z * MPI_payload => fst msg <> r) after) as Ha'.
      { rewrite Forall_forall in *. intros msg Hm.
        apply Z.eqb_neq. apply Ha, Hm. }
      destruct (@received_count (v :: vs') (self w) Hwc) as [Hwc1 [Hv1 _]].
      { lia. }
      destruct (IH (l1 ++ l2)
                  (with_self (received (v :: vs') (self w))
                     (set_inbox (before ++ after) w)) Hk Hnd' Hvalid')
        as [order [w' [Hperm [Hrun [Hv [Hwc' [Hi Ho]]]]]]].
      * intros peer Hp. destruct (Hother peer Hp) as [Hp' Hneq].
        pose proof (Hfrom peer Hp') as Fp. rewrite from_cons in Fp.
        cbn [fst] in Fp. apply not_eq_sym, Z.eqb_neq in Hneq.
        rewrite Hneq in Fp. rewrite Erest, from_app, from_cons in Fp.
        cbn [fst] in Fp. rewrite Hneq in Fp.
        cbn [with_self set_inbox inbox]. rewrite from_app. exact Fp.
      * cbn [with_self set_inbox inbox]. intros msg Hm.
        apply Hsrc_other.
        -- rewrite Erest. apply in_app_iff in Hm. apply in_app_iff.
           destruct Hm; [left | right; right]; assumption.
        -- apply in_app_iff in Hm. rewrite Forall_forall in Hb', Ha'.
           destruct Hm as [Hm|Hm]; [apply Hb', Hm | apply Ha', Hm].
      * exact Hwc1.
      * cbn [with_self self]. rewrite Hv1, length_app. lia.
      * exists ((r, v :: vs') :: order), w'.
        split; [rewrite Esplit; apply Permutation_cons_app, Hperm|].
        split.
        { cbn [repeat run perform]. unfold bind.
          rewrite (@recv_mpi_summary_positive w r before (v :: vs') after);
            [unfold ret; exact Hrun | | exact Hb' | exact Hrank | discriminate].
          rewrite Einbox, Erest. reflexivity. }
        split.
        { rewrite Hv. cbn [with_self self]. rewrite Hv1.
          cbn [map concat snd]. rewrite <- app_assoc. reflexivity. }
        split; [exact Hwc'|]. split; [exact Hi | exact Ho].
Qed.

(** X9.  A coordinator gathers from its peers in whatever order their
    messages arrived.  If the inbox holds, for each peer, its count followed
    (not necessarily at once) by its values, and nothing else, then after as
    many receives as there are peers the inbox is empty, the coordinator
    holds its own values followed by each peer's values, peer by peer in the
    order in which the counts were taken, and stays well-counted: its count
    is the total. *)
Theorem recv_mpi_summary_gathers :
  forall (peers : list (Z * list float)) (w : World Pose),
    NoDup (map fst peers) ->
    Forall valid_peer peers ->
    (forall peer, In peer peers ->
       from (fst peer) (inbox w) = peer_messages peer) ->
    (forall msg, In msg (inbox w) -> In (fst msg) (map fst peers)) ->
    well_counted (self w) ->
    (N.of_nat (length (values_ (self w)) + length (concat (map snd peers)))
     < Size.modulus)%N ->
    exists order w',
      Permutation order peers
      /\ run (repeat (Op_recv_mpi_summary Pose) (length peers)) w = Some w'
      /\ values_ (self w') = values_ (self w) ++ concat (map snd order)
      /\ poses_in_ensemble (self w')
         = N.of_nat (length (values_ (self w))
                     + length (concat (map snd peers)))
      /\ inbox w' = [].
Proof.
  intros peers w Hnd Hvalid Hfrom Hsrc Hwc Hbound.
  destruct (@gather (length peers) peers w eq_refl Hnd Hvalid Hfrom Hsrc Hwc Hbound)
    as [order [w' [Hperm [Hrun [Hv [[Hc _] [Hi _]]]]]]].
  exists order, w'. repeat split; try assumption.
  rewrite Hc, Hv, length_app. do 2 f_equal.
  assert (Permutation (concat (map snd order)) (concat (map snd peers))) as P.
  { clear - Hperm. induction Hperm; cbn [map concat].
    - constructor.
    - apply Permutation_app_head, IHHperm.
    - rewrite !app_assoc. apply Permutation_app_tail, Permutation_app_comm.
    - eapply Permutation_trans; eassumption. }
  apply Permutation_length, P.
Qed.

(** ** Reading the statistics *)

(** X10.  [get_real_metric_value_by_name] never changes anything.  Before the
    final report it throws; after it, it returns for exactly the eight names
    of [real_valued_metric_names()] (the error branch of the derived lookup
    is never reached), and what it returns for a name is what the typed
    getter of that name returns. *)
Theorem get_real_metric_value_by_name_reads :
  forall (w : World Pose) (metric_name : string),
    (finalized (self w) = false ->
     get_real_metric_value_by_name metric_name w = (Throw NotFinalizedError, w))
    /\
    (finalized (self w) = true ->
     ~ In metric_name real_valued_metric_names ->
     get_real_metric_value_by_name metric_name w
     = (Throw UnknownMetricNameError, w))
    /\
    (finalized (self w) = true ->
     In metric_name real_valued_metric_names ->
     exists getter value,
       getter_of_name Pose metric_name = Some getter
       /\ getter w = (Ok value, w)
       /\ get_real_metric_value_by_name metric_name w = (Ok value, w)).
Proof.
  intros w metric_name. split; [|split].
  - intros Hf. unfold get_real_metric_value_by_name, bind, get_self,
      runtime_assert. rewrite Hf. reflexivity.
  - intros Hf Hn. unfold get_real_metric_value_by_name, bind, get_self,
      runtime_assert. rewrite Hf. unfold ret.
    destruct (existsb (String.eqb metric_name) real_valued_metric_names) eqn:E;
      [|reflexivity].
    apply existsb_exists in E. destruct E as [x [Hx E]].
    apply String.eqb_eq in E. subst x. contradiction.
  - intros Hf Hin.
    unfold real_valued_metric_names in Hin. cbn [In] in Hin.
    repeat match type of Hin with
           | _ \/ _ => destruct Hin as [Hin|Hin]
           end; try contradiction; subst metric_name;
      eexists; eexists; (split; [reflexivity|]);
      unfold get_real_metric_value_by_name, derived_get_metric_by_name,
        mean, median, mode, stddev, stderror, min, max, range,
        bind, get_self, runtime_assert;
      rewrite Hf; cbn; split; reflexivity.
Qed.

(** ** When [apply()] reports *)

Lemma produce_final_report_finalizes (w w' : World Pose) :
  produce_final_report w = (Ok tt, w') -> finalized (self w') = true.
Proof.
  intros H. apply produce_final_report_returns in H.
  destruct H as [metric [_ [_ [_ ->]]]]. reflexivity.
Qed.

Lemma add_returns (w w' : World Pose) pose :
  (increment_count ;; add_pose_to_ensemble pose) w = (Ok tt, w') ->
  exists metric,
    simple_metric_ (self w) = Some metric
    /\ w' = with_self (added metric pose (self w)) w.
Proof.
  intros H. destruct (simple_metric_ (self w)) as [metric|] eqn:Hm.
  - rewrite (add_value w pose Hm) in H. injection H as <-.
    exists metric. split; reflexivity.
  - unfold bind, increment_count, add_pose_to_ensemble, modify, bind,
      get_self in H. cbn [self set_base simple_metric_] in H.
    rewrite Hm in H. discriminate.
Qed.

(** X11.  An [apply] that returns has produced the final report (and
    finalized the metric) exactly when a generating protocol is set, or the
    multi-output flag is set and there is a previous mover.  So a metric
    whose [reports_at_end()] is true is still accumulating after [apply];
    the converse fails for a metric with the multi-output flag set and no
    previous mover, which accumulates although [reports_at_end()] is
    false. *)
Theorem apply_reports_at_once_or_at_end :
  forall (w w' : World Pose) (pose : Pose),
    apply pose w = (Ok tt, w') ->
    (finalized (self w') = true
     <-> (ensemble_generating_protocol_ (base (self w)) <> None
          \/ (use_additional_output_from_last_mover_ (base (self w)) = true
              /\ last_mover_ (base (self w)) <> None)))
    /\ (reports_at_end (self w) = true -> finalized (self w') = false)
    /\ (ensemble_generating_protocol_ (base (self w)) = None ->
        use_additional_output_from_last_mover_ (base (self w)) = true ->
        last_mover_ (base (self w)) = None ->
        reports_at_end (self w) = false /\ finalized (self w') = false).
Proof.
  intros w w' pose H.
  unfold apply in H. apply bind_Ok in H. destruct H as [m [w0 [G H]]].
  unfold get_self in G. injection G as <- <-.
  apply bind_Ok in H. destruct H as [[] [w0 [G H]]].
  unfold runtime_assert in G.
  destruct (finalized (self w)) eqn:Hf; [discriminate|].
  injection G as <-.
  assert (finalized (self w') = true
          <-> (ensemble_generating_protocol_ (base (self w)) <> None
               \/ (use_additional_output_from_last_mover_ (base (self w)) = true
                   /\ last_mover_ (base (self w)) <> None))) as Main.
  { destruct (ensemble_generating_protocol_ (base (self w))) as [protocol|].
    - apply bind_Ok in H. destruct H as [[] [w1 [_ R]]].
      apply produce_final_report_finalizes in R. rewrite R.
      split; [intros _; left; discriminate | reflexivity].
    - rewrite <- bind_assoc in H. apply bind_Ok in H.
      destruct H as [[] [w1 [A H]]].
      apply add_returns in A. destruct A as [metric [Hm ->]].
      destruct (last_mover_ (base (self w))) as [previous|].
      + destruct (use_additional_output_from_last_mover_ (base (self w))).
        * apply bind_Ok in H. destruct H as [[] [w2 [_ R]]].
          apply produce_final_report_finalizes in R. rewrite R.
          split; [intros _; right; split; [reflexivity | discriminate]
                 | reflexivity].
        * injection H as <-. cbn [with_self self]. unfold finalized in *.
          cbn. rewrite Hf.
          split; [discriminate | intros [C|[C _]]; congruence].
      + injection H as <-. cbn [with_self self]. unfold finalized in *.
        cbn. rewrite Hf.
        split; [discriminate | intros [C|[_ C]]; congruence]. }
  split; [exact Main|]. split.
  - unfold reports_at_end. intros R.
    destruct (finalized (self w')) eqn:Hf'; [|reflexivity].
    destruct (proj1 Main eq_refl) as [C|[C _]].
    + destruct (ensemble_generating_protocol_ (base (self w)));
        [discriminate | congruence].
    + rewrite C in R.
      destruct (ensemble_generating_protocol_ (base (self w))); discriminate.
  - intros Hp Hu Hl. unfold reports_at_end. rewrite Hp, Hu.
    split; [reflexivity|].
    destruct (finalized (self w')) eqn:Hf'; [|reflexivity].
    destruct (proj1 Main eq_refl) as [C|[_ C]]; congruence.
Qed.

(** ** What never changes the configuration *)

Lemma kc_ret A (a : A) : keeps_configuration (@ret Pose A a).
Proof. intros w. reflexivity. Qed.

Lemma kc_throw A e : keeps_configuration (@throw Pose A e).
Proof. intros w. reflexivity. Qed.

Lemma kc_crash A c : keeps_configuration (@crash Pose A c).
Proof. intros w. reflexivity. Qed.

Lemma kc_bind A B (m : M Pose A) (k : A -> M Pose B) :
  keeps_configuration m -> (forall a, keeps_configuration (k a)) ->
  keeps_configuration (bind m k).
Proof.
  intros Hm Hk w. unfold bind. specialize (Hm w).
  destruct (m w) as [[a|e|c] w1]; cbn [snd] in *; [|exact Hm|exact Hm].
  rewrite <- Hm. apply Hk.
Qed.

Lemma kc_runtime_assert b e : keeps_configuration (@runtime_assert Pose b e).
Proof. destruct b; [apply kc_ret | apply kc_throw]. Qed.

Lemma kc_get_self : keeps_configuration (@get_self Pose).
Proof. intros w. reflexivity. Qed.

Lemma kc_emit ev : keeps_configuration (@emit Pose ev).
Proof. intros w. reflexivity. Qed.

Lemma kc_modify (f : CentralTendencyEnsembleMetric Pose
                     -> CentralTendencyEnsembleMetric Pose) :
  (forall m, configuration (f m) = configuration m) ->
  keeps_configuration (modify f).
Proof. intros Hf w. apply Hf. Qed.

Lemma kc_noexcept A (c : M Pose A) :
  keeps_configuration c -> keeps_configuration (noexcept c).
Proof.
  intros H w. unfold noexcept. specialize (H w).
  destruct (c w) as [[a|e|x] w1]; exact H.
Qed.

Lemma kc_increment_count : keeps_configuration (@increment_count Pose).
Proof. apply kc_modify. reflexivity. Qed.

Lemma kc_add_pose_to_ensemble pose :
  keeps_configuration (@add_pose_to_ensemble Pose pose).
Proof.
  unfold add_pose_to_ensemble. apply kc_bind; [apply kc_get_self|]. intros m.
  destruct (simple_metric_ m); [apply kc_modify; reflexivity | apply kc_throw].
Qed.

Lemma kc_finalize_values : keeps_configuration (@finalize_values Pose).
Proof.
  unfold finalize_values. apply kc_bind; [apply kc_get_self|]. intros m.
  destruct (derived_finalized_ m); [apply kc_ret|].
  apply kc_bind; [apply kc_modify; reflexivity|]. intros _.
  apply kc_bind; [apply kc_runtime_assert|]. intros _.
  destruct (compute_statistics _ _); [apply kc_modify; reflexivity | apply kc_crash].
Qed.

Lemma kc_produce_final_report_string :
  keeps_configuration (@produce_final_report_string Pose).
Proof.
  unfold produce_final_report_string.
  apply kc_bind; [apply kc_finalize_values|]. intros _.
  apply kc_bind; [apply kc_get_self|]. intros m.
  destruct (simple_metric_ m); [apply kc_ret | apply kc_crash].
Qed.

Lemma kc_produce_final_report_to_tracer :
  keeps_configuration (@produce_final_report_to_tracer Pose).
Proof.
  unfold produce_final_report_to_tracer.
  apply kc_bind; [apply kc_get_self|]. intros m.
  apply kc_bind; [apply kc_runtime_assert|]. intros _.
  apply kc_bind; [apply kc_emit|]. intros _.
  apply kc_bind; [apply kc_produce_final_report_string|]. intros r.
  apply kc_emit.
Qed.

Lemma kc_produce_final_report_to_file file :
  keeps_configuration (@produce_final_report_to_file Pose file).
Proof.
  unfold produce_final_report_to_file.
  apply kc_bind; [apply kc_get_self|]. intros m.
  apply kc_bind; [apply kc_runtime_assert|]. intros _.
  apply kc_bind; [apply kc_runtime_assert|]. intros _.
  apply kc_bind; [apply kc_produce_final_report_string|]. intros r.
  apply kc_emit.
Qed.

Lemma kc_produce_final_report : keeps_configuration (@produce_final_report Pose).
Proof.
  unfold produce_final_report.
  apply kc_bind; [apply kc_get_self|]. intros m.
  apply kc_bind.
  - destruct (output_mode_ (base m)).
    + apply kc_throw.
    + apply kc_produce_final_report_to_tracer.
    + apply kc_bind; [apply kc_produce_final_report_to_tracer|].
      intros _. apply kc_produce_final_report_to_file.
    + apply kc_produce_final_report_to_file.
  - intros _. apply kc_modify. reflexivity.
Qed.

Lemma kc_drain_additional_output outputs :
  keeps_configuration (@drain_additional_output Pose outputs).
Proof.
  induction outputs as [|p rest IH]; cbn [drain_additional_output].
  - apply kc_ret.
  - apply kc_bind; [apply kc_increment_count|]. intros _.
    apply kc_bind; [apply kc_add_pose_to_ensemble|]. intros _. exact IH.
Qed.

Lemma kc_apply_and_measure protocol pose :
  keeps_configuration (@apply_and_measure Pose protocol pose).
Proof.
  unfold apply_and_measure. destruct (snd (mover_apply protocol pose)).
  - apply kc_bind; [apply kc_increment_count|]. intros _.
    apply kc_add_pose_to_ensemble.
  - apply kc_ret.
Qed.

Lemma kc_generate_one_ensemble_entry i pose protocol lm :
  keeps_configuration (@generate_one_ensemble_entry Pose i pose protocol lm).
Proof.
  unfold generate_one_ensemble_entry. destruct lm as [lm|].
  - generalize (additional_output lm). intros outputs. revert pose.
    induction outputs as [|next rest IH]; intros pose;
      cbn [measure_additional_outputs];
      (apply kc_bind; [apply kc_apply_and_measure|]); intros _.
    + apply kc_crash.
    + apply IH.
  - apply kc_apply_and_measure.
Qed.

Lemma kc_generate_ensemble_and_apply_to_poses pose :
  keeps_configuration (@generate_ensemble_and_apply_to_poses Pose pose).
Proof.
  unfold generate_ensemble_and_apply_to_poses.
  apply kc_bind; [apply kc_get_self|]. intros m.
  destruct (ensemble_generating_protocol_ (base m)); [|apply kc_crash].
  generalize (seq 1 (N.to_nat (ensemble_generating_protocol_repeats_ (base m)))).
  intros indices. induction indices as [|i indices IH];
    cbn [map do_work_vector_in_threads].
  - apply kc_ret.
  - apply kc_bind; [apply kc_generate_one_ensemble_entry | intros _; exact IH].
Qed.

Lemma kc_apply pose : keeps_configuration (@apply Pose pose).
Proof.
  unfold apply.
  apply kc_bind; [apply kc_get_self|]. intros m.
  apply kc_bind; [apply kc_runtime_assert|]. intros _.
  destruct (ensemble_generating_protocol_ (base m)).
  - apply kc_bind; [apply kc_generate_ensemble_and_apply_to_poses|].
    intros _. apply kc_produce_final_report.
  - apply kc_bind; [apply kc_increment_count|]. intros _.
    apply kc_bind; [apply kc_add_pose_to_ensemble|]. intros _.
    destruct (last_mover_ (base m)); [|apply kc_ret].
    destruct (use_additional_output_from_last_mover_ (base m)); [|apply kc_ret].
    apply kc_bind; [apply kc_drain_additional_output|].
    intros _. apply kc_produce_final_report.
Qed.

Lemma kc_MPI_Recv_int source : keeps_configuration (@MPI_Recv_int Pose source).
Proof.
  intros w. unfold MPI_Recv_int.
  destruct (take_first _ (inbox w)) as [[[src [n|vs]] rest]|]; reflexivity.
Qed.

Lemma kc_MPI_Recv_double count source :
  keeps_configuration (@MPI_Recv_double Pose count source).
Proof.
  intros w. unfold MPI_Recv_double.
  destruct (take_first _ (inbox w)) as [[[src [n|vs]] rest]|]; try reflexivity.
  destruct (length vs <=? count)%nat; reflexivity.
Qed.

Lemma kc_MPI_Send dest payload :
  keeps_configuration (@MPI_Send Pose dest payload).
Proof. intros w. reflexivity. Qed.

Lemma kc_recv_mpi_summary : keeps_configuration (@recv_mpi_summary Pose).
Proof.
  unfold recv_mpi_summary.
  apply kc_bind; [apply kc_MPI_Recv_int|]. intros r.
  apply kc_bind; [apply kc_runtime_assert|]. intros _.
  apply kc_bind; [apply kc_runtime_assert|]. intros _.
  destruct (fst r =? 0)%Z; [apply kc_ret|].
  apply kc_bind; [apply kc_get_self|]. intros m.
  apply kc_bind; [apply kc_modify; reflexivity|]. intros _.
  apply kc_bind; [apply kc_MPI_Recv_double|]. intros d.
  apply kc_bind; [apply kc_modify; reflexivity|]. intros _.
  apply kc_bind; [apply kc_runtime_assert|]. intros _.
  apply kc_bind; [apply kc_modify; reflexivity|]. intros _.
  apply kc_ret.
Qed.

Lemma kc_send_mpi_summary index :
  keeps_configuration (@send_mpi_summary Pose index).
Proof.
  unfold send_mpi_summary.
  apply kc_bind; [apply kc_get_self|]. intros m.
  apply kc_bind; [apply kc_runtime_assert|]. intros _.
  apply kc_bind; [apply kc_MPI_Send|]. intros _.
  destruct (0 <? _)%Z; [apply kc_MPI_Send | apply kc_ret].
Qed.

Lemma kc_destructor : keeps_configuration (@destructor Pose).
Proof.
  unfold destructor. apply kc_bind; [apply kc_get_self|]. intros m.
  destruct (negb (finalized m) && (0 <? poses_in_ensemble m)%N);
    [apply kc_noexcept, kc_produce_final_report | apply kc_ret].
Qed.

Lemma kc_perform op : keeps_configuration (@perform Pose op).
Proof.
  destruct op; cbn [perform].
  - apply kc_apply.
  - apply kc_produce_final_report.
  - apply kc_modify. reflexivity.
  - apply kc_bind; [apply kc_recv_mpi_summary | intros _; apply kc_ret].
Qed.

(** X12.  Collecting and reporting never touch the configuration.  After any
    sequence of [apply] calls, final reports, resets and receives (each of
    which returned or threw), and equally after the destructor, after sending
    a summary and after a crash of any of them, the generating protocol, the
    repeat count, the thread request, the multi-output flag, the previous
    mover, the output mode, the file name, the label prefix and suffix and
    the simple metric are what they were. *)
Theorem configuration_is_kept :
  (forall (ops : list (Operation Pose)) (w w' : World Pose),
     run ops w = Some w' -> configuration (self w') = configuration (self w))
  /\ (forall (op : Operation Pose) (w : World Pose),
        configuration (self (snd (perform op w))) = configuration (self w))
  /\ (forall (w : World Pose),
        configuration (self (snd (destructor w))) = configuration (self w))
  /\ (forall (w : World Pose) (receiving_node_index : N),
        configuration (self (snd (send_mpi_summary receiving_node_index w)))
        = configuration (self w)).
Proof.
  split; [|split; [|split]].
  - intros ops. induction ops as [|op ops IH]; intros w w' Hrun.
    + injection Hrun as <-. reflexivity.
    + cbn [run] in Hrun. pose proof (kc_perform op w) as K.
      destruct (perform op w) as [[[]|e|c] w1]; try discriminate;
        cbn [snd] in K; rewrite <- K; apply IH, Hrun.
  - intros op w. apply kc_perform.
  - intros w. apply kc_destructor.
  - intros w index. apply kc_send_mpi_summary.
Qed.

(** ** Output modes and their names *)

Lemma output_mode_enum_from_name_eq (mode_name : string) :
  output_mode_enum_from_name mode_name
  = Ok (if String.eqb mode_name "tracer" then TRACER
        else if String.eqb mode_name "tracer_and_file" then TRACER_AND_FILE
        else if String.eqb mode_name "file" then FILE
        else UNKNOWN_MODE).
Proof.
  unfold output_mode_enum_from_name.
  change (N.to_nat (Size_of_EnsembleMetricOutputMode N_OUTPUT_MODES)) with 3%nat.
  cbn [output_mode_search].
  change (Size.incr 1) with 2%N. change (Size.incr 2) with 3%N.
  cbn [EnsembleMetricOutputMode_of_Size output_mode_name_from_enum].
  destruct (String.eqb mode_name "tracer"); [reflexivity|].
  destruct (String.eqb mode_name "tracer_and_file"); [reflexivity|].
  destruct (String.eqb mode_name "file"); reflexivity.
Qed.

(** X13.  The two conversions between output modes and their names undo each
    other: a string is read as a mode other than [UNKNOWN_MODE] exactly when
    it is the name of that mode.  Reading never throws: a string that is no
    mode's name is read as [UNKNOWN_MODE], the one mode whose name cannot be
    asked for. *)
Theorem output_mode_names_round_trip :
  (forall (mode : EnsembleMetricOutputMode) (mode_name : string),
     output_mode_name_from_enum mode = Ok mode_name
     <-> (output_mode_enum_from_name mode_name = Ok mode
          /\ mode <> UNKNOWN_MODE))
  /\ (forall mode_name : string,
        exists mode, output_mode_enum_from_name mode_name = Ok mode)
  /\ output_mode_name_from_enum UNKNOWN_MODE = Throw InvalidOutputModeError.
Proof.
  split; [|split].
  - intros mode mode_name. rewrite output_mode_enum_from_name_eq. split.
    + intros H. destruct mode; cbn in H; try discriminate;
        injection H as H; subst mode_name; split;
          (reflexivity || discriminate).
    + intros [H Hne].
      destruct (String.eqb mode_name "tracer") eqn:E1;
        [apply String.eqb_eq in E1; subst mode_name;
         injection H as <-; reflexivity|].
      destruct (String.eqb mode_name "tracer_and_file") eqn:E2;
        [apply String.eqb_eq in E2; subst mode_name;
         injection H as <-; reflexivity|].
      destruct (String.eqb mode_name "file") eqn:E3;
        [apply String.eqb_eq in E3; subst mode_name;
         injection H as <-; reflexivity|].
      injection H as <-. congruence.
  - intros mode_name. rewrite output_mode_enum_from_name_eq. eexists. reflexivity.
  - reflexivity.
Qed.

(** ** Setters that check their argument *)

(** X14.  [set_output_mode] by name: given the name of a mode it stores that
    mode and changes nothing else; given any other string it throws and
    leaves the object as it was.  Either way the stored mode is afterwards
    [UNKNOWN_MODE] only if it was before. *)
Theorem set_output_mode_by_name :
  forall (w : World Pose) (mode_string : string),
    (forall mode,
       output_mode_name_from_enum mode = Ok mode_string ->
       set_output_mode mode_string w
       = (Ok tt, with_self (set_base (set_output_mode_ mode) (self w)) w))
    /\ ((forall mode, output_mode_name_from_enum mode <> Ok mode_string) ->
        set_output_mode mode_string w = (Throw InvalidOutputModeError, w))
    /\ (output_mode_ (base (self w)) <> UNKNOWN_MODE ->
        output_mode_ (base (self (snd (set_output_mode mode_string w))))
        <> UNKNOWN_MODE).
Proof.
  intros w mode_string.
  assert (forall mode,
            output_mode_name_from_enum mode = Ok mode_string ->
            set_output_mode mode_string w
            = (Ok tt, with_self (set_base (set_output_mode_ mode) (self w)) w))
    as Hgood.
  { intros mode H. unfold set_output_mode, lift. unfold bind at 1.
    rewrite output_mode_enum_from_name_eq.
    destruct mode; cbn in H; try discriminate; injection H as <-; reflexivity. }
  assert ((forall mode, output_mode_name_from_enum mode <> Ok mode_string) ->
          set_output_mode mode_string w = (Throw InvalidOutputModeError, w))
    as Hbad.
  { intros H. unfold set_output_mode, lift. unfold bind at 1.
    rewrite output_mode_enum_from_name_eq.
    destruct (String.eqb mode_string "tracer") eqn:E1;
      [apply String.eqb_eq in E1; subst mode_string;
       destruct (H TRACER); reflexivity|].
    destruct (String.eqb mode_string "tracer_and_file") eqn:E2;
      [apply String.eqb_eq in E2; subst mode_string;
       destruct (H TRACER_AND_FILE); reflexivity|].
    destruct (String.eqb mode_string "file") eqn:E3;
      [apply String.eqb_eq in E3; subst mode_string;
       destruct (H FILE); reflexivity|].
    reflexivity. }
  split; [exact Hgood|]. split; [exact Hbad|].
  intros Hw.
  destruct (string_dec mode_string "tracer") as [E1|N1];
    [rewrite (Hgood TRACER); [discriminate | rewrite E1; reflexivity]|].
  destruct (string_dec mode_string "tracer_and_file") as [E2|N2];
    [rewrite (Hgood TRACER_AND_FILE); [discriminate | rewrite E2; reflexivity]|].
  destruct (string_dec mode_string "file") as [E3|N3];
    [rewrite (Hgood FILE); [discriminate | rewrite E3; reflexivity]|].
  rewrite Hbad; [exact Hw|].
  intros mode H. destruct mode; cbn in H; try discriminate;
    injection H as H; congruence.
Qed.

(** X15.  The two checked numeric setters differ in what a rejected call
    leaves behind.  [set_ensemble_generating_protocol_repeats( 0 )] throws
    with the object unchanged.  [set_n_threads( n )] with [n] of 2 or more
    (single-threaded build) also throws, but it has stored [n] before
    checking: the object keeps the rejected thread count.  Accepted values
    are stored. *)
Theorem checked_setters :
  forall (w : World Pose) (setting : N),
    (set_ensemble_generating_protocol_repeats setting w
     = if (0 <? setting)%N
       then (Ok tt,
             with_self
               (set_base (set_ensemble_generating_protocol_repeats_ setting)
                  (self w)) w)
       else (Throw ZeroRepeatsError, w))
    /\
    (set_n_threads setting w
     = (if (setting <? 2)%N then Ok tt else Throw TooManyThreadsError,
        with_self (set_base (set_n_threads_ setting) (self w)) w))
    /\ n_threads_ (base (self (snd (set_n_threads setting w)))) = setting.
Proof.
  intros w setting. split; [|split].
  - unfold set_ensemble_generating_protocol_repeats, bind, runtime_assert.
    destruct (0 <? setting)%N; reflexivity.
  - unfold set_n_threads, bind, modify, get_self, runtime_assert.
    cbn [self base set_base set_n_threads_ n_threads_].
    destruct (setting <? 2)%N; reflexivity.
  - unfold set_n_threads, bind, modify, get_self, runtime_assert.
    cbn [self base set_base set_n_threads_ n_threads_].
    destruct (setting <? 2)%N; reflexivity.
Qed.

(** ** The filter *)

Lemma acceptance_mode_enum_from_string_eq (mode_name : string) :
  filters.acceptance_mode_enum_from_string mode_name
  = if String.eqb mode_name "greater_than" then Returns filters.GREATER_THAN
    else if String.eqb mode_name "less_than" then Returns filters.LESS_THAN
    else if String.eqb mode_name "greater_than_or_equal"
         then Returns filters.GREATER_THAN_EQ
    else if String.eqb mode_name "less_than_or_equal"
         then Returns filters.LESS_THAN_EQ
    else if String.eqb mode_name "equal" then Returns filters.EQ
    else if String.eqb mode_name "not_equal" then Returns filters.NOT_EQ
    else Raises AcceptanceModeError.
Proof.
  unfold filters.acceptance_mode_enum_from_string.
  change (N.to_nat filters.N_MODES) with 6%nat.
  cbn [filters.acceptance_mode_search].
  change (Size.incr 1) with 2%N. change (Size.incr 2) with 3%N.
  change (Size.incr 3) with 4%N. change (Size.incr 4) with 5%N.
  change (Size.incr 5) with 6%N.
  cbn [filters.EnsembleFilterAcceptanceMode_of_Size
       filters.acceptance_mode_string_from_enum].
  repeat match goal with
         | |- context [String.eqb mode_name ?s] =>
             destruct (String.eqb mode_name s); [reflexivity|]
         end.
  reflexivity.
Qed.

(** X16.  The two conversions between acceptance modes and their names undo
    each other: a string is read as a mode exactly when it is that mode's
    name, and a string that is no mode's name is rejected with an error. *)
Theorem acceptance_mode_names_round_trip :
  (forall (mode : filters.EnsembleFilterAcceptanceMode) (mode_name : string),
     filters.acceptance_mode_enum_from_string mode_name = Returns mode
     <-> filters.acceptance_mode_string_from_enum mode = mode_name)
  /\ (forall mode_name : string,
        (forall mode, filters.acceptance_mode_string_from_enum mode <> mode_name) ->
        filters.acceptance_mode_enum_from_string mode_name
        = Raises AcceptanceModeError).
Proof.
  split.
  - intros mode mode_name. rewrite acceptance_mode_enum_from_string_eq. split.
    + repeat match goal with
             | |- context [String.eqb mode_name ?s] =>
                 let E := fresh "E" in
                 destruct (String.eqb mode_name s) eqn:E;
                 [apply String.eqb_eq in E; subst mode_name;
                  intros H; injection H as <-; reflexivity|]
             end.
      discriminate.
    + intros <-. destruct mode; reflexivity.
  - intros mode_name H. rewrite acceptance_mode_enum_from_string_eq.
    repeat match goal with
           | |- context [String.eqb mode_name ?s] =>
               let E := fresh "E" in
               destruct (String.eqb mode_name s) eqn:E;
               [apply String.eqb_eq in E; exfalso|]
           end; try reflexivity.
    + apply (H filters.GREATER_THAN). symmetry. exact E.
    + apply (H filters.LESS_THAN). symmetry. exact E0.
    + apply (H filters.GREATER_THAN_EQ). symmetry. exact E1.
    + apply (H filters.LESS_THAN_EQ). symmetry. exact E2.
    + apply (H filters.EQ). symmetry. exact E3.
    + apply (H filters.NOT_EQ). symmetry. exact E4.
Qed.

Lemma nan_Prim2SF x : is_nan x = true -> Prim2SF x = S754_nan.
Proof.
  intros H. destruct (Prim2SF x) as [s|s| |s m e] eqn:E; [| |reflexivity|];
    exfalso; assert (Spec.number x) as N
      by (apply number_Prim2SF; rewrite E; discriminate);
    unfold Spec.number in N; congruence.
Qed.

Lemma nan_compares x y :
  is_nan x = true \/ is_nan y = true ->
  (x <? y)%float = false /\ (x <=? y)%float = false /\ (x =? y)%float = false.
Proof.
  intros H. rewrite ltb_spec, leb_spec, eqb_spec.
  unfold SFltb, SFleb, SFeqb.
  destruct H as [H|H]; apply nan_Prim2SF in H; rewrite H.
  - repeat split.
  - destruct (Prim2SF x) as [s|s| |s m e]; repeat split.
Qed.

Lemma ltb_not_leb x y : Spec.number x -> Spec.number y ->
  (x <? y)%float = negb (y <=? x)%float.
Proof.
  intros Hx Hy. destruct (x <? y)%float eqn:L.
  - destruct (y <=? x)%float eqn:G; [|reflexivity]. exfalso.
    apply (ltb_key Hx Hy) in L. apply (leb_key Hy Hx) in G.
    destruct G as [G|G].
    + rewrite G in L. exact (key_lt_irrefl L).
    + exact (key_lt_asym L G).
  - rewrite (not_ltb_leb Hx Hy L). reflexivity.
Qed.

Lemma leb_ltb_eqb x y : Spec.number x -> Spec.number y ->
  (x <=? y)%float = ((x <? y) || (x =? y))%float.
Proof.
  intros Hx Hy. apply eq_true_iff_eq.
  rewrite orb_true_iff, (leb_key Hx Hy), (ltb_key Hx Hy), (eqb_key Hx Hy).
  tauto.
Qed.

Lemma eqb_sym_number x y : Spec.number x -> Spec.number y ->
  (x =? y)%float = (y =? x)%float.
Proof.
  intros Hx Hy. apply eq_true_iff_eq.
  rewrite (eqb_key Hx Hy), (eqb_key Hy Hx). split; congruence.
Qed.

(** X17.  How the six acceptance modes relate on one value and threshold.
    [not_equal] is always the negation of [equal].  On numbers,
    [greater_than] is the negation of [less_than_or_equal], [less_than] the
    negation of [greater_than_or_equal], and each [..._or_equal] mode passes
    exactly when its strict mode or [equal] does.  When the value or the
    threshold is a NaN, only [not_equal] passes. *)
Theorem value_passes_modes :
  forall (f : filters.EnsembleFilter) (value : float),
    let passes mode :=
      filters.value_passes (filters.set_acceptance_mode_enum mode f) value in
    passes filters.NOT_EQ = negb (passes filters.EQ)
    /\ (Spec.number value -> Spec.number (filters.threshold_ f) ->
        passes filters.GREATER_THAN = negb (passes filters.LESS_THAN_EQ)
        /\ passes filters.LESS_THAN = negb (passes filters.GREATER_THAN_EQ)
        /\ passes filters.GREATER_THAN_EQ
           = passes filters.GREATER_THAN || passes filters.EQ
        /\ passes filters.LESS_THAN_EQ
           = passes filters.LESS_THAN || passes filters.EQ)
    /\ (is_nan value = true \/ is_nan (filters.threshold_ f) = true ->
        passes filters.GREATER_THAN = false
        /\ passes filters.LESS_THAN = false
        /\ passes filters.GREATER_THAN_EQ = false
        /\ passes filters.LESS_THAN_EQ = false
        /\ passes filters.EQ = false
        /\ passes filters.NOT_EQ = true).
Proof.
  intros f value passes. unfold passes, filters.value_passes.
  cbn [filters.set_acceptance_mode_enum filters.acceptance_mode_
       filters.threshold_].
  split; [reflexivity|]. split.
  - intros Hv Ht. split; [apply (ltb_not_leb Ht Hv)|].
    split; [apply (ltb_not_leb Hv Ht)|]. split.
    + rewrite (leb_ltb_eqb Ht Hv), (eqb_sym_number Ht Hv). reflexivity.
    + apply (leb_ltb_eqb Hv Ht).
  - intros H.
    destruct (@nan_compares value (filters.threshold_ f) H) as [L1 [L2 L3]].
    destruct (@nan_compares (filters.threshold_ f) value
                (proj1 (or_comm _ _) H)) as [G1 [G2 _]].
    rewrite L1, L2, L3, G1, G2. repeat split.
Qed.

Lemma get_real_metric_value_by_name_unchanged (w : World Pose) metric_name :
  snd (get_real_metric_value_by_name metric_name w) = w.
Proof.
  unfold get_real_metric_value_by_name, derived_get_metric_by_name, bind,
    get_self, runtime_assert, ret, throw.
  destruct (finalized (self w)); [|reflexivity].
  destruct (existsb _ _); [|reflexivity].
  repeat match goal with
         | |- context [String.eqb metric_name ?s] =>
             destruct (String.eqb metric_name s); [reflexivity|]
         end.
  reflexivity.
Qed.

Lemma get_real_metric_value_by_name_returns (w w' : World Pose) metric_name v :
  get_real_metric_value_by_name metric_name w = (Ok v, w') ->
  w' = w /\ finalized (self w) = true.
Proof.
  intros H. split.
  - rewrite <- (get_real_metric_value_by_name_unchanged w metric_name), H.
    reflexivity.
  - unfold get_real_metric_value_by_name, bind, get_self, runtime_assert in H.
    destruct (finalized (self w)); [reflexivity | discriminate].
Qed.

Lemma get_real_metric_value_by_name_known (w : World Pose) metric_name :
  finalized (self w) = true ->
  In metric_name real_valued_metric_names ->
  exists v, get_real_metric_value_by_name metric_name w = (Ok v, w).
Proof.
  intros Hf Hin.
  unfold real_valued_metric_names in Hin. cbn [In] in Hin.
  repeat match type of Hin with
         | _ \/ _ => destruct Hin as [Hin|Hin]
         end; try contradiction; subst metric_name;
    eexists;
    unfold get_real_metric_value_by_name, derived_get_metric_by_name,
      bind, get_self, runtime_assert;
    rewrite Hf; cbn; reflexivity.
Qed.

Lemma named_value_known (named_value : string) :
  In named_value real_valued_metric_names ->
  String.eqb named_value EmptyString = false
  /\ existsb (String.eqb named_value) real_valued_metric_names = true.
Proof.
  intros Hin. split.
  - apply String.eqb_neq. intros ->.
    unfold real_valued_metric_names in Hin. cbn [In] in Hin.
    repeat match type of Hin with
           | _ \/ _ => destruct Hin as [Hin|Hin]
           end; try contradiction; discriminate.
  - apply existsb_exists. exists named_value.
    split; [exact Hin | apply String.eqb_refl].
Qed.

(** X18.  What the filter does with a pose.  Not properly configured (no
    ensemble metric, no named value, or a name the metric does not produce)
    it throws and the metric is untouched.  Configured, it makes the metric
    produce its final report unless it is already finalized (an exception of
    that report is the filter's), then reads the named value and compares it
    with the threshold; the pose itself is never looked at. *)
Theorem filter_apply_reports_and_compares :
  forall (f : filters.EnsembleFilter) (w : World Pose) (pose : Pose),
    (filters.ensemble_metric_ f = filters.nullptr ->
     filters.apply f pose w = (Raises NoEnsembleMetricError, w))
    /\
    (filters.ensemble_metric_ f = filters.the_metric ->
     (filters.named_value_ f = EmptyString ->
      filters.apply f pose w = (Raises NoNamedValueError, w))
     /\
     (filters.named_value_ f <> EmptyString ->
      ~ In (filters.named_value_ f) real_valued_metric_names ->
      filters.apply f pose w = (Raises NoSuchNamedValueError, w))
     /\
     (In (filters.named_value_ f) real_valued_metric_names ->
      (finalized (self w) = true ->
       exists value,
         get_real_metric_value_by_name (filters.named_value_ f) w = (Ok value, w)
         /\ filters.apply f pose w
            = (Returns (filters.value_passes f value), w))
      /\
      (finalized (self w) = false ->
       forall w', produce_final_report w = (Ok tt, w') ->
       exists value,
         get_real_metric_value_by_name (filters.named_value_ f) w'
         = (Ok value, w')
         /\ filters.apply f pose w
            = (Returns (filters.value_passes f value), w'))
      /\
      (finalized (self w) = false ->
       forall e w', produce_final_report w = (Throw e, w') ->
       filters.apply f pose w = (Raises (MetricError e), w')))).
Proof.
  intros f w pose. split.
  - intros Hn. unfold filters.apply, filters.validate_my_configuration,
      script_bind. rewrite Hn. reflexivity.
  - intros Hthe. split; [|split].
    + intros He. unfold filters.apply, filters.validate_my_configuration,
        script_bind. rewrite Hthe, He. reflexivity.
    + intros Hne Hnot. unfold filters.apply, filters.validate_my_configuration,
        script_bind. rewrite Hthe.
      apply String.eqb_neq in Hne. rewrite Hne.
      destruct (existsb _ real_valued_metric_names) eqn:E; [|reflexivity].
      apply existsb_exists in E. destruct E as [x [Hx E]].
      apply String.eqb_eq in E. subst x. contradiction.
    + intros Hin. destruct (named_value_known Hin) as [Hne Hex].
      split; [|split].
      * intros Hf.
        destruct (get_real_metric_value_by_name_known w Hf Hin) as [v G].
        exists v. split; [exact G|].
        unfold filters.apply, filters.validate_my_configuration.
        rewrite Hthe, Hne, Hex. cbn [negb].
        unfold script_bind, call, get_self, script_ret. rewrite Hf, G.
        reflexivity.
      * intros Hf w' R.
        pose proof (produce_final_report_finalizes _ R) as Hf'.
        destruct (get_real_metric_value_by_name_known w' Hf' Hin) as [v G].
        exists v. split; [exact G|].
        unfold filters.apply, filters.validate_my_configuration.
        rewrite Hthe, Hne, Hex. cbn [negb].
        unfold script_bind, call, get_self, script_ret. rewrite Hf, R, G.
        reflexivity.
      * intros Hf e w' R.
        unfold filters.apply, filters.validate_my_configuration.
        rewrite Hthe, Hne, Hex. cbn [negb].
        unfold script_bind, call, get_self, script_ret. rewrite Hf, R.
        reflexivity.
Qed.

(** X19.  Once the filter has given its verdict, the verdict stands: the
    metric is finalized, and applying the filter again, to any pose, returns
    the same verdict and changes nothing; [report_sm] returns the value the
    verdict was reached on. *)
Theorem filter_apply_is_stable :
  forall (f : filters.EnsembleFilter) (w w' : World Pose) (pose : Pose)
         (passed : bool),
    filters.apply f pose w = (Returns passed, w') ->
    finalized (self w') = true
    /\ forall pose' : Pose,
         filters.apply f pose' w' = (Returns passed, w')
         /\ exists value,
              filters.report_sm f pose' w' = (Returns value, w')
              /\ passed = filters.value_passes f value.
Proof.
  intros f w w' pose passed H.
  unfold filters.apply, filters.validate_my_configuration in H.
  destruct (filters.ensemble_metric_ f) eqn:Hthe; [discriminate|].
  destruct (String.eqb (filters.named_value_ f) EmptyString) eqn:Hne;
    [discriminate|].
  destruct (existsb (String.eqb (filters.named_value_ f))
              real_valued_metric_names) eqn:Hex; [|discriminate].
  cbn [negb] in H.
  assert (exists w1 value,
            get_real_metric_value_by_name (filters.named_value_ f) w1
            = (Ok value, w')
            /\ passed = filters.value_passes f value) as [w1 [value [G ->]]].
  { unfold script_bind, call, get_self, script_ret in H.
    destruct (finalized (self w)).
    - destruct (get_real_metric_value_by_name (filters.named_value_ f) w)
        as [[v|e|c] w2] eqn:G; try discriminate.
      injection H as <- <-. exists w, v. split; [exact G | reflexivity].
    - destruct (produce_final_report w) as [[[]|e|c] w1]; try discriminate.
      destruct (get_real_metric_value_by_name (filters.named_value_ f) w1)
        as [[v|e|c] w2] eqn:G; try discriminate.
      injection H as <- <-. exists w1, v. split; [exact G | reflexivity]. }
  apply get_real_metric_value_by_name_returns in G as G'.
  destruct G' as [-> Hf].
  split; [exact Hf|]. intros pose'.
  assert (@filters.validate_my_configuration Pose f w1 = (Returns tt, w1)) as V.
  { unfold filters.validate_my_configuration.
    rewrite Hthe, Hne, Hex. cbn [negb].
    unfold script_bind, call, get_self, script_ret. rewrite Hf. reflexivity. }
  split.
  - unfold filters.apply, script_bind. rewrite V.
    unfold call, script_ret. rewrite G. reflexivity.
  - exists value. split; [|reflexivity].
    unfold filters.report_sm, script_bind. rewrite V.
    unfold call. rewrite G. reflexivity.
Qed.

(** ** Parsing a tag *)

Section Further_parsing.

Variable DataMap : Type.
Variable parse_mover : string -> DataMap -> option (Mover Pose).
Variable get_metric_from_datamap_and_subtags :
  Tag -> DataMap -> option (option (SimpleMetric Pose)).

Ltac given :=
  intros; try discriminate;
  repeat match goal with
         | H : Some _ = Some _ |- _ => injection H as <-
         end;
  try solve [ assumption | reflexivity | congruence
            | split; [assumption | reflexivity]
            | eexists; split; [eassumption|]; split; [reflexivity|]; given ].

Lemma script_bind_Returns A B (m : Script Pose A) (k : A -> Script Pose B)
  w b w' :
  script_bind m k w = (Returns b, w') ->
  exists a w1, m w = (Returns a, w1) /\ k a w1 = (Returns b, w').
Proof.
  unfold script_bind. destruct (m w) as [[a|e|c] w1]; try discriminate.
  intros H. exists a, w1. split; [reflexivity | exact H].
Qed.

Lemma script_bind_run A B (m : Script Pose A) (k : A -> Script Pose B) w a w1 :
  m w = (Returns a, w1) -> script_bind m k w = k a w1.
Proof. intros H. unfold script_bind. rewrite H. reflexivity. Qed.

Lemma call_Returns A (m : M Pose A) w a w1 :
  call m w = (Returns a, w1) -> m w = (Ok a, w1).
Proof.
  unfold call. destruct (m w) as [[x|e|c] w2]; try discriminate.
  intros H. injection H as <- <-. reflexivity.
Qed.

Lemma call_modify (f : CentralTendencyEnsembleMetric Pose
                       -> CentralTendencyEnsembleMetric Pose) w :
  call (modify f) w = (Returns tt, with_self (f (self w)) w).
Proof. reflexivity. Qed.

Lemma set_output_mode_returns (w w1 : World Pose) (mode_string : string) :
  set_output_mode mode_string w = (Ok tt, w1) ->
  exists mode,
    output_mode_name_from_enum mode = Ok mode_string
    /\ w1 = with_self (set_base (set_output_mode_ mode) (self w)) w.
Proof.
  unfold set_output_mode, lift. unfold bind at 1.
  rewrite output_mode_enum_from_name_eq.
  destruct (String.eqb mode_string "tracer") eqn:E1;
    [apply String.eqb_eq in E1; subst; intros H; injection H as <-;
     exists TRACER; split; reflexivity|].
  destruct (String.eqb mode_string "tracer_and_file") eqn:E2;
    [apply String.eqb_eq in E2; subst; intros H; injection H as <-;
     exists TRACER_AND_FILE; split; reflexivity|].
  destruct (String.eqb mode_string "file") eqn:E3;
    [apply String.eqb_eq in E3; subst; intros H; injection H as <-;
     exists FILE; split; reflexivity|].
  discriminate.
Qed.

Lemma set_output_mode_settled (w : World Pose) (mode_string : string) :
  output_mode_name_from_enum (output_mode_ (base (self w))) = Ok mode_string ->
  set_output_mode mode_string w = (Ok tt, w).
Proof.
  intros H. unfold set_output_mode, lift. unfold bind at 1.
  rewrite output_mode_enum_from_name_eq.
  destruct w as [[[f u om fn lp ls lm p r po t] sm v] out inb snt].
  cbn [self base output_mode_] in H.
  destruct om; cbn in H; try discriminate; injection H as <-; reflexivity.
Qed.

(** What a parse of the common options that returns has established. *)
Lemma parse_common_returns (tag : Tag) (data : DataMap) (w w1 : World Pose) :
  parse_common_ensemble_metric_options parse_mover tag data w
  = (Returns tt, w1) ->
  agrees_with parse_mover tag data (self w1)
  /\ collected (self w1) = collected (self w)
  /\ simple_metric_ (self w1) = simple_metric_ (self w)
  /\ last_mover_ (base (self w1)) = last_mover_ (base (self w))
  /\ (opt_output_mode tag = None ->
      output_mode_ (base (self w1)) = output_mode_ (base (self w)))
  /\ (opt_n_threads tag = None ->
      n_threads_ (base (self w1)) = n_threads_ (base (self w)))
  /\ (ensemble_generating_protocol_repeats_ (base (self w1))
      = ensemble_generating_protocol_repeats_ (base (self w))
      \/ (0 < ensemble_generating_protocol_repeats_ (base (self w1)))%N)
  /\ output w1 = output w /\ inbox w1 = inbox w /\ sent w1 = sent w.
Proof.
  destruct tag as [lp ls egp egpr nt ua om ofn rvm].
  unfold parse_common_ensemble_metric_options, agrees_with.
  cbn [opt_label_prefix opt_label_suffix opt_ensemble_generating_protocol
       opt_ensemble_generating_protocol_repeats opt_n_threads
       opt_use_additional_output_from_last_mover opt_output_mode
       opt_output_filename].
  intros H.
  apply script_bind_Returns in H. destruct H as [[] [a1 [S1 H]]].
  apply script_bind_Returns in H. destruct H as [[] [a2 [S2 H]]].
  apply script_bind_Returns in H. destruct H as [[] [a3 [S3 H]]].
  apply script_bind_Returns in H. destruct H as [[] [a4 [S4 H]]].
  apply script_bind_Returns in H. destruct H as [[] [a5 [S5 H]]].
  apply script_bind_Returns in H. destruct H as [[] [a6 [S6 S7]]].
  (* the label prefix *)
  assert (a1 = match lp with
               | Some s => with_self (set_base (set_label_prefix_ s) (self w)) w
               | None => w
               end) as E1.
  { destruct lp; cbn [when_given] in S1; injection S1 as <-; reflexivity. }
  assert (a2 = match ls with
               | Some s => with_self (set_base (set_label_suffix_ s) (self a1)) a1
               | None => a1
               end) as E2.
  { destruct ls; cbn [when_given] in S2; injection S2 as <-; reflexivity. }
  assert (match egp with
          | Some protocol_name =>
              exists protocol,
                parse_mover protocol_name data = Some protocol
                /\ match egpr with
                   | Some n =>
                       (0 < n)%N
                       /\ a3 = with_self
                                 (set_base
                                    (set_ensemble_generating_protocol_repeats_ n)
                                    (set_base
                                       (set_ensemble_generating_protocol_
                                          (Some protocol)) (self a2))) a2
                   | None =>
                       a3 = with_self
                              (set_base
                                 (set_ensemble_generating_protocol_
                                    (Some protocol)) (self a2)) a2
                   end
          | None => a3 = a2
          end) as E3.
  { destruct egp as [protocol_name|]; [|injection S3 as <-; reflexivity].
    destruct (parse_mover protocol_name data) as [protocol|]; [|discriminate].
    exists protocol. split; [reflexivity|].
    apply script_bind_Returns in S3. destruct S3 as [[] [b [S3 S3']]].
    cbv [call set_ensemble_generating_protocol modify] in S3.
    injection S3 as <-.
    destruct egpr as [n|]; cbn [when_given] in S3';
      [|injection S3' as <-; reflexivity].
    apply call_Returns in S3'.
    unfold set_ensemble_generating_protocol_repeats, bind, runtime_assert in S3'.
    destruct (N.ltb_spec 0 n) as [Hn|_]; [|discriminate].
    injection S3' as <-. split; [exact Hn | reflexivity]. }
  assert (match nt with
          | Some n =>
              (n < 2)%N
              /\ a4 = with_self (set_base (set_n_threads_ n) (self a3)) a3
          | None => a4 = a3
          end) as E4.
  { destruct nt as [n|]; cbn [when_given] in S4;
      [|injection S4 as <-; reflexivity].
    apply call_Returns in S4.
    unfold set_n_threads, bind, modify, get_self, runtime_assert in S4.
    cbn [self base set_base set_n_threads_ n_threads_] in S4.
    destruct (N.ltb_spec n 2) as [Hn|_]; [|discriminate].
    injection S4 as <-. split; [exact Hn | reflexivity]. }
  assert (a5 = match ua with
               | Some b =>
                   with_self
                     (set_base (set_use_additional_output_from_last_mover_ b)
                        (self a4)) a4
               | None => a4
               end) as E5.
  { destruct ua; cbn [when_given] in S5; injection S5 as <-; reflexivity. }
  assert (match om with
          | Some s =>
              exists mode,
                output_mode_name_from_enum mode = Ok s
                /\ a6 = with_self (set_base (set_output_mode_ mode) (self a5)) a5
          | None => a6 = a5
          end) as E6.
  { destruct om as [s|]; cbn [when_given] in S6;
      [|injection S6 as <-; reflexivity].
    apply call_Returns in S6. apply set_output_mode_returns in S6. exact S6. }
  assert (match ofn with
          | Some s =>
              output_mode_ (base (self a6)) <> TRACER
              /\ w1 = with_self (set_base (set_output_filename_ s) (self a6)) a6
          | None => w1 = a6
          end) as E7.
  { destruct ofn as [s|]; cbn [when_given] in S7;
      [|injection S7 as <-; reflexivity].
    unfold script_bind, call, get_self in S7.
    destruct (output_mode_ (base (self a6))) eqn:Emode; try discriminate;
      (split; [discriminate|]);
      unfold set_output_filename, modify in S7; injection S7 as <-;
      reflexivity. }
  clear S1 S2 S3 S4 S5 S6 S7.
  destruct lp as [lp|], ls as [ls|]; subst a1 a2;
    (destruct egp as [egp|];
     [destruct E3 as [protocol [Hp E3]];
      destruct egpr as [n|]; [destruct E3 as [Hn E3]|]|]; subst a3);
    (destruct nt as [t|]; [destruct E4 as [Ht E4]|]; subst a4);
    (destruct ua as [ua|]; subst a5);
    (destruct om as [om|]; [destruct E6 as [mode [Hmode E6]]|]; subst a6);
    (destruct ofn as [ofn|]; [destruct E7 as [Hfile E7]|]; subst w1);
    cbn [with_self self base set_base set_label_prefix_ set_label_suffix_
         set_ensemble_generating_protocol_
         set_ensemble_generating_protocol_repeats_ set_n_threads_
         set_use_additional_output_from_last_mover_ set_output_mode_
         set_output_filename_ output_mode_ label_prefix_ label_suffix_
         ensemble_generating_protocol_ ensemble_generating_protocol_repeats_
         n_threads_ use_additional_output_from_last_mover_ output_filename_
         last_mover_ simple_metric_ output inbox sent] in *;
    (split; [repeat split; given
           | repeat split; auto; try (intros; discriminate)]).
Qed.

Ltac eta_world w :=
  let m := fresh "m" in
  let b := fresh "b" in
  destruct w as [m ? ? ?]; destruct m as [b ? ? ? ? ? ? ? ? ? ? ?];
  destruct b;
  cbn [self base output_mode_ label_prefix_ label_suffix_
       ensemble_generating_protocol_ ensemble_generating_protocol_repeats_
       n_threads_ use_additional_output_from_last_mover_ output_filename_] in *.

(** A parse of the common options finds an object that agrees with the tag
    as it is: it returns and changes nothing. *)
Lemma parse_common_settled (tag : Tag) (data : DataMap) (w : World Pose) :
  agrees_with parse_mover tag data (self w) ->
  parse_common_ensemble_metric_options parse_mover tag data w
  = (Returns tt, w).
Proof.
  destruct tag as [lp ls egp egpr nt ua om ofn rvm].
  unfold parse_common_ensemble_metric_options, agrees_with.
  cbn [opt_label_prefix opt_label_suffix opt_ensemble_generating_protocol
       opt_ensemble_generating_protocol_repeats opt_n_threads
       opt_use_additional_output_from_last_mover opt_output_mode
       opt_output_filename].
  intros (H1 & H2 & H3 & H4 & H5 & H6 & H7).
  rewrite (@script_bind_run _ _ _ _ w tt w).
  2:{ destruct lp as [s|]; [|reflexivity]. specialize (H1 s eq_refl).
      clear - H1. eta_world w. subst. reflexivity. }
  rewrite (@script_bind_run _ _ _ _ w tt w).
  2:{ destruct ls as [s|]; [|reflexivity]. specialize (H2 s eq_refl).
      clear - H2. eta_world w. subst. reflexivity. }
  rewrite (@script_bind_run _ _ _ _ w tt w).
  2:{ destruct egp as [protocol_name|]; [|reflexivity].
      destruct (H3 protocol_name eq_refl) as [protocol [Hp [He Hr]]].
      rewrite Hp.
      rewrite (@script_bind_run _ _ _ _ w tt w).
      2:{ clear - He. eta_world w. subst. reflexivity. }
      destruct egpr as [n|]; [|reflexivity].
      destruct (Hr n eq_refl) as [Hn Hrn]. cbn [when_given].
      unfold call, set_ensemble_generating_protocol_repeats, bind,
        runtime_assert.
      rewrite (proj2 (N.ltb_lt _ _) Hn).
      clear - Hrn. eta_world w. subst. reflexivity. }
  rewrite (@script_bind_run _ _ _ _ w tt w).
  2:{ destruct nt as [n|]; [|reflexivity].
      destruct (H4 n eq_refl) as [Hn Hnt]. cbn [when_given].
      unfold call, set_n_threads, bind, modify, get_self, runtime_assert.
      cbn [self base set_base set_n_threads_ n_threads_].
      rewrite (proj2 (N.ltb_lt _ _) Hn).
      clear - Hnt. eta_world w. subst. reflexivity. }
  rewrite (@script_bind_run _ _ _ _ w tt w).
  2:{ destruct ua as [b|]; [|reflexivity]. specialize (H5 b eq_refl).
      clear - H5. eta_world w. subst. reflexivity. }
  rewrite (@script_bind_run _ _ _ _ w tt w).
  2:{ destruct om as [s|]; [|reflexivity]. cbn [when_given].
      unfold call. rewrite (set_output_mode_settled w (H6 s eq_refl)).
      reflexivity. }
  destruct ofn as [s|]; [|reflexivity].
  destruct (H7 s eq_refl) as [Hmode Hname]. cbn [when_given].
  unfold script_bind, call, get_self.
  clear - Hmode Hname. eta_world w. subst.
  match goal with
  | |- context [match ?m with TRACER => _ | _ => _ end] =>
      destruct m; [reflexivity | destruct (Hmode eq_refl) | reflexivity..]
  end.
Qed.

Lemma parse_my_tag_returns (tag : Tag) (data : DataMap) (w w2 : World Pose) :
  parse_my_tag parse_mover get_metric_from_datamap_and_subtags tag data w
  = (Returns tt, w2) ->
  exists w1,
    parse_common_ensemble_metric_options parse_mover tag data w
    = (Returns tt, w1)
    /\ match opt_real_valued_metric tag with
       | Some _ =>
           exists realmetric,
             get_metric_from_datamap_and_subtags tag data
             = Some (Some (Real_valued realmetric))
             /\ w2 = with_self (set_real_metric (Some realmetric) (self w1)) w1
       | None => w2 = w1
       end.
Proof.
  unfold parse_my_tag. intros H.
  apply script_bind_Returns in H. destruct H as [[] [w1 [H1 H2]]].
  exists w1. split; [exact H1|].
  destruct (opt_real_valued_metric tag); [|injection H2 as <-; reflexivity].
  destruct (get_metric_from_datamap_and_subtags tag data)
    as [[[realmetric|other]|]|]; try discriminate.
  exists realmetric. split; [reflexivity|].
  injection H2 as <-. reflexivity.
Qed.

Lemma parse_twice (tag : Tag) (data : DataMap) (w : World Pose) :
  (parse_common_ensemble_metric_options parse_mover tag data ;;;
   parse_my_tag parse_mover get_metric_from_datamap_and_subtags tag data) w
  = parse_my_tag parse_mover get_metric_from_datamap_and_subtags tag data w.
Proof.
  unfold parse_my_tag.
  destruct (parse_common_ensemble_metric_options parse_mover tag data w)
    as [[[]|e|c] w1] eqn:E.
  - rewrite (@script_bind_run _ _ _ _ _ _ _ E).
    rewrite (@script_bind_run _ _ _ _ _ _ _ E).
    rewrite (@script_bind_run _ _ _ _ _ _ _
               (@parse_common_settled tag data w1
                  (proj1 (@parse_common_returns tag data w w1 E)))).
    reflexivity.
  - unfold script_bind. rewrite E. reflexivity.
  - unfold script_bind. rewrite E. reflexivity.
Qed.

Lemma new_ensemble_metric_returns (ensemble_metric_name : string) (tag : Tag)
  (data : DataMap) (creator_map_ : EnsembleMetricCreatorMap Pose)
  (m : CentralTendencyEnsembleMetric Pose) :
  new_ensemble_metric parse_mover get_metric_from_datamap_and_subtags
    ensemble_metric_name tag data creator_map_ = Returns m ->
  exists creator w2,
    creator_map_find ensemble_metric_name creator_map_ = Some creator
    /\ parse_my_tag parse_mover get_metric_from_datamap_and_subtags tag data
         (world_of (create_ensemble_metric creator)) = (Returns tt, w2)
    /\ m = self w2.
Proof.
  unfold new_ensemble_metric.
  destruct (creator_map_find ensemble_metric_name creator_map_) as [creator|];
    [|discriminate].
  rewrite parse_twice.
  destruct (parse_my_tag parse_mover get_metric_from_datamap_and_subtags tag
              data (world_of (create_ensemble_metric creator)))
    as [[[]|e|c] w2] eqn:E; try discriminate.
  intros H. injection H as <-. exists creator, w2.
  split; [reflexivity | split; [exact E | reflexivity]].
Qed.

(** X20.  The factory parses the common options of a tag twice, once itself
    and once more inside [parse_my_tag]; the second parse changes nothing.
    [new_ensemble_metric] gives the object that [parse_my_tag] alone leaves
    of the creator's new object, or the error that [parse_my_tag] alone
    raises, and [NoCreatorError] for a name that is not registered. *)
Theorem new_ensemble_metric_parses_once :
  forall (ensemble_metric_name : string) (tag : Tag) (data : DataMap)
         (creator_map_ : EnsembleMetricCreatorMap Pose),
    new_ensemble_metric parse_mover get_metric_from_datamap_and_subtags
      ensemble_metric_name tag data creator_map_
    = match creator_map_find ensemble_metric_name creator_map_ with
      | None => Raises NoCreatorError
      | Some creator =>
          match parse_my_tag parse_mover get_metric_from_datamap_and_subtags
                  tag data (world_of (create_ensemble_metric creator)) with
          | (Returns _, w) => Returns (self w)
          | (Raises e, _) => Raises e
          | (Aborts c, _) => Aborts c
          end
      end.
Proof.
  intros. unfold new_ensemble_metric.
  destruct (creator_map_find ensemble_metric_name creator_map_); [|reflexivity].
  rewrite parse_twice. reflexivity.
Qed.


(** X22.  Tags that [new_ensemble_metric] never turns into an object: an
    output file name while the mode stays [TRACER] (the mode of a new
    object, unless the tag changes it), a thread count of 2 or more, zero
    repeats of a given protocol, a mode string that names no mode, a
    protocol that [parse_mover] does not find, and a [real_valued_metric]
    that is missing or not real-valued. *)
Theorem new_ensemble_metric_rejects :
  forall (ensemble_metric_name : string) (tag : Tag) (data : DataMap)
         (creator_map_ : EnsembleMetricCreatorMap Pose),
    let result :=
      new_ensemble_metric parse_mover get_metric_from_datamap_and_subtags
        ensemble_metric_name tag data creator_map_ in
    let rejected := forall m, result <> Returns m in
    (forall file_name,
       opt_output_filename tag = Some file_name ->
       opt_output_mode tag = Some "tracer"%string
       \/ (opt_output_mode tag = None
           /\ forall creator,
                creator_map_find ensemble_metric_name creator_map_
                = Some creator ->
                output_mode_ (base (create_ensemble_metric creator)) = TRACER) ->
       rejected)
    /\ (forall n, opt_n_threads tag = Some n -> (2 <= n)%N -> rejected)
    /\ (forall protocol_name,
          opt_ensemble_generating_protocol tag = Some protocol_name ->
          parse_mover protocol_name data = None
          \/ opt_ensemble_generating_protocol_repeats tag = Some 0%N ->
          rejected)
    /\ (forall mode_string,
          opt_output_mode tag = Some mode_string ->
          (forall mode, output_mode_name_from_enum mode <> Ok mode_string) ->
          rejected)
    /\ (forall metric_name,
          opt_real_valued_metric tag = Some metric_name ->
          (forall realmetric,
             get_metric_from_datamap_and_subtags tag data
             <> Some (Some (Real_valued realmetric))) ->
          rejected)
    /\ (creator_map_find ensemble_metric_name creator_map_ = None ->
        result = Raises NoCreatorError).
Proof.
  intros ensemble_metric_name tag data creator_map_ result rejected.
  assert (forall m, result = Returns m ->
            exists creator w1,
              creator_map_find ensemble_metric_name creator_map_ = Some creator
              /\ parse_common_ensemble_metric_options parse_mover tag data
                   (world_of (create_ensemble_metric creator))
                 = (Returns tt, w1)
              /\ agrees_with parse_mover tag data (self w1)
              /\ (opt_output_mode tag = None ->
                  output_mode_ (base (self w1))
                  = output_mode_ (base (create_ensemble_metric creator)))
              /\ match opt_real_valued_metric tag with
                 | Some _ =>
                     exists realmetric,
                       get_metric_from_datamap_and_subtags tag data
                       = Some (Some (Real_valued realmetric))
                 | None => True
                 end) as Hinv.
  { intros m Hm. apply new_ensemble_metric_returns in Hm.
    destruct Hm as [creator [w2 [Hfind [Hparse _]]]].
    apply parse_my_tag_returns in Hparse.
    destruct Hparse as [w1 [Hcommon Hreal]].
    exists creator, w1. split; [exact Hfind|]. split; [exact Hcommon|].
    pose proof (@parse_common_returns tag data _ _ Hcommon)
      as (Hagrees & _ & _ & _ & Hmode & _).
    split; [exact Hagrees|]. split; [exact Hmode|].
    destruct (opt_real_valued_metric tag); [|exact I].
    destruct Hreal as [realmetric [Hget _]]. exists realmetric. exact Hget. }
  split.
  { intros file_name Hfile Hmode m Hm.
    destruct (Hinv m Hm)
      as (creator & w1 & Hfind & _ & Hagrees & Hkept & _).
    destruct Hagrees as (_ & _ & _ & _ & _ & H6 & H7).
    destruct (H7 file_name Hfile) as [Hnot _]. apply Hnot.
    destruct Hmode as [Hom | [Hom Hcreator]].
    - specialize (H6 _ Hom).
      destruct (output_mode_ (base (self w1))); cbn in H6;
        try discriminate; reflexivity.
    - rewrite (Hkept Hom). exact (Hcreator creator Hfind). }
  split.
  { intros n Hn Hle m Hm.
    destruct (Hinv m Hm) as (creator & w1 & _ & _ & Hagrees & _).
    destruct Hagrees as (_ & _ & _ & H4 & _).
    destruct (H4 n Hn) as [Hlt _]. lia. }
  split.
  { intros protocol_name Hp Hbad m Hm.
    destruct (Hinv m Hm) as (creator & w1 & _ & _ & Hagrees & _).
    destruct Hagrees as (_ & _ & H3 & _).
    destruct (H3 protocol_name Hp) as [protocol [Hfound [_ Hrepeats]]].
    destruct Hbad as [Hnone | Hzero].
    - rewrite Hnone in Hfound. discriminate.
    - destruct (Hrepeats 0%N Hzero) as [Hpos _]. lia. }
  split.
  { intros mode_string Hom Hbad m Hm.
    destruct (Hinv m Hm) as (creator & w1 & _ & _ & Hagrees & _).
    destruct Hagrees as (_ & _ & _ & _ & _ & H6 & _).
    exact (Hbad _ (H6 mode_string Hom)). }
  split.
  { intros metric_name Hreal Hbad m Hm.
    destruct (Hinv m Hm) as (creator & w1 & _ & _ & _ & _ & Hget).
    rewrite Hreal in Hget. destruct Hget as [realmetric Hget].
    exact (Hbad realmetric Hget). }
  intros Hnone. unfold result, new_ensemble_metric. rewrite Hnone. reflexivity.
Qed.

(** ** The factory's map of creators *)

Lemma string_ltb_irrefl (s : string) : String.ltb s s = false.
Proof.
  unfold String.ltb. pose proof (String.compare_antisym s s) as H.
  destruct (String.compare s s); cbn in H; try discriminate; reflexivity.
Qed.

Lemma string_ltb_neither (s t : string) :
  String.ltb s t = false -> String.ltb t s = false -> s = t.
Proof.
  unfold String.ltb. intros H1 H2.
  pose proof (String.compare_antisym s t) as H.
  destruct (String.compare s t) eqn:E.
  - apply String.compare_eq_iff. exact E.
  - discriminate.
  - destruct (String.compare t s); cbn in H; discriminate.
Qed.

Lemma creator_map_find_assign (key : string)
  (creator : EnsembleMetricCreator Pose)
  (creator_map_ : EnsembleMetricCreatorMap Pose) :
  creator_map_find key (creator_map_assign key creator creator_map_)
  = Some creator.
Proof.
  induction creator_map_ as [|[k c] rest IH]; cbn.
  - rewrite String.eqb_refl. reflexivity.
  - destruct (String.ltb key k) eqn:E1; cbn.
    + rewrite String.eqb_refl. reflexivity.
    + destruct (String.ltb k key) eqn:E2; cbn.
      * destruct (String.eqb_spec key k) as [->|_]; [|exact IH].
        rewrite string_ltb_irrefl in E2. discriminate.
      * rewrite (string_ltb_neither _ _ E1 E2), String.eqb_refl. reflexivity.
Qed.

Lemma creator_map_find_assign_other (key other : string)
  (creator : EnsembleMetricCreator Pose)
  (creator_map_ : EnsembleMetricCreatorMap Pose) :
  other <> key ->
  creator_map_find other (creator_map_assign key creator creator_map_)
  = creator_map_find other creator_map_.
Proof.
  intros Hne.
  induction creator_map_ as [|[k c] rest IH]; cbn.
  - rewrite (proj2 (String.eqb_neq _ _) Hne). reflexivity.
  - destruct (String.ltb key k) eqn:E1; cbn.
    + rewrite (proj2 (String.eqb_neq _ _) Hne). reflexivity.
    + destruct (String.ltb k key) eqn:E2; cbn.
      * rewrite IH. reflexivity.
      * rewrite <- (string_ltb_neither _ _ E1 E2).
        rewrite (proj2 (String.eqb_neq _ _) Hne). reflexivity.
Qed.

(** X23.  [factory_register] refuses a creator whose key is taken and
    otherwise adds it: afterwards the key finds the new creator, every other
    key finds what it found before, and a second creator under the same key
    is refused. *)
Theorem factory_register_then_find :
  forall (creator : EnsembleMetricCreator Pose)
         (creator_map_ : EnsembleMetricCreatorMap Pose),
    (has_type (keyname creator) creator_map_ = true ->
     factory_register creator creator_map_ = Raises FactoryNameConflictError)
    /\ (has_type (keyname creator) creator_map_ = false ->
        exists registered,
          factory_register creator creator_map_ = Returns registered
          /\ creator_map_find (keyname creator) registered = Some creator
          /\ (forall selector_type,
                selector_type <> keyname creator ->
                creator_map_find selector_type registered
                = creator_map_find selector_type creator_map_)
          /\ (forall selector_type,
                has_type selector_type registered
                = (String.eqb selector_type (keyname creator)
                   || has_type selector_type creator_map_)%bool)
          /\ forall other,
               keyname other = keyname creator ->
               factory_register other registered
               = Raises FactoryNameConflictError).
Proof.
  intros creator creator_map_. unfold has_type, factory_register.
  destruct (creator_map_find (keyname creator) creator_map_) eqn:E.
  - split; [reflexivity | discriminate].
  - split; [discriminate|]. intros _.
    eexists. split; [reflexivity|].
    split; [apply creator_map_find_assign|].
    split; [intros; apply creator_map_find_assign_other; assumption|].
    split.
    + intros selector_type.
      destruct (String.eqb_spec selector_type (keyname creator)) as [->|Hne].
      * rewrite creator_map_find_assign. reflexivity.
      * rewrite creator_map_find_assign_other by exact Hne. reflexivity.
    + intros other ->. rewrite creator_map_find_assign. reflexivity.
Qed.

End Further_parsing.

End Further.

(** ** The further properties at concrete inputs *)

(** The first ensemble, reported twice. *)
Lemma produce_final_report_again_witness :
  let w := world_after (map (@Op_apply float) ensemble1) in
  exists w1 events,
    produce_final_report w = (Ok tt, w1)
    /\ output w1 = output w ++ events
    /\ length events = 2%nat
    /\ produce_final_report w1 = (Ok tt, with_output events w1).
Proof.
  cbv zeta.
  assert (produce_final_report (world_after (map (@Op_apply float) ensemble1))
          = (Ok tt,
             snd (produce_final_report
                    (world_after (map (@Op_apply float) ensemble1))))) as E
      by (vm_compute; reflexivity).
  destruct (@produce_final_report_again float _ _ E) as [events [Hout Hagain]].
  exists (snd (produce_final_report
                 (world_after (map (@Op_apply float) ensemble1)))), events.
  split; [exact E|]. split; [exact Hout|]. split; [|exact Hagain].
  vm_compute in Hout. rewrite <- Hout. reflexivity.
Defined.
Lemma reset_starts_afresh_witness :
  let w := world_after (map (@Op_apply float) ensemble1
                        ++ [Op_produce_final_report float]) in
  (finalized (self w) = true /\ values_ (self w) = ensemble1)
  /\ exists w',
       run [Op_reset float; Op_apply 7%float; Op_apply 8%float;
            Op_produce_final_report float] w = Some w'
       /\ finalized (self w') = true
       /\ values_ (self w') = [7; 8]%float
       /\ poses_in_ensemble (self w') = 2%N.
Proof.
  cbv zeta. split; [split; reflexivity|].
  destruct (@reset_starts_afresh float
              (world_after (map (@Op_apply float) ensemble1
                            ++ [Op_produce_final_report float]))
              value_metric [7; 8]%float
              eq_refl (conj eq_refl (or_introl eq_refl)) I
              ltac:(discriminate) eq_refl)
    as [w' [Hrun [Hf [Hv [Hp _]]]]].
  exists w'. repeat split; assumption.
Defined.


Lemma report_without_file_name_witness :
  (output_mode_ (base (self unnamed_file)) = FILE
   /\ output_filename_ (base (self unnamed_file)) = EmptyString
   /\ values_ (self unnamed_file) = ensemble1)
  /\ produce_final_report unnamed_file = (Throw NoOutputFileError, unnamed_file)
  /\ destructor unnamed_file
     = (Crash (Terminate NoOutputFileError), unnamed_file).
Proof.
  split; [repeat split|].
  assert (can_finalize (self unnamed_file)) as Hcan.
  { right. split; [reflexivity|]. vm_compute. discriminate. }
  assert (output_filename_ (base (self unnamed_file)) = EmptyString) as H1 by reflexivity.
  assert (simple_metric_ (self unnamed_file) = Some value_metric) as H2 by reflexivity.
  assert (finalized (self unnamed_file) = false) as H3 by reflexivity.
  assert (0 < poses_in_ensemble (self unnamed_file))%N as H4 by reflexivity.
  pose proof (proj1 (@report_without_file_name float unnamed_file value_metric
                  H1 H2 Hcan H3 H4)) as P.
  apply P.
  reflexivity.
Defined.
Lemma missing_simple_metric_breaks_destructor_witness :
  let w := world_of (CentralTendencyEnsembleMetric_default float) in
  exists w1 w2,
    apply 1%float w = (Throw NoSimpleMetricError, w1)
    /\ values_ (self w1) = []
    /\ poses_in_ensemble (self w1) = 1%N
    /\ destructor w1 = (Crash OutOfBounds, w2).
Proof.
  cbv zeta.
  exact (@missing_simple_metric_breaks_destructor float
           (world_of (CentralTendencyEnsembleMetric_default float)) 1%float
           eq_refl eq_refl eq_refl eq_refl eq_refl I ltac:(discriminate)).
Defined.


Lemma apply_measures_additional_output_witness :
  exists w',
    apply 1%float (world_of multi_output_metric) = (Ok tt, w')
    /\ values_ (self w') = [1; 2; 3]%float
    /\ poses_in_ensemble (self w') = 3%N
    /\ finalized (self w') = true
    /\ output w'
       = [TracerHeader "CentralTendency" 3;
          TracerReport
            {| report_metric := "value";
               report_lines :=
                 [("mean", 2); ("median", 2); ("mode", 2);
                  ("stddev", PrimFloat.sqrt (2 / 3));
                  ("stderr", PrimFloat.sqrt (2 / 3) / PrimFloat.sqrt 3);
                  ("min", 1); ("max", 3); ("range", 2)]%float%string |}].
Proof.
  destruct (@apply_measures_additional_output float
              (world_of multi_output_metric) 1%float value_metric two_more
              eq_refl eq_refl eq_refl eq_refl eq_refl eq_refl
              (conj eq_refl eq_refl) eq_refl I)
    as [w' [Hrun [Hv [Hp [Hf [_ Hout]]]]]].
  exists w'. split; [exact Hrun|]. split; [exact Hv|]. split; [exact Hp|].
  split; [exact Hf|]. exact Hout.
Defined.

Lemma send_mpi_summary_sends_witness :
  let w := world_after [Op_apply 5%float; Op_apply 6%float] in
  send_mpi_summary 0 w
  = (Ok tt,
     {| self := self w; output := output w; inbox := inbox w;
        sent := [(0, MPI_INT 2); (0, MPI_DOUBLE [5; 6]%float)]%Z |}).
Proof.
  cbv zeta.
  exact (proj1 (@send_mpi_summary_sends float
                  (world_after [Op_apply 5%float; Op_apply 6%float]) 0%N
                  eq_refl eq_refl) eq_refl).
Defined.

Lemma mpi_summary_round_trip_witness :
  let worker := world_after [Op_apply 5%float; Op_apply 6%float] in
  let coordinator := world_after [Op_apply 1%float] in
  exists msgs worker' coordinator',
    send_mpi_summary 0 worker = (Ok tt, worker')
    /\ sent worker' = msgs
    /\ recv_mpi_summary (set_inbox (arriving_from 2 msgs) coordinator)
       = (Ok 2%N, coordinator')
    /\ values_ (self coordinator') = [1; 5; 6]%float
    /\ poses_in_ensemble (self coordinator') = 3%N.
Proof.
  cbv zeta.
  destruct (@mpi_summary_round_trip float
              (world_after [Op_apply 5%float; Op_apply 6%float])
              (world_after [Op_apply 1%float]) 2%Z 0%N
              (conj eq_refl eq_refl) eq_refl ltac:(discriminate) eq_refl)
    as [msgs [worker' [coordinator' [Hs [Hm [_ [Hr [Hv [Hp _]]]]]]]]].
  exists msgs, worker', coordinator'. repeat split; assumption.
Defined.

Lemma recv_mpi_summary_gathers_witness :
  exists order w',
    Permutation order [(2%Z, [5; 6]%float); (3%Z, [9%float])]
    /\ run [Op_recv_mpi_summary float; Op_recv_mpi_summary float] coordinator
       = Some w'
    /\ values_ (self w') = values_ (self coordinator) ++ concat (map snd order)
    /\ poses_in_ensemble (self w') = 4%N
    /\ inbox w' = [].
Proof.
  assert (forall peer,
            In peer [(2%Z, [5; 6]%float); (3%Z, [9%float])] ->
            from (fst peer) (inbox coordinator) = peer_messages peer) as Hfrom.
  { intros peer [<-|[<-|[]]]; reflexivity. }
  assert (forall msg,
            In msg (inbox coordinator) ->
            In (fst msg)
              (map fst [(2%Z, [5; 6]%float); (3%Z, [9%float])])) as Hsrc.
  { intros msg [<-|[<-|[<-|[<-|[]]]]]; cbn; auto. }
  exact (@recv_mpi_summary_gathers float
           [(2%Z, [5; 6]%float); (3%Z, [9%float])] coordinator
           ltac:(repeat constructor; cbn; intuition discriminate)
           ltac:(repeat constructor; cbn; (discriminate || reflexivity))
           Hfrom Hsrc (conj eq_refl eq_refl) eq_refl).
Defined.

Lemma apply_reports_at_once_or_at_end_witness :
  exists w',
    apply 1%float (world_of fresh_metric) = (Ok tt, w')
    /\ reports_at_end (self (world_of fresh_metric)) = true
    /\ finalized (self w') = false.
Proof.
  eexists. split; [reflexivity|]. split; [reflexivity|].
  exact (proj1 (proj2 (@apply_reports_at_once_or_at_end float
                         (world_of fresh_metric) _ 1%float eq_refl))
           eq_refl).
Defined.


(** The mean of the first ensemble is above one half. *)
Lemma filter_apply_is_stable_witness :
  let w := world_after (map (@Op_apply float) ensemble1) in
  exists w',
    filters.apply mean_above_half 1%float w = (Returns true, w')
    /\ finalized (self w') = true
    /\ filters.apply mean_above_half 7%float w' = (Returns true, w')
    /\ exists value,
         filters.report_sm mean_above_half 7%float w' = (Returns value, w')
         /\ true = filters.value_passes mean_above_half value.
Proof.
  cbv zeta.
  assert (filters.apply mean_above_half 1%float
            (world_after (map (@Op_apply float) ensemble1))
          = (Returns true,
             snd (filters.apply mean_above_half 1%float
                    (world_after (map (@Op_apply float) ensemble1))))) as E
      by (vm_compute; reflexivity).
  destruct (@filter_apply_is_stable float mean_above_half _ _ 1%float true E)
    as [Hf Hagain].
  eexists. split; [exact E|]. split; [exact Hf|]. exact (Hagain 7%float).
Defined.

